(** * LightBSR multi-scale data loader: a model of [dataloader.py]

    The development embeds the consumer-side iterator [_DataLoaderIter]
    (as specialised by [_MSDataLoaderIter]), the worker loop [_ms_loop]
    and the shutdown sequence of [src/dataloader.py], and proves the
    ordering, window, error-propagation and shutdown properties of the
    prefetch pipeline.

    Conventions.
    - Python attributes of [self] are the fields of the record [Iter];
      everything the iterator cannot control (liveness of the worker
      processes, what arrives on the result channel and when, the
      interpreter's exit status) lives in the record [World], together
      with the trace of the effects the iterator has had so far.
    - Stateful code is written in a small state-and-exception monad [M].
    - Every worker answers the work items of its own index queue in
      order, with the body of [_ms_loop]; across workers the result
      channel is unordered.  Every blocking [get] is answered by the next
      entry of an environment script, which decides which busy worker
      finishes its current work item first, or that nothing arrives, or
      that the receive breaks.  A call that would wait beyond the end of
      the script is [Blocked].
    - The file has five parts: the model of the code, the vocabulary of
      the proofs, facts about the model, the claims C1 to C10, and
      further properties of the code, X1 to X18. *)

From stdpp Require Import gmap strings list pretty.

Local Open Scope Z_scope.

(* ================================================================== *)
(** ** Exceptions *)

Inductive ExcType :=
| KeyError
| RuntimeError
| AssertionError
| IndexError
| StopIteration
| Exception
| QueueEmpty
| UserError (name : string).

Global Instance ExcType_eq_dec : EqDecision ExcType.
Proof. solve_decision. Defined.

Record Exn := mkExn { exn_type : ExcType; exn_msg : string }.

Global Instance Exn_eq_dec : EqDecision Exn.
Proof. solve_decision. Defined.

(** The outcome of a pure collaborator call that may raise. *)
Inductive Try (A : Type) :=
| Ok (a : A)
| Err (e : Exn).
Arguments Ok {A} a.
Arguments Err {A} e.

(** [_utils.ExceptionWrapper] of the torch library, with the two
    attributes that [_process_next_batch] reads: the class of the error
    that was caught, and as its message the whole traceback of the
    error as text. *)
Record ExceptionWrapper := mkWrapper { exc_type : ExcType; exc_msg : string }.

(** A collated batch is a list of values; the worker appends the selected
    scale index to it. *)
Definition Batch := list Z.

(** What travels on the result channel next to a sequence number. *)
Inductive Payload :=
| Samples (b : Batch)
| Wrapped (w : ExceptionWrapper).

Abbreviation WorkItem := (nat * list nat)%type.

(* ================================================================== *)
(** ** Strings used in messages *)

Definition newline : Ascii.ascii := Ascii.ascii_of_nat 10.

(** ["\n" in s] *)
Fixpoint contains_newline (s : string) : bool :=
  match s with
  | EmptyString => false
  | String c s' => if decide (c = newline) then true else contains_newline s'
  end.

(** The name under which Python prints the class of an error; a class
    outside the built-in ones is printed with its module. *)
Definition exc_name (t : ExcType) : string :=
  match t with
  | KeyError => "KeyError"
  | RuntimeError => "RuntimeError"
  | AssertionError => "AssertionError"
  | IndexError => "IndexError"
  | StopIteration => "StopIteration"
  | Exception => "Exception"
  | QueueEmpty => "queue.Empty"
  | UserError name => name
  end.

(** [traceback.format_exception_only]: the last line of a traceback,
    the class of the error and, unless it is empty, [str] of the
    error. *)
Definition format_exception_only (e : Exn) : string :=
  if decide (exn_msg e = EmptyString)
  then exc_name (exn_type e) +:+ String newline EmptyString
  else exc_name (exn_type e) +:+ ": " +:+ exn_msg e
         +:+ String newline EmptyString.

(** The lines of [traceback.format_exception] joined, which is the
    message that [_utils.ExceptionWrapper] keeps: the header, the
    entries of the stack as [traceback.format_tb] prints them, here
    [tb], and the last line. *)
Definition format_exception (tb : string) (e : Exn) : string :=
  "Traceback (most recent call last):" +:+ String newline EmptyString
    +:+ tb +:+ format_exception_only e.

(** [', '.join(l)] *)
Definition join_comma (l : list string) : string := String.concat ", "%string l.






(* ================================================================== *)
(** ** The collaborators: dataset, collate function, loader *)

(** The dataset is an opaque collaborator.  It carries the training flag
    read by the worker, the scale selected by [set_scale], and the item
    lookup, which may depend on the selected scale and may raise. *)
Record Dataset := mkDataset {
  train : bool;
  idx_scale : nat;
  getitem : nat -> nat -> Try Z
}.

Definition set_scale (ds : Dataset) (k : nat) : Dataset :=
  {| train := train ds; idx_scale := k; getitem := getitem ds |}.

(** [dataset[i]] *)
Definition dataset_get (ds : Dataset) (i : nat) : Try Z :=
  getitem ds (idx_scale ds) i.

(** [[dataset[i] for i in batch_indices]]: the first failing lookup
    aborts the comprehension. *)
Fixpoint fetch_all (ds : Dataset) (batch_indices : list nat) : Try (list Z) :=
  match batch_indices with
  | [] => Ok []
  | i :: rest =>
      match dataset_get ds i with
      | Err e => Err e
      | Ok x =>
          match fetch_all ds rest with
          | Err e => Err e
          | Ok xs => Ok (x :: xs)
          end
      end
  end.

Record Loader := mkLoader {
  dataset : Dataset;
  scale : list nat;
  collate_fn : list Z -> Try Batch;
  batch_sampler : list (list nat);
  num_workers : nat;
  pin_memory : bool;
  timeout : Z;
  cuda_is_available : bool;
  (** the process id the operating system gives to worker [i] *)
  pid_of : nat -> nat;
  (** the entries of the stack, two lines for every frame, that Python
      prints for an error caught in the worker loop *)
  format_tb : Exn -> string
}.

(** [_utils.ExceptionWrapper(sys.exc_info())] in the [except] clause of
    the worker loop, for the error [e]. *)
Definition wrap_exc_info (ld : Loader) (e : Exn) : ExceptionWrapper :=
  {| exc_type := exn_type e;
     exc_msg := format_exception (format_tb ld e) e |}.

(** [_utils.MP_STATUS_CHECK_INTERVAL], the polling interval in seconds. *)
Definition MP_STATUS_CHECK_INTERVAL : Z := 5.

(** [_utils.pin_memory.pin_memory_batch]: moves the batch to page-locked
    memory; the values are unchanged. *)
Definition pin_memory_batch (b : Batch) : Batch := b.

(* ================================================================== *)
(** ** The worker loop [_ms_loop]

    The set-up before the loop (signal handlers, thread count, seed of
    the torch generator) has no effect on what the loop puts on the
    result channel and is left out. *)

Section Worker.
Variable ld : Loader.

(** [random.randrange(0, n)] answered by the draw [r] of the worker's
    generator. *)
Definition randrange (n r : nat) : nat := (r `mod` n)%nat.

(** One pass through the body of the [while True] loop, for a work item
    that is not the sentinel.  Returns the pair put on the result
    channel and the worker's dataset afterwards. *)
Definition loop_body (ds : Dataset) (r : nat) (item : WorkItem)
  : (nat * Payload) * Dataset :=
  let '(idx, batch_indices) := item in
  let '(k, ds1) :=
    if bool_decide (1 < length (scale ld))%nat && train ds
    then let k := randrange (length (scale ld)) r in (k, set_scale ds k)
    else (0%nat, ds) in
  match fetch_all ds1 batch_indices with
  | Err e => ((idx, Wrapped (wrap_exc_info ld e)), ds1)
  | Ok items =>
      match collate_fn ld items with
      | Err e => ((idx, Wrapped (wrap_exc_info ld e)), ds1)
      | Ok samples => ((idx, Samples (samples ++ [Z.of_nat k])), ds1)
      end
  end.

(** The whole loop, run on the contents of the worker's index queue
    ([None] is the sentinel) with the draws of its random generator;
    the result is what the worker puts on the result channel, in
    order.  On an empty queue [index_queue.get()] blocks, and nothing
    more is put. *)
Fixpoint _ms_loop (ds : Dataset) (draws : list nat)
    (index_queue : list (option WorkItem)) : list (nat * Payload) :=
  match index_queue with
  | [] => []
  | None :: _ => []
  | Some item :: rest =>
      let '(out, ds') := loop_body ds (hd 0%nat draws) item in
      out :: _ms_loop ds' (tl draws) rest
  end.
End Worker.

Global Arguments loop_body : simpl never.

(* ================================================================== *)
(** ** Iterator state, environment, effects *)

(** A worker process: its pid and its own copy of the dataset. *)
Record Worker := mkWorker { pid : nat; wdataset : Dataset }.

Record Iter := mkIter {
  sample_iter : list (list nat);
  worker_queue_idx : nat;
  batches_outstanding : Z;
  worker_pids_set : bool;
  shutdown : bool;
  send_idx : nat;
  rcvd_idx : nat;
  reorder_dict : gmap nat Payload;
  (** contents of the per-worker input channels *)
  index_queues : list (list (option WorkItem));
  workers : list Worker;
  (** [hasattr(self, 'pin_memory_thread')] *)
  has_pin_memory_thread : bool
}.

(** What [data_queue.get(timeout=...)] does, as decided by the
    environment. *)
Inductive Arrival :=
| Got (c r : nat)     (** a result arrives in time: [c] selects which busy
                          worker finished first, [r] is that worker's
                          random draw *)
| Silent              (** nothing arrives before the timeout: [queue.Empty] *)
| Broken (e : Exn).   (** the receive itself raises [e] *)

Record Response := mkResponse {
  arrival : Arrival;
  (** [w.is_alive()] of the worker with the given pid, once the receive
      is over *)
  alive_after : nat -> bool;
  (** [pin_memory_thread.is_alive()] once the receive is over *)
  relay_after : bool
}.

(** Observable effects, in the order they happen. *)
Inductive Event :=
| Outstanding (v : Z)        (** [batches_outstanding] was assigned [v] *)
| PutIndices (v : Z)         (** [_put_indices] was entered with
                                 [batches_outstanding = v] *)
| Dispatch (w idx : nat)     (** [index_queues[w].put((idx, indices))] *)
| Waited (t : Z)             (** a receive blocked for [t] seconds, then [queue.Empty] *)
| SetWorkerPids
| DoneEventSet
| ResultCancelJoin
| ResultPutNone
| RelayJoin
| ResultClose
| IndexPutNone (w : nat)
| IndexClose (w : nat)
| WorkerJoin (w : nat)
| RemoveWorkerPids.

Global Instance Event_eq_dec : EqDecision Event.
Proof. solve_decision. Defined.

Record World := mkWorld {
  alive : nat -> bool;
  relay_alive : bool;
  env : list Response;
  (** [_utils.python_exit_status] *)
  python_exit_status : option bool;
  trace : list Event
}.

Record State := mkState { self : Iter; world : World }.

(** Field updates. *)
Definition set_sample_iter v (s : Iter) : Iter :=
  mkIter v (worker_queue_idx s) (batches_outstanding s) (worker_pids_set s)
    (shutdown s) (send_idx s) (rcvd_idx s) (reorder_dict s) (index_queues s)
    (workers s) (has_pin_memory_thread s).
Definition set_worker_queue_idx v (s : Iter) : Iter :=
  mkIter (sample_iter s) v (batches_outstanding s) (worker_pids_set s)
    (shutdown s) (send_idx s) (rcvd_idx s) (reorder_dict s) (index_queues s)
    (workers s) (has_pin_memory_thread s).
Definition set_batches_outstanding v (s : Iter) : Iter :=
  mkIter (sample_iter s) (worker_queue_idx s) v (worker_pids_set s)
    (shutdown s) (send_idx s) (rcvd_idx s) (reorder_dict s) (index_queues s)
    (workers s) (has_pin_memory_thread s).
Definition set_worker_pids_set v (s : Iter) : Iter :=
  mkIter (sample_iter s) (worker_queue_idx s) (batches_outstanding s) v
    (shutdown s) (send_idx s) (rcvd_idx s) (reorder_dict s) (index_queues s)
    (workers s) (has_pin_memory_thread s).
Definition set_shutdown v (s : Iter) : Iter :=
  mkIter (sample_iter s) (worker_queue_idx s) (batches_outstanding s)
    (worker_pids_set s) v (send_idx s) (rcvd_idx s) (reorder_dict s)
    (index_queues s) (workers s) (has_pin_memory_thread s).
Definition set_send_idx v (s : Iter) : Iter :=
  mkIter (sample_iter s) (worker_queue_idx s) (batches_outstanding s)
    (worker_pids_set s) (shutdown s) v (rcvd_idx s) (reorder_dict s)
    (index_queues s) (workers s) (has_pin_memory_thread s).
Definition set_rcvd_idx v (s : Iter) : Iter :=
  mkIter (sample_iter s) (worker_queue_idx s) (batches_outstanding s)
    (worker_pids_set s) (shutdown s) (send_idx s) v (reorder_dict s)
    (index_queues s) (workers s) (has_pin_memory_thread s).
Definition set_reorder_dict v (s : Iter) : Iter :=
  mkIter (sample_iter s) (worker_queue_idx s) (batches_outstanding s)
    (worker_pids_set s) (shutdown s) (send_idx s) (rcvd_idx s) v
    (index_queues s) (workers s) (has_pin_memory_thread s).
Definition set_index_queues v (s : Iter) : Iter :=
  mkIter (sample_iter s) (worker_queue_idx s) (batches_outstanding s)
    (worker_pids_set s) (shutdown s) (send_idx s) (rcvd_idx s)
    (reorder_dict s) v (workers s) (has_pin_memory_thread s).
Definition set_workers v (s : Iter) : Iter :=
  mkIter (sample_iter s) (worker_queue_idx s) (batches_outstanding s)
    (worker_pids_set s) (shutdown s) (send_idx s) (rcvd_idx s)
    (reorder_dict s) (index_queues s) v (has_pin_memory_thread s).

Definition log (e : Event) (w : World) : World :=
  mkWorld (alive w) (relay_alive w) (env w) (python_exit_status w)
    (trace w ++ [e]).
Definition answer (r : Response) (rest : list Response) (w : World) : World :=
  mkWorld (alive_after r) (relay_after r) rest (python_exit_status w) (trace w).

(* ================================================================== *)
(** ** The monad of the iterator's methods *)

Inductive Res (A : Type) :=
| Ret (a : A)          (** normal return *)
| Raise (e : Exn)      (** an exception propagates *)
| Blocked.             (** the call waits on a receive beyond the end of
                           the environment script *)
Arguments Ret {A} a.
Arguments Raise {A} e.
Arguments Blocked {A}.

Definition M (A : Type) : Type := State -> Res A * State.

Definition ret {A} (a : A) : M A := fun st => (Ret a, st).
Definition raise {A} (e : Exn) : M A := fun st => (Raise e, st).
Definition blocked {A} : M A := fun st => (Blocked, st).
Definition bind {A B} (m : M A) (f : A -> M B) : M B :=
  fun st =>
    match m st with
    | (Ret a, st') => f a st'
    | (Raise e, st') => (Raise e, st')
    | (Blocked, st') => (Blocked, st')
    end.

Global Instance M_ret : MRet M := @ret.
Global Instance M_bind : MBind M := fun A B f m => bind m f.

Definition get_self : M Iter := fun st => (Ret (self st), st).
Definition get_world : M World := fun st => (Ret (world st), st).
Definition update (f : Iter -> Iter) : M unit :=
  fun st => (Ret tt, mkState (f (self st)) (world st)).
Definition emit (e : Event) : M unit :=
  fun st => (Ret tt, mkState (self st) (log e (world st))).

(** [assert b] *)
Definition assert (b : bool) : M unit :=
  if b then ret tt else raise (mkExn AssertionError EmptyString).

(** A pure collaborator call inside a method: its exception propagates. *)
Definition call {A} (t : Try A) : M A :=
  match t with
  | Ok a => ret a
  | Err e => raise e
  end.

(** [self.batches_outstanding = v] *)
Definition assign_outstanding (v : Z) : M unit :=
  update (set_batches_outstanding v) ;; emit (Outstanding v).

(** [try: m except Exception as e: h e] *)
Definition try_except {A} (m : M A) (h : Exn -> M A) : M A :=
  fun st =>
    match m st with
    | (Raise e, st') => h e st'
    | other => other
    end.

(** [for x in l: f x] *)
Fixpoint for_each {A} (l : list A) (f : A -> M unit) : M unit :=
  match l with
  | [] => ret tt
  | x :: rest => f x ;; for_each rest f
  end.

(** [for _ in range(n): m] *)
Fixpoint repeat_n (n : nat) (m : M unit) : M unit :=
  match n with
  | O => ret tt
  | S n' => m ;; repeat_n n' m
  end.

(* ================================================================== *)
(** ** The result channel *)

Section Channel.
Variable ld : Loader.

(** The queue starts with a work item (not with the sentinel). *)
Definition is_busy (q : list (option WorkItem)) : bool :=
  match q with
  | Some _ :: _ => true
  | _ => false
  end.

(** The workers that hold a work item they have not answered yet. *)
Definition busy (qs : list (list (option WorkItem))) : list nat :=
  filter (fun w => default false (is_busy <$> qs !! w) = true)
         (seq 0 (length qs)).

(** Worker [w] takes the next work item of its index queue, runs the
    body of [_ms_loop] on it with the draw [r] and emits the result. *)
Definition worker_finish (w r : nat) (s : Iter)
  : option ((nat * Payload) * Iter) :=
  match index_queues s !! w, workers s !! w with
  | Some (Some item :: q), Some wk =>
      let '(out, ds') := loop_body ld (wdataset wk) r item in
      Some (out,
            set_workers (<[w := mkWorker (pid wk) ds']> (workers s))
              (set_index_queues (<[w := q]> (index_queues s)) s))
  | _, _ => None
  end.

(** The next result on the channel: the choice [c] of the environment
    selects among the busy workers.  With no busy worker nothing can
    arrive. *)
Definition next_result (c r : nat) (s : Iter)
  : option ((nat * Payload) * Iter) :=
  let bs := busy (index_queues s) in
  match bs !! (c `mod` length bs)%nat with
  | Some w => worker_finish w r s
  | None => None
  end.

(** [self.data_queue.get(timeout=timeout)].  The relay thread, when
    there is one, forwards results unchanged and in order, so the
    consumer sees the same pairs on either queue. *)
Definition data_queue_get (timeout : Z) : M (nat * Payload) :=
  fun st =>
    match env (world st) with
    | [] => (Blocked, st)
    | r :: rest =>
        let w' := answer r rest (world st) in
        let empty :=
          (Raise (mkExn QueueEmpty EmptyString),
           mkState (self st) (log (Waited timeout) w')) in
        match arrival r with
        | Got c d =>
            match next_result c d (self st) with
            | Some (data, s') => (Ret data, mkState s' w')
            | None => empty
            end
        | Silent => empty
        | Broken e => (Raise e, mkState (self st) w')
        end
    end.
End Channel.

(* ================================================================== *)
(** ** The methods of [_DataLoaderIter] *)

Section Methods.
Variable ld : Loader.

(** [self.pin_memory = loader.pin_memory and torch.cuda.is_available()] *)
Definition self_pin_memory : bool := pin_memory ld && cuda_is_available ld.

(** [w.is_alive()] *)
Definition is_alive (wd : World) (w : Worker) : bool := alive wd (pid w).

(** [w.pid for w in self.workers if not w.is_alive()] *)
Definition dead_pids (wd : World) (ws : list Worker) : list nat :=
  pid <$> filter (fun w => is_alive wd w = false) ws.

(** ['DataLoader worker (pid(s) {}) exited unexpectedly'.format(pids_str)] *)
Definition worker_exit_msg (pids : list nat) : string :=
  "DataLoader worker (pid(s) " +:+ join_comma (pretty <$> pids)
    +:+ ") exited unexpectedly".

(** ['DataLoader timed out after {} seconds'.format(self.timeout)] *)
Definition timeout_msg (t : Z) : string :=
  "DataLoader timed out after " +:+ pretty t +:+ " seconds".

(** [_try_get_batch]: [Some data] is [(True, data)], [None] is
    [(False, None)]. *)
Definition _try_get_batch (timeout : Z) : M (option (nat * Payload)) :=
  try_except
    (data ← data_queue_get ld timeout; mret (Some data))
    (fun e =>
       s ← get_self;
       wd ← get_world;
       if negb (forallb (is_alive wd) (workers s))
       then raise (mkExn RuntimeError
                     (worker_exit_msg (dead_pids wd (workers s))))
       else if decide (exn_type e = QueueEmpty)
       then mret None
       else raise e).

(** [while True: success, data = self._try_get_batch() ...] *)
Fixpoint poll (fuel : nat) : M (nat * Payload) :=
  match fuel with
  | O => blocked
  | S fuel' =>
      r ← _try_get_batch MP_STATUS_CHECK_INTERVAL;
      match r with
      | Some data => mret data
      | None => poll fuel'
      end
  end.

(** [while self.pin_memory_thread.is_alive(): ... else: raise ...] *)
Fixpoint relay_poll (fuel : nat) : M (nat * Payload) :=
  match fuel with
  | O => blocked
  | S fuel' =>
      wd ← get_world;
      if relay_alive wd then
        r ← _try_get_batch MP_STATUS_CHECK_INTERVAL;
        match r with
        | Some data => mret data
        | None => relay_poll fuel'
        end
      else raise (mkExn RuntimeError "Pin memory thread exited unexpectedly")
  end.

(** [_get_batch].  Every turn of the two loops above consumes one entry
    of the environment script, so one turn more than the script is long
    is as good as [while True]. *)
Definition _get_batch : M (nat * Payload) :=
  if bool_decide (0 < timeout ld) then
    r ← _try_get_batch (timeout ld);
    match r with
    | Some data => mret data
    | None => raise (mkExn RuntimeError (timeout_msg (timeout ld)))
    end
  else if self_pin_memory then
    wd ← get_world; relay_poll (S (length (env wd)))
  else
    wd ← get_world; poll (S (length (env wd))).

(** [_put_indices].  The entry is logged for the window property.  With
    no worker the index lookup fails before the remainder by
    [num_workers] is taken. *)
Definition _put_indices : M unit :=
  s ← get_self;
  emit (PutIndices (batches_outstanding s)) ;;
  assert (bool_decide (batches_outstanding s < 2 * Z.of_nat (num_workers ld))) ;;
  match sample_iter s with
  | [] => mret tt
  | indices :: rest =>
      update (set_sample_iter rest) ;;
      match index_queues s !! worker_queue_idx s with
      | None => raise (mkExn IndexError "list index out of range")
      | Some q =>
          update (set_index_queues
                    (<[worker_queue_idx s := q ++ [Some (send_idx s, indices)]]>
                       (index_queues s))) ;;
          emit (Dispatch (worker_queue_idx s) (send_idx s)) ;;
          update (set_worker_queue_idx
                    ((worker_queue_idx s + 1) `mod` num_workers ld)%nat) ;;
          assign_outstanding (batches_outstanding s + 1) ;;
          update (set_send_idx (send_idx s + 1)%nat)
      end
  end.

(** [_process_next_batch] *)
Definition _process_next_batch (batch : Payload) : M Batch :=
  s ← get_self;
  update (set_rcvd_idx (rcvd_idx s + 1)%nat) ;;
  _put_indices ;;
  match batch with
  | Wrapped w =>
      if bool_decide (exc_type w = KeyError) && contains_newline (exc_msg w)
      then raise (mkExn Exception ("KeyError:" +:+ exc_msg w))
      else raise (mkExn (exc_type w) (exc_msg w))
  | Samples b => mret b
  end.

(** [_shutdown_workers].  The queue operations and the joins of the
    [try] block are logged in order; they are taken not to raise, so the
    [finally] block follows them. *)
Definition _shutdown_workers : M unit :=
  wd ← get_world;
  match python_exit_status wd with
  | Some true | None => mret tt
  | Some false =>
      s ← get_self;
      if negb (shutdown s) then
        update (set_shutdown true) ;;
        (* try: *)
        emit DoneEventSet ;;
        (if has_pin_memory_thread s then
           emit ResultCancelJoin ;;
           emit ResultPutNone ;;
           emit RelayJoin ;;
           emit ResultClose
         else mret tt) ;;
        for_each (seq 0 (length (index_queues s)))
          (fun w =>
             update (fun s' =>
               set_index_queues
                 (alter (fun q => q ++ [None]) w (index_queues s')) s') ;;
             emit (IndexPutNone w) ;;
             emit (IndexClose w)) ;;
        for_each (seq 0 (length (workers s)))
          (fun w => emit (WorkerJoin w)) ;;
        (* finally: *)
        (if worker_pids_set s then
           emit RemoveWorkerPids ;;
           update (set_worker_pids_set false)
         else mret tt)
      else mret tt
  end.

(** The [while True] loop of [__next__]; every turn consumes at least
    one entry of the environment script. *)
Fixpoint receive (fuel : nat) : M Batch :=
  match fuel with
  | O => blocked
  | S fuel' =>
      s ← get_self;
      assert (negb (shutdown s) && bool_decide (0 < batches_outstanding s)) ;;
      '(idx, batch) ← _get_batch;
      s ← get_self;
      assign_outstanding (batches_outstanding s - 1) ;;
      if bool_decide (idx ≠ rcvd_idx s) then
        update (set_reorder_dict (<[idx := batch]> (reorder_dict s))) ;;
        receive fuel'
      else _process_next_batch batch
  end.

(** [__next__] *)
Definition __next__ : M Batch :=
  s ← get_self;
  if bool_decide (num_workers ld = 0%nat) then
    match sample_iter s with
    | [] => raise (mkExn StopIteration EmptyString)
    | indices :: rest =>
        update (set_sample_iter rest) ;;
        items ← call (fetch_all (dataset ld) indices);
        batch ← call (collate_fn ld items);
        mret (if self_pin_memory then pin_memory_batch batch else batch)
    end
  else
    match reorder_dict s !! rcvd_idx s with
    | Some batch =>
        update (set_reorder_dict (delete (rcvd_idx s) (reorder_dict s))) ;;
        _process_next_batch batch
    | None =>
        if bool_decide (batches_outstanding s = 0) then
          _shutdown_workers ;;
          raise (mkExn StopIteration EmptyString)
        else
          wd ← get_world; receive (S (length (env wd)))
    end.

(** [__del__] *)
Definition __del__ : M unit :=
  if bool_decide (0 < num_workers ld)%nat then _shutdown_workers else mret tt.

(** [__len__] *)
Definition __len__ : nat := length (batch_sampler ld).

(** The attributes before [__init__] has assigned them. *)
Definition fresh_iter : Iter :=
  mkIter (batch_sampler ld) 0 0 false false 0 0 ∅ [] [] false.

(** A world whose workers and relay are alive, with the environment
    script [script] ahead and an interpreter that is not exiting. *)
Definition fresh_world (script : list Response) : World :=
  mkWorld (fun _ => true) true script (Some false) [].

(** The body of [_MSDataLoaderIter.__init__]: the worker processes get
    their copy of the dataset, the relay thread exists when memory is
    pinned or a timeout is set, the pids are registered, and the
    prefetch loop is primed. *)
Definition construct : M unit :=
  if bool_decide (0 < num_workers ld)%nat then
    update (set_index_queues (replicate (num_workers ld) [])) ;;
    update (set_workers
              ((fun i => mkWorker (pid_of ld i) (dataset ld))
                 <$> seq 0 (num_workers ld))) ;;
    update (fun s =>
              mkIter (sample_iter s) (worker_queue_idx s) (batches_outstanding s)
                (worker_pids_set s) (shutdown s) (send_idx s) (rcvd_idx s)
                (reorder_dict s) (index_queues s) (workers s)
                (self_pin_memory || bool_decide (0 < timeout ld))) ;;
    emit SetWorkerPids ;;
    update (set_worker_pids_set true) ;;
    (* prime the prefetch loop *)
    repeat_n (2 * num_workers ld) _put_indices
  else mret tt.

(** [_MSDataLoaderIter.__init__] *)
Definition __init__ (script : list Response) : Res unit * State :=
  construct (mkState fresh_iter (fresh_world script)).

(** [n] successive calls of [next()], whatever each of them does. *)
Fixpoint calls (n : nat) (st : State) : list (Res Batch) * State :=
  match n with
  | O => ([], st)
  | S n' =>
      let '(r, st1) := __next__ st in
      let '(rs, st2) := calls n' st1 in
      (r :: rs, st2)
  end.

(** A whole pass: construct the iterator, then call [next()] [n] times. *)
Definition run (script : list Response) (n : nat) : list (Res Batch) * State :=
  calls n (__init__ script).2.
End Methods.

Global Arguments _try_get_batch : simpl never.
Global Arguments _get_batch : simpl never.
Global Arguments _put_indices : simpl never.
Global Arguments _process_next_batch : simpl never.
Global Arguments _shutdown_workers : simpl never.
Global Arguments __next__ : simpl never.


(* ================================================================== *)
(** ** Vocabulary of the proofs *)

Section Vocabulary.
Variable ld : Loader.
Abbreviation W := (num_workers ld).
Abbreviation src := (batch_sampler ld).

(** Several events at once. *)
Definition logs (es : list Event) (w : World) : World :=
  mkWorld (alive w) (relay_alive w) (env w) (python_exit_status w)
    (trace w ++ es).

(** [q.put(None)] on the index queue of worker [w]. *)
Definition put_sentinel (w : nat) (s : Iter) : Iter :=
  set_index_queues (alter (fun q => q ++ [None]) w (index_queues s)) s.

(** One turn of the loop over the index queues in the shutdown. *)
Definition close_queue (w : nat) : M unit :=
  update (put_sentinel w) ;; emit (IndexPutNone w) ;; emit (IndexClose w).

(** The state in which the body of [_shutdown_workers] leaves the
    iterator. *)
Definition torn_down (s : Iter) : Iter :=
  mkIter (sample_iter s) (worker_queue_idx s) (batches_outstanding s)
    false true (send_idx s) (rcvd_idx s) (reorder_dict s)
    ((fun q => q ++ [None]) <$> index_queues s) (workers s)
    (has_pin_memory_thread s).

(** The effects of the body of [_shutdown_workers], in order. *)
Definition shutdown_events (s : Iter) : list Event :=
  [DoneEventSet]
  ++ (if has_pin_memory_thread s
      then [ResultCancelJoin; ResultPutNone; RelayJoin; ResultClose]
      else [])
  ++ flat_map (fun w => [IndexPutNone w; IndexClose w])
       (seq 0 (length (index_queues s)))
  ++ (WorkerJoin <$> seq 0 (length (workers s)))
  ++ (if worker_pids_set s then [RemoveWorkerPids] else []).

(** Whether the workers draw a scale at random for every batch. *)
Definition multi_scale : bool :=
  bool_decide (1 < length (scale ld))%nat && train (dataset ld).

(** A worker's dataset is the loader's dataset, up to the scale the
    worker selected last. *)
Definition copy_of (ds : Dataset) : Prop :=
  train ds = train (dataset ld) /\ getitem ds = getitem (dataset ld)
  /\ (multi_scale = false -> idx_scale ds = idx_scale (dataset ld)).

(** [p] is what some worker makes of the index batch [indices]. *)
Definition produced (indices : list nat) (p : Payload) : Prop :=
  exists ds r k, copy_of ds /\ (loop_body ld ds r (k, indices)).1.2 = p.

(** Work items dispatched and not yet received. *)
Definition pend (s : Iter) : list WorkItem :=
  omap id (concat (index_queues s)).

(** The invariant of the pipeline, for a window of [win] work items:
    the sampler has been consumed up to [send_idx], which is [win] ahead
    of [rcvd_idx] unless the sampler is exhausted; every sequence number
    from [rcvd_idx] up to [send_idx] is either pending in exactly one
    index queue, with its own index batch, or held in the reorder
    buffer, with a result produced from its index batch; and
    [batches_outstanding] counts the pending ones. *)
Record InvW (win : nat) (s : Iter) : Prop := {
  iw_workers : (1 <= W)%nat;
  iw_win : (win <= 2 * W)%nat;
  iw_src : sample_iter s = drop (send_idx s) src;
  iw_send : send_idx s = (length src `min` (rcvd_idx s + win))%nat;
  iw_rcvd : (rcvd_idx s <= send_idx s)%nat;
  iw_queues : length (index_queues s) = W;
  iw_procs : length (workers s) = W;
  iw_cursor : (worker_queue_idx s < W)%nat;
  iw_out : batches_outstanding s = Z.of_nat (length (pend s));
  iw_count :
    (length (pend s) + size (reorder_dict s) = send_idx s - rcvd_idx s)%nat;
  iw_pend :
    Forall (fun it : WorkItem =>
              src !! it.1 = Some it.2
              /\ (rcvd_idx s <= it.1 < send_idx s)%nat
              /\ reorder_dict s !! it.1 = None) (pend s);
  iw_nodup : NoDup (pend s).*1;
  iw_reorder :
    forall k p, reorder_dict s !! k = Some p ->
      (rcvd_idx s <= k < send_idx s)%nat
      /\ exists indices, src !! k = Some indices /\ produced indices p;
  iw_copies : Forall (fun w => copy_of (wdataset w)) (workers s);
  iw_live :
    if shutdown s then pend s = [] /\ reorder_dict s = ∅ /\ sample_iter s = []
    else Forall (Forall is_Some) (index_queues s)
}.

(** Events of the window counter stay inside the window. *)
Definition event_ok (e : Event) : Prop :=
  match e with
  | Outstanding v => 0 <= v <= 2 * Z.of_nat W
  | PutIndices v => 0 <= v < 2 * Z.of_nat W
  | _ => True
  end.

(** Every effect so far respects the window. *)
Definition TraceOk (wd : World) : Prop := Forall event_ok (trace wd).

(** The invariant between two calls of [next()]. *)
Record Inv (st : State) : Prop := {
  inv_window : InvW (2 * W) (self st);
  inv_trace : TraceOk (world st);
  inv_refilled :
    sample_iter (self st) <> [] -> 0 < batches_outstanding (self st)
}.

(** The consumer-visible effect of handing a payload over. *)
Definition deliver (p : Payload) : Res Batch :=
  match p with
  | Wrapped w =>
      if bool_decide (exc_type w = KeyError) && contains_newline (exc_msg w)
      then Raise (mkExn Exception ("KeyError:" +:+ exc_msg w))
      else Raise (mkExn (exc_type w) (exc_msg w))
  | Samples b => Ret b
  end.

(** The iterator after [_put_indices] has dispatched [indices]. *)
Definition dispatched (indices : list nat) (rest : list (list nat))
    (q : list (option WorkItem)) (s : Iter) : Iter :=
  mkIter rest ((worker_queue_idx s + 1) `mod` W)%nat
    (batches_outstanding s + 1) (worker_pids_set s) (shutdown s)
    (send_idx s + 1)%nat (rcvd_idx s) (reorder_dict s)
    (<[worker_queue_idx s := q ++ [Some (send_idx s, indices)]]> (index_queues s))
    (workers s) (has_pin_memory_thread s).

(** What [_try_get_batch] answers once the receive has failed. *)
Definition after_failure (e : Exn) (s : Iter) (wd : World)
  : Res (option (nat * Payload)) :=
  if negb (forallb (is_alive wd) (workers s))
  then Raise (mkExn RuntimeError (worker_exit_msg (dead_pids wd (workers s))))
  else if decide (exn_type e = QueueEmpty) then Ret None else Raise e.

(** A receive either hands over the next result of some busy worker,
    using up part of the environment script, or leaves the iterator as
    it was. *)
Definition received (st : State) (res : Res (nat * Payload)) (st' : State)
  : Prop :=
  match res with
  | Ret data =>
      (exists c d, next_result ld c d (self st) = Some (data, self st'))
      /\ (length (env (world st')) < length (env (world st)))%nat
  | _ => self st' = self st
  end.

(** A response that hands over a result while the relay stays alive. *)
Definition healthy (r : Response) : Prop :=
  (exists c d, arrival r = Got c d) /\ relay_after r = true.

(** The relay is alive and the rest of the script is [healthy]. *)
Definition Healthy (wd : World) : Prop :=
  relay_alive wd = true /\ Forall healthy (env wd).

(** The events that put a work item on an index queue. *)
Definition is_dispatch (e : Event) : bool :=
  match e with
  | Dispatch _ _ => true
  | _ => false
  end.

(** How many work items a stretch of the trace dispatches. *)
Fixpoint dispatch_count (es : list Event) : nat :=
  match es with
  | [] => 0
  | e :: rest => ((if is_dispatch e then 1 else 0) + dispatch_count rest)%nat
  end.

(** Results the consumer has not received yet. *)
Definition need (s : Iter) : nat :=
  (length src - rcvd_idx s - size (reorder_dict s))%nat.

(** The call handed over the result of the next index batch, or
    signalled the end once every batch has been handed over. *)
Definition progress (st : State) (res : Res Batch) (st' : State) : Prop :=
  ((rcvd_idx (self st') = rcvd_idx (self st) + 1)%nat
   /\ exists indices p,
       src !! rcvd_idx (self st) = Some indices
       /\ produced indices p /\ res = deliver p)
  \/ (rcvd_idx (self st) = length src
      /\ rcvd_idx (self st') = rcvd_idx (self st)
      /\ res = Raise (mkExn StopIteration EmptyString)).

(** What one call of [next()] guarantees: the invariant again, and, in
    a cooperative environment with enough arrivals ahead, progress. *)
Definition Post (st : State) (res : Res Batch) (st' : State) : Prop :=
  Inv st'
  /\ (Healthy (world st) ->
      (need (self st) <= length (env (world st)))%nat ->
      Healthy (world st')
      /\ (need (self st') <= length (env (world st')))%nat
      /\ progress st res st').

(** [raise StopIteration] *)
Definition stop : Res Batch := Raise (mkExn StopIteration EmptyString).

(** [out] is what the consumer gets for the index batch [indices]. *)
Definition handed_over (indices : list nat) (out : Res Batch) : Prop :=
  exists p, produced indices p /\ out = deliver p.

(** The scale selection at the head of the worker's [try] block: the
    scale index and the worker's dataset afterwards. *)
Definition select_scale (ds : Dataset) (r : nat) : nat * Dataset :=
  if bool_decide (1 < length (scale ld))%nat && train ds
  then (randrange (length (scale ld)) r,
        set_scale ds (randrange (length (scale ld)) r))
  else (0%nat, ds).

(** [collate_fn([dataset[i] for i in batch_indices])] *)
Definition fetch_collate (ds : Dataset) (indices : list nat) : Try Batch :=
  match fetch_all ds indices with
  | Err e => Err e
  | Ok items => collate_fn ld items
  end.

(** What a worker makes of an index batch when it draws no scale. *)
Definition worker_payload (indices : list nat) : Payload :=
  (loop_body ld (dataset ld) 0 (0%nat, indices)).1.2.

(** The exception the consumer sees for an error [e] caught in a
    worker: its message is the traceback of [e], and a [KeyError] comes
    as a plain [Exception]. *)
Definition reraised (e : Exn) : Exn :=
  if bool_decide (exn_type e = KeyError)
  then mkExn Exception ("KeyError:" +:+ format_exception (format_tb ld e) e)
  else mkExn (exn_type e) (format_exception (format_tb ld e) e).

(** The decidable form of [healthy]. *)
Definition cooperative (r : Response) : bool :=
  match arrival r with
  | Got _ _ => relay_after r
  | _ => false
  end.

(** The iterator before the refill of [_process_next_batch]. *)
Definition bump (st : State) : State :=
  mkState (set_rcvd_idx (rcvd_idx (self st) + 1) (self st)) (world st).

(** What the synchronous branch of [__next__] makes of an index batch. *)
Definition sync_outcome (indices : list nat) : Res Batch :=
  match fetch_collate (dataset ld) indices with
  | Ok b => Ret b
  | Err e => Raise e
  end.


End Vocabulary.

(* ================================================================== *)
(** ** Example pipelines *)

(** Item [i] is the number [10 * i]. *)
Definition tenfold : Dataset :=
  mkDataset false 0 (fun _ i => Ok (Z.of_nat i * 10)).

(** As [tenfold], but fetching item [1] raises [e]. *)
Definition faulty (e : Exn) : Dataset :=
  mkDataset false 0
    (fun _ i => if (i =? 1)%nat then Err e else Ok (Z.of_nat i * 10)).

(** Stack entries as Python prints them, here the frame of the worker
    loop alone; the file name stands between double quotes. *)
Definition example_tb : string :=
  "  File " +:+ String (Ascii.ascii_of_nat 34) "dataloader.py"
    +:+ String (Ascii.ascii_of_nat 34) ", line 267, in _ms_loop"
    +:+ String newline EmptyString
    +:+ "    samples = collate_fn([dataset[i] for i in batch_indices])"
    +:+ String newline EmptyString.

(** [n] index batches [[0]], [[1]], ... over the dataset [ds], one scale,
    the identity as collate function, worker [i] with pid [100 + i]. *)
Definition example_loader (ds : Dataset) (workers n : nat) (t : Z) : Loader :=
  mkLoader ds [2%nat] (fun l => Ok l) ((fun i => [i]) <$> seq 0 n)
    workers false t true (fun i => (100 + i)%nat) (fun _ => example_tb).

(** A result arrives; the choice [c] says from which busy worker. *)
Definition arrives (c : nat) : Response :=
  mkResponse (Got c 0) (fun _ => true) true.

(** Nothing arrives, and the process with pid [dead] is gone. *)
Definition silence_with_dead (dead : nat) : Response :=
  mkResponse Silent (fun p => negb (p =? dead)%nat) true.

(** A [KeyError] whose message has two lines. *)
Definition two_line_key_error : Exn :=
  mkExn KeyError ("a" +:+ String newline "b").

(* ================================================================== *)
(** ** Vocabulary of the further properties *)

Section Transitions.
Variable ld : Loader.
Abbreviation W := (num_workers ld).
Abbreviation src := (batch_sampler ld).

(** The iterator once [__init__] has created the queues, the workers and
    the relay and has registered the pids, before it primes the prefetch
    loop. *)
Definition booted (script : list Response) : State :=
  mkState
    (mkIter src 0 0 true false 0 0 ∅ (replicate W [])
       ((fun i => mkWorker (pid_of ld i) (dataset ld)) <$> seq 0 W)
       (self_pin_memory ld || bool_decide (0 < timeout ld)))
    (log SetWorkerPids (fresh_world script)).

(** The moves of the consumer.  Every method of the iterator is a
    sequence of these. *)
Inductive step : State -> State -> Prop :=
| step_wait st r rest t :
    env (world st) = r :: rest ->
    step st (mkState (self st) (log (Waited t) (answer r rest (world st))))
| step_break st r rest :
    env (world st) = r :: rest ->
    step st (mkState (self st) (answer r rest (world st)))
| step_early st r rest c d idx p s1 :
    env (world st) = r :: rest ->
    next_result ld c d (self st) = Some ((idx, p), s1) ->
    idx <> rcvd_idx s1 ->
    step st
      (mkState
         (set_reorder_dict (<[idx:=p]> (reorder_dict s1))
            (set_batches_outstanding (batches_outstanding s1 - 1) s1))
         (log (Outstanding (batches_outstanding s1 - 1))
            (answer r rest (world st))))
| step_expected st r rest c d p s1 :
    env (world st) = r :: rest ->
    next_result ld c d (self st) = Some ((rcvd_idx s1, p), s1) ->
    step st
      (mkState
         (set_rcvd_idx (rcvd_idx s1 + 1)
            (set_batches_outstanding (batches_outstanding s1 - 1) s1))
         (log (Outstanding (batches_outstanding s1 - 1))
            (answer r rest (world st))))
| step_pop st p :
    reorder_dict (self st) !! rcvd_idx (self st) = Some p ->
    step st
      (mkState
         (set_rcvd_idx (rcvd_idx (self st) + 1)
            (set_reorder_dict
               (delete (rcvd_idx (self st)) (reorder_dict (self st))) (self st)))
         (world st))
| step_idle st :
    step st
      (mkState (self st)
         (log (PutIndices (batches_outstanding (self st))) (world st)))
| step_lost st indices rest :
    sample_iter (self st) = indices :: rest ->
    index_queues (self st) !! worker_queue_idx (self st) = None ->
    step st
      (mkState (set_sample_iter rest (self st))
         (log (PutIndices (batches_outstanding (self st))) (world st)))
| step_dispatch st indices rest q :
    sample_iter (self st) = indices :: rest ->
    index_queues (self st) !! worker_queue_idx (self st) = Some q ->
    batches_outstanding (self st) < 2 * Z.of_nat W ->
    step st
      (mkState (dispatched ld indices rest q (self st))
         (logs [PutIndices (batches_outstanding (self st));
                Dispatch (worker_queue_idx (self st)) (send_idx (self st));
                Outstanding (batches_outstanding (self st) + 1)] (world st)))
| step_teardown st :
    python_exit_status (world st) = Some false ->
    shutdown (self st) = false ->
    sample_iter (self st) = [] ->
    step st
      (mkState (torn_down (self st))
         (logs (shutdown_events (self st)) (world st))).

(** How a blocking receive ends: with a result, just taken from a busy
    worker, or without one, where it stands. *)
Definition landing (res : Res (nat * Payload)) (stm st' : State) : Prop :=
  match res with
  | Ret data =>
      exists r rest c d,
        env (world stm) = r :: rest
        /\ next_result ld c d (self stm) = Some (data, self st')
        /\ world st' = answer r rest (world stm)
  | _ => st' = stm
  end.

(** How often the event [e] occurs in [es]. *)
Definition occurrences (e : Event) (es : list Event) : nat :=
  length (filter (fun e' => e' = e) es).

(** The work items put on the index queues, as pairs of worker and
    sequence number, in the order of the puts. *)
Definition dispatches (es : list Event) : list (nat * nat) :=
  omap (fun e => match e with Dispatch w idx => Some (w, idx) | _ => None end)
       es.

(** The sequence numbers below [n] that go to worker [w] when the work
    items are dealt out in turn. *)
Definition share (w n : nat) : list nat :=
  filter (fun i => (i `mod` W)%nat = w) (seq 0 n).

(** The sequence numbers of the work items waiting in an index queue. *)
Definition waiting (q : list (option WorkItem)) : list nat := (omap id q).*1.

(** Every put of a work item comes before every close of an index
    queue. *)
Definition orderly (es : list Event) : Prop :=
  forall i j w k v,
    es !! i = Some (Dispatch w k) -> es !! j = Some (IndexClose v) ->
    (i < j)%nat.

(** The work items are dealt out in turn: the cursor follows the
    sequence number, the puts so far are those of the sequence numbers
    [0], [1], ... in this order, each on the queue of the worker whose
    turn it is, and every queue holds a tail of its worker's share. *)
Record Rota (st : State) : Prop := {
  rota_cursor : worker_queue_idx (self st) = (send_idx (self st) `mod` W)%nat;
  rota_trace :
    dispatches (trace (world st)) =
      (fun i => ((i `mod` W)%nat, i)) <$> seq 0 (send_idx (self st));
  rota_queues :
    forall w q, index_queues (self st) !! w = Some q ->
      exists k, waiting q = drop k (share w (send_idx (self st)))
}.

(** The life cycle of the workers: they are registered once, and
    released exactly when the iterator is shut down, which happens only
    once the sampler is exhausted; every index queue holds work items,
    followed by the sentinel once the iterator is shut down. *)
Record Life (st : State) : Prop := {
  life_python : python_exit_status (world st) = Some false;
  life_pids : worker_pids_set (self st) = negb (shutdown (self st));
  life_registered : occurrences SetWorkerPids (trace (world st)) = 1%nat;
  life_released :
    occurrences RemoveWorkerPids (trace (world st)) =
      if shutdown (self st) then 1%nat else 0%nat;
  life_stopped :
    occurrences DoneEventSet (trace (world st)) =
      if shutdown (self st) then 1%nat else 0%nat;
  life_relay :
    has_pin_memory_thread (self st) =
      self_pin_memory ld || bool_decide (0 < timeout ld);
  life_queues : length (index_queues (self st)) = W;
  life_workers : pid <$> workers (self st) = pid_of ld <$> seq 0 W;
  life_shape :
    Forall (fun q => exists items : list WorkItem,
              q = (Some <$> items) ++ if shutdown (self st) then [None] else [])
           (index_queues (self st));
  life_src : shutdown (self st) = true -> sample_iter (self st) = [];
  life_open :
    shutdown (self st) = false ->
    forall v, IndexClose v ∉ trace (world st);
  life_orderly : orderly (trace (world st))
}.

(** With a single worker the results arrive in the order of the work
    items: the queue holds the sequence numbers from [rcvd_idx] up to
    [send_idx], and nothing is ever buffered. *)
Record Single (st : State) : Prop := {
  single_reorder : reorder_dict (self st) = ∅;
  single_order : (rcvd_idx (self st) <= send_idx (self st))%nat;
  single_queue :
    exists q, index_queues (self st) = [q]
      /\ waiting q =
           seq (rcvd_idx (self st)) (send_idx (self st) - rcvd_idx (self st))
}.

(** What a call of [next()] does in any environment: it hands over the
    result of the index batch whose turn it is, and moves on by one, or
    it hands over nothing and stays where it is. *)
Definition safe (st : State) (res : Res Batch) (st' : State) : Prop :=
  ((rcvd_idx (self st') = rcvd_idx (self st) + 1)%nat
   /\ exists indices,
       src !! rcvd_idx (self st) = Some indices /\ handed_over ld indices res)
  \/ (rcvd_idx (self st') = rcvd_idx (self st) /\ forall b, res <> Ret b).

(** The batches among the outcomes of successive calls. *)
Definition returned (outs : list (Res Batch)) : list Batch :=
  omap (fun r => match r with Ret b => Some b | _ => None end) outs.

(** The index queue of worker [w] once the sequence numbers below [m]
    have been dispatched and none of them has been answered. *)
Definition dealt (w m : nat) : list (option WorkItem) :=
  (fun i => Some (i, default [] (src !! i))) <$> share w m.

(** The iterator once the prefetch loop has dispatched the sequence
    numbers below [m]. *)
Definition primed (m : nat) : Iter :=
  mkIter (drop m src) (m `mod` W)%nat (Z.of_nat m) true false m 0 ∅
    ((fun w => dealt w m) <$> seq 0 W)
    ((fun i => mkWorker (pid_of ld i) (dataset ld)) <$> seq 0 W)
    (self_pin_memory ld || bool_decide (0 < timeout ld)).

(** A response under which a patient consumer gets on: a result arrives,
    or the poll comes back empty while every worker stays alive; the
    relay stays alive in either case. *)
Definition patient (r : Response) : bool :=
  match arrival r with
  | Got _ _ => relay_after r
  | Silent =>
      relay_after r && forallb (fun i => alive_after r (pid_of ld i)) (seq 0 W)
  | Broken _ => false
  end.

(** The number of results that a script lets arrive. *)
Fixpoint arrivals (script : list Response) : nat :=
  match script with
  | [] => 0
  | r :: rest =>
      ((match arrival r with Got _ _ => 1 | _ => 0 end) + arrivals rest)%nat
  end.

(** The relay is alive, the rest of the script is [patient], and the
    workers are the ones that were started. *)
Definition Patient (st : State) : Prop :=
  relay_alive (world st) = true
  /\ forallb patient (env (world st)) = true
  /\ pid <$> workers (self st) = pid_of ld <$> seq 0 W.

(** Every index queue holds a tail of what was dealt to its worker. *)
Definition Dealt (s : Iter) : Prop :=
  forall w q, index_queues s !! w = Some q ->
    exists k, waiting q = drop k (share w (send_idx s)).

(** Some worker has no result in the reorder buffer. *)
Definition Slack (s : Iter) : Prop :=
  exists a, (a < W)%nat
    /\ forall k, is_Some (reorder_dict s !! k) -> (k `mod` W)%nat <> a.
End Transitions.

(* ================================================================== *)
(** ** Further example pipelines *)

(** With a training flag, three scales, and items that show the scale
    they were fetched at: item [i] at scale index [k] is [10 * i + k]. *)
Definition scaled : Dataset :=
  mkDataset true 0 (fun k i => Ok (Z.of_nat i * 10 + Z.of_nat k)).

(** [n] index batches [[0]], [[1]], ... over [scaled], three scales. *)
Definition scaled_loader (workers n : nat) : Loader :=
  mkLoader scaled [2%nat; 3%nat; 4%nat] (fun l => Ok l)
    ((fun i => [i]) <$> seq 0 n) workers false 0 true (fun i => (100 + i)%nat)
    (fun _ => example_tb).

(** With pinned memory: the relay thread is there, and no timeout. *)
Definition pinned_loader (workers n : nat) : Loader :=
  mkLoader tenfold [2%nat] (fun l => Ok l) ((fun i => [i]) <$> seq 0 n)
    workers true 0 true (fun i => (100 + i)%nat) (fun _ => example_tb).

(** Nothing arrives, every worker is alive, and the relay is gone. *)
Definition silence_with_dead_relay : Response :=
  mkResponse Silent (fun _ => true) false.

(** The receive breaks with the error [e]; every worker is alive. *)
Definition broken_receive (e : Exn) : Response :=
  mkResponse (Broken e) (fun _ => true) true.

(** The error raised when the relay thread is found dead. *)
Definition relay_gone : Exn :=
  mkExn RuntimeError "Pin memory thread exited unexpectedly".

(** A result arrives after a poll that came back empty. *)
Definition late (c : nat) : list Response :=
  [mkResponse Silent (fun _ => true) true; arrives c].

(** The same state when the interpreter is exiting. *)
Definition at_exit (st : State) : State :=
  mkState (self st)
    (mkWorld (alive (world st)) (relay_alive (world st)) (env (world st))
       None (trace (world st))).

(* ================================================================== *)
(** ** Stepping through monadic code *)

Ltac mstep :=
  unfold mbind, M_bind, bind, mret, M_ret, ret, get_self, get_world, update,
    emit, raise, blocked, assert, assign_outstanding, call; simpl.

(* ================================================================== *)
(** ** Facts about the model *)

Section Facts.
Variable ld : Loader.
Abbreviation W := (num_workers ld).
Abbreviation src := (batch_sampler ld).

Lemma log_logs e w : log e w = logs [e] w.
Proof. done. Qed.

Lemma logs_logs es1 es2 w : logs es2 (logs es1 w) = logs (es1 ++ es2) w.
Proof. unfold logs; simpl. by rewrite app_assoc. Qed.

Lemma logs_nil w : logs [] w = w.
Proof. destruct w; unfold logs; simpl. by rewrite app_nil_r. Qed.

Lemma for_each_close (l : list nat) (st : State) :
  for_each l close_queue st =
    (Ret tt,
     mkState (foldl (fun s w => put_sentinel w s) (self st) l)
             (logs (flat_map (fun w => [IndexPutNone w; IndexClose w]) l)
                   (world st))).
Proof.
  revert st. induction l as [|w l IH]; intros st; simpl.
  - rewrite logs_nil. by destruct st.
  - unfold close_queue at 1. mstep. rewrite IH. simpl.
    rewrite !log_logs, !logs_logs. done.
Qed.

Lemma for_each_join (l : list nat) (st : State) :
  for_each l (fun w => emit (WorkerJoin w)) st =
    (Ret tt, mkState (self st) (logs (WorkerJoin <$> l) (world st))).
Proof.
  revert st. induction l as [|w l IH]; intros st; simpl.
  - rewrite logs_nil. by destruct st.
  - mstep. rewrite IH. simpl. by rewrite log_logs, logs_logs.
Qed.

Lemma put_sentinel_fields (l : list nat) (s : Iter) :
  let s' := foldl (fun s w => put_sentinel w s) s l in
  sample_iter s' = sample_iter s /\ worker_queue_idx s' = worker_queue_idx s /\
  batches_outstanding s' = batches_outstanding s /\
  worker_pids_set s' = worker_pids_set s /\ shutdown s' = shutdown s /\
  send_idx s' = send_idx s /\ rcvd_idx s' = rcvd_idx s /\
  reorder_dict s' = reorder_dict s /\ workers s' = workers s /\
  has_pin_memory_thread s' = has_pin_memory_thread s /\
  index_queues s' =
    foldl (fun qs w => alter (fun q => q ++ [None]) w qs) (index_queues s) l.
Proof.
  revert s. induction l as [|w l IH]; intros s; simpl; [done|].
  specialize (IH (put_sentinel w s)). simpl in IH. done.
Qed.

Lemma alter_range {A} (f : A -> A) (n a : nat) (qs : list A) (i : nat) :
  foldl (fun qs w => alter f w qs) qs (seq a n) !! i =
    if bool_decide (a <= i < a + n)%nat then f <$> qs !! i else qs !! i.
Proof.
  revert a qs. induction n as [|n IH]; intros a qs; simpl.
  - rewrite bool_decide_false by lia. done.
  - rewrite IH. destruct (decide (i = a)) as [->|Hne].
    + rewrite bool_decide_false by lia. rewrite bool_decide_true by lia.
      by rewrite list_lookup_alter_eq.
    + rewrite list_lookup_alter_ne by done.
      destruct (decide (S a <= i < S a + n)%nat).
      * by rewrite !bool_decide_true by lia.
      * by rewrite !bool_decide_false by lia.
Qed.

Lemma alter_all {A} (f : A -> A) (qs : list A) :
  foldl (fun qs w => alter f w qs) qs (seq 0 (length qs)) = f <$> qs.
Proof.
  apply list_eq. intros i. rewrite alter_range, list_lookup_fmap.
  destruct (decide (i < length qs)%nat).
  - by rewrite bool_decide_true by lia.
  - rewrite bool_decide_false by lia.
    rewrite (lookup_ge_None_2 qs i) by lia. done.
Qed.

Lemma shutdown_body (st : State) :
  python_exit_status (world st) = Some false ->
  shutdown (self st) = false ->
  _shutdown_workers st =
    (Ret tt, mkState (torn_down (self st))
               (logs (shutdown_events (self st)) (world st))).
Proof.
  intros Hpy Hsh. unfold _shutdown_workers. mstep. rewrite Hpy, Hsh. simpl.
  fold close_queue. unfold shutdown_events.
  destruct (put_sentinel_fields (seq 0 (length (index_queues (self st))))
              (set_shutdown true (self st)))
    as (F1 & F2 & F3 & F4 & F5 & F6 & F7 & F8 & F9 & F10 & F11).
  simpl in *. rewrite alter_all in F11.
  assert (Hs2 : forall s2 b,
    sample_iter s2 = sample_iter (self st) ->
    worker_queue_idx s2 = worker_queue_idx (self st) ->
    batches_outstanding s2 = batches_outstanding (self st) ->
    worker_pids_set s2 = b -> shutdown s2 = true ->
    send_idx s2 = send_idx (self st) -> rcvd_idx s2 = rcvd_idx (self st) ->
    reorder_dict s2 = reorder_dict (self st) -> workers s2 = workers (self st) ->
    has_pin_memory_thread s2 = has_pin_memory_thread (self st) ->
    index_queues s2 = (fun q => q ++ [None]) <$> index_queues (self st) ->
    set_worker_pids_set false s2 = torn_down (self st)
    /\ (b = false -> s2 = torn_down (self st))).
  { intros [] b; simpl; intros; subst; unfold torn_down, set_worker_pids_set;
      simpl; split; [|intros ->]; f_equal; done. }
  destruct (Hs2 _ _ F1 F2 F3 F4 F5 F6 F7 F8 F9 F10 F11) as [E1 E2].
  destruct (has_pin_memory_thread (self st)) eqn:Hr;
    destruct (worker_pids_set (self st)) eqn:Hp; simpl;
    rewrite for_each_close; simpl; rewrite for_each_join; simpl;
    rewrite ?log_logs, ?logs_logs; simpl;
    rewrite ?E1, ?E2, ?app_nil_r by done; done.
Qed.

Lemma shutdown_guarded (st : State) :
  python_exit_status (world st) <> Some false \/ shutdown (self st) = true ->
  _shutdown_workers st = (Ret tt, st).
Proof.
  intros H. unfold _shutdown_workers. mstep.
  destruct (python_exit_status (world st)) as [[]|] eqn:Hpy; try done.
  destruct H as [H|H]; [done|]. by rewrite H.
Qed.

Lemma pend_pop (qs : list (list (option WorkItem))) w item q :
  qs !! w = Some (Some item :: q) ->
  omap id (concat qs) ≡ₚ item :: omap id (concat (<[w:=q]> qs)).
Proof.
  intros H. pose proof (lookup_lt_Some _ _ _ H) as Hlt.
  rewrite insert_take_drop by done.
  rewrite <- (take_drop_middle qs w _ H) at 1.
  rewrite !concat_app, !omap_app. simpl. rewrite ?omap_app. simpl.
  symmetry. apply Permutation_middle.
Qed.

Lemma pend_push (qs : list (list (option WorkItem))) w item q :
  qs !! w = Some q ->
  omap id (concat (<[w:=q ++ [Some item]]> qs)) ≡ₚ item :: omap id (concat qs).
Proof.
  intros H. pose proof (lookup_lt_Some _ _ _ H) as Hlt.
  rewrite insert_take_drop by done.
  rewrite <- (take_drop_middle qs w _ H) at 3.
  rewrite !concat_app, !omap_app. simpl. rewrite ?omap_app. simpl.
  rewrite ?omap_app. simpl.
  rewrite (Permutation_app_comm (omap id q) [item]). simpl.
  symmetry. apply Permutation_middle.
Qed.

(** *** Arrivals *)

Lemma next_result_inv c d s data s' :
  next_result ld c d s = Some (data, s') ->
  exists w item q wk,
    index_queues s !! w = Some (Some item :: q)
    /\ workers s !! w = Some wk
    /\ data = (loop_body ld (wdataset wk) d item).1
    /\ s' = set_workers
              (<[w := mkWorker (pid wk) (loop_body ld (wdataset wk) d item).2]>
                 (workers s))
              (set_index_queues (<[w:=q]> (index_queues s)) s).
Proof.
  unfold next_result, worker_finish. intros H.
  destruct (busy (index_queues s) !! _) as [w|]; [|done].
  destruct (index_queues s !! w) as [[|[item|] q]|] eqn:Hq; try done.
  destruct (workers s !! w) as [wk|] eqn:Hw; try done.
  destruct (loop_body ld (wdataset wk) d item) as [out ds'] eqn:Hb.
  simplify_eq. exists w, item, q, wk. by rewrite Hb.
Qed.

Lemma busy_elem qs w :
  w ∈ busy qs <-> exists item q, qs !! w = Some (Some item :: q).
Proof.
  unfold busy. rewrite list_elem_of_filter, elem_of_seq. split.
  - intros [H _]. destruct (qs !! w) as [[|[item|] q]|]; simpl in H; try done.
    eauto.
  - intros (item & q & H). rewrite H. simpl. split; [done|].
    apply lookup_lt_Some in H. lia.
Qed.

Lemma next_result_some c d s :
  pend s <> [] ->
  Forall (Forall is_Some) (index_queues s) ->
  length (workers s) = length (index_queues s) ->
  is_Some (next_result ld c d s).
Proof.
  intros Hne Hsome Hlen.
  assert (Hb : busy (index_queues s) <> []).
  { intros Hb. apply Hne. unfold pend.
    assert (Hall : Forall (fun q => q = []) (index_queues s)).
    { apply Forall_lookup. intros w q Hq.
      destruct q as [|[item|] q]; [done| |].
      - assert (w ∈ busy (index_queues s)) as Hin by (apply busy_elem; eauto).
        rewrite Hb in Hin. by apply elem_of_nil in Hin.
      - rewrite Forall_lookup in Hsome. specialize (Hsome _ _ Hq).
        apply Forall_cons in Hsome as [[? ?] _]. done. }
    clear -Hall. induction Hall as [|q qs -> _ IH]; simpl; done. }
  unfold next_result.
  destruct (busy (index_queues s) !! _) as [w|] eqn:Hw.
  - apply list_elem_of_lookup_2 in Hw. apply busy_elem in Hw as (item & q & Hq).
    unfold worker_finish. rewrite Hq.
    destruct (workers s !! w) as [wk|] eqn:Hwk.
    + destruct (loop_body ld (wdataset wk) d item). eauto.
    + apply lookup_ge_None in Hwk. apply lookup_lt_Some in Hq. lia.
  - apply lookup_ge_None in Hw.
    assert (0 < length (busy (index_queues s)))%nat
      by (destruct (busy (index_queues s)); simpl; [done|lia]).
    pose proof (Nat.mod_upper_bound c (length (busy (index_queues s)))). lia.
Qed.

Lemma loop_body_tag ds r item : (loop_body ld ds r item).1.1 = item.1.
Proof.
  unfold loop_body. destruct item as [idx indices].
  destruct (bool_decide _ && train ds); simpl;
    destruct (fetch_all _ _); simpl; try done;
    destruct (collate_fn ld _); done.
Qed.

Lemma loop_body_copy ds r item :
  copy_of ld ds -> copy_of ld (loop_body ld ds r item).2.
Proof.
  intros (Ht & Hg & Hs). unfold loop_body. destruct item as [idx indices].
  destruct (bool_decide (1 < length (scale ld))%nat && train ds) eqn:Hguard;
    simpl.
  - assert (copy_of ld (set_scale ds (randrange (length (scale ld)) r))).
    { split; [done|]. split; [done|]. unfold multi_scale.
      rewrite <- Ht, Hguard. done. }
    destruct (fetch_all _ _); simpl; try done.
    destruct (collate_fn ld _); done.
  - assert (copy_of ld ds) by done.
    destruct (fetch_all _ _); simpl; try done.
    destruct (collate_fn ld _); done.
Qed.

(** What the arrival of a result changes, under the invariant. *)
Lemma arrival_facts win c d s idx p s1 :
  InvW ld win s ->
  next_result ld c d s = Some ((idx, p), s1) ->
  exists indices,
    src !! idx = Some indices /\ produced ld indices p
    /\ (rcvd_idx s <= idx < send_idx s)%nat
    /\ reorder_dict s !! idx = None
    /\ pend s ≡ₚ (idx, indices) :: pend s1
    /\ sample_iter s1 = sample_iter s
    /\ worker_queue_idx s1 = worker_queue_idx s
    /\ batches_outstanding s1 = batches_outstanding s
    /\ worker_pids_set s1 = worker_pids_set s
    /\ shutdown s1 = shutdown s
    /\ send_idx s1 = send_idx s /\ rcvd_idx s1 = rcvd_idx s
    /\ reorder_dict s1 = reorder_dict s
    /\ has_pin_memory_thread s1 = has_pin_memory_thread s
    /\ length (index_queues s1) = length (index_queues s)
    /\ length (workers s1) = length (workers s)
    /\ Forall (fun w => copy_of ld (wdataset w)) (workers s1)
    /\ (Forall (Forall is_Some) (index_queues s) ->
        Forall (Forall is_Some) (index_queues s1)).
Proof.
  intros HI Hn.
  apply next_result_inv in Hn as (w & item & q & wk & Hq & Hwk & Hdata & ->).
  pose proof (pend_pop _ _ _ _ Hq) as Hperm.
  pose proof (iw_pend _ _ _ HI) as Hpend. unfold pend in Hpend.
  rewrite Hperm in Hpend. apply Forall_cons in Hpend as [(Hsrc & Hrange & Hre) _].
  pose proof (iw_copies _ _ _ HI) as Hcopies.
  assert (Hcopy : copy_of ld (wdataset wk)).
  { rewrite Forall_lookup in Hcopies. by apply (Hcopies _ _ Hwk). }
  destruct item as [k ind].
  assert (Hidx : idx = (loop_body ld (wdataset wk) d (k, ind)).1.1)
    by (by rewrite <- Hdata).
  assert (Hp : (loop_body ld (wdataset wk) d (k, ind)).1.2 = p)
    by (by rewrite <- Hdata).
  rewrite loop_body_tag in Hidx. simpl in Hidx, Hsrc, Hrange, Hre. subst idx.
  exists ind.
  split; [done|]. split.
  { by exists (wdataset wk), d, k. }
  split; [done|]. split; [done|]. split.
  { unfold pend at 1. by rewrite Hperm. }
  simpl. rewrite !length_insert. repeat (split; [done|]). split.
  - apply Forall_insert; [done|]. simpl. by apply loop_body_copy.
  - intros Hall. apply Forall_insert; [done|].
    rewrite Forall_lookup in Hall. specialize (Hall _ _ Hq).
    by apply Forall_cons in Hall as [_ ?].
Qed.

(** *** Counting *)

Lemma reorder_bound win s :
  InvW ld win s -> reorder_dict s !! rcvd_idx s = None ->
  (rcvd_idx s < send_idx s)%nat ->
  (size (reorder_dict s) <= send_idx s - rcvd_idx s - 1)%nat.
Proof.
  intros HI Hnone Hlt.
  rewrite <- size_dom.
  rewrite <- (size_set_seq (C := gset nat) (S (rcvd_idx s))
               (send_idx s - rcvd_idx s - 1)).
  apply subseteq_size. intros k Hk. apply elem_of_dom in Hk as [p Hp].
  apply elem_of_set_seq.
  destruct (iw_reorder _ _ _ HI _ _ Hp) as [Hr _].
  assert (k <> rcvd_idx s) by congruence. lia.
Qed.

Lemma pending_expected win s :
  InvW ld win s -> reorder_dict s !! rcvd_idx s = None ->
  (rcvd_idx s < send_idx s)%nat -> pend s <> [].
Proof.
  intros HI Hnone Hlt Hnil.
  pose proof (reorder_bound _ _ HI Hnone Hlt).
  pose proof (iw_count _ _ _ HI) as Hc. rewrite Hnil in Hc. simpl in Hc. lia.
Qed.

Lemma all_delivered s :
  InvW ld (2 * W) s -> reorder_dict s !! rcvd_idx s = None -> pend s = [] ->
  rcvd_idx s = length src /\ send_idx s = length src.
Proof.
  intros HI Hnone Hnil.
  destruct (decide (rcvd_idx s < send_idx s)%nat) as [Hlt|Hge].
  - by destruct (pending_expected _ _ HI Hnone Hlt).
  - pose proof (iw_rcvd _ _ _ HI). pose proof (iw_send _ _ _ HI).
    pose proof (iw_workers _ _ _ HI). lia.
Qed.

Lemma drop_cons_inv {A} (l : list A) n x r :
  drop n l = x :: r -> l !! n = Some x /\ drop (S n) l = r.
Proof.
  intros H. split.
  - rewrite <- (Nat.add_0_r n), <- lookup_drop, H. done.
  - replace (S n) with (n + 1)%nat by lia. rewrite <- drop_drop, H. done.
Qed.

(** *** The steps of the consumer, as changes of the iterator *)

Lemma recv_store c d s idx p s1 :
  InvW ld (2 * W) s ->
  next_result ld c d s = Some ((idx, p), s1) ->
  idx <> rcvd_idx s ->
  InvW ld (2 * W)
    (set_reorder_dict (<[idx:=p]> (reorder_dict s1))
       (set_batches_outstanding (batches_outstanding s1 - 1) s1)).
Proof.
  intros HI Hn Hne.
  destruct (arrival_facts _ _ _ _ _ _ _ HI Hn)
    as (ind & Hsrc & Hprod & Hrange & Hfresh & Hperm & E1 & E2 & E3 & E4 & E5
        & E6 & E7 & E8 & E9 & E10 & E11 & Hcopies & Hsome).
  pose proof (Permutation_length Hperm) as Hlen. simpl in Hlen.
  pose proof (iw_pend _ _ _ HI) as Hpend. rewrite Hperm in Hpend.
  apply Forall_cons in Hpend as [_ Hpend].
  pose proof (iw_nodup _ _ _ HI) as Hnd. rewrite Hperm in Hnd.
  simpl in Hnd. apply NoDup_cons in Hnd as [Hnotin Hnd].
  destruct HI. unfold pend in *.
  constructor; unfold pend; simpl; rewrite ?E1, ?E2, ?E3, ?E5, ?E6, ?E7, ?E8;
    try done; try lia.
  - rewrite map_size_insert_None by done. lia.
  - apply Forall_forall. intros it Hit.
    rewrite Forall_forall in Hpend. destruct (Hpend _ Hit) as (? & ? & ?).
    split; [done|]. split; [done|].
    rewrite lookup_insert_ne; [done|]. intros ->.
    apply Hnotin. apply list_elem_of_fmap. by exists it.
  - intros k q. rewrite lookup_insert. case_decide as Hk.
    + intros [= <-]. subst k. split; [done|]. eauto.
    + apply iw_reorder0.
  - destruct (shutdown s).
    + destruct iw_live0 as (Hnil & _). rewrite Hnil in Hperm.
      by apply Permutation_nil_cons in Hperm.
    + by apply Hsome.
Qed.

Lemma recv_deliver c d s p s1 :
  InvW ld (2 * W) s ->
  next_result ld c d s = Some ((rcvd_idx s, p), s1) ->
  InvW ld (2 * W - 1)
    (set_rcvd_idx (rcvd_idx s1 + 1)
       (set_batches_outstanding (batches_outstanding s1 - 1) s1))
  /\ shutdown s1 = false
  /\ exists indices, src !! rcvd_idx s = Some indices /\ produced ld indices p.
Proof.
  intros HI Hn.
  destruct (arrival_facts _ _ _ _ _ _ _ HI Hn)
    as (ind & Hsrc & Hprod & Hrange & Hfresh & Hperm & E1 & E2 & E3 & E4 & E5
        & E6 & E7 & E8 & E9 & E10 & E11 & Hcopies & Hsome).
  pose proof (Permutation_length Hperm) as Hlen. simpl in Hlen.
  pose proof (iw_pend _ _ _ HI) as Hpend. rewrite Hperm in Hpend.
  apply Forall_cons in Hpend as [_ Hpend].
  pose proof (iw_nodup _ _ _ HI) as Hnd. rewrite Hperm in Hnd.
  simpl in Hnd. apply NoDup_cons in Hnd as [Hnotin Hnd].
  assert (Hsh : shutdown s = false).
  { pose proof (iw_live _ _ _ HI) as Hl. destruct (shutdown s); [|done].
    destruct Hl as (Hnil & _). rewrite Hnil in Hperm.
    by apply Permutation_nil_cons in Hperm. }
  split; [|split; [congruence|eauto]].
  destruct HI. unfold pend in *.
  constructor; unfold pend; simpl; rewrite ?E1, ?E2, ?E3, ?E5, ?E6, ?E7, ?E8;
    try done; try lia.
  - apply Forall_forall. intros it Hit.
    rewrite Forall_forall in Hpend. destruct (Hpend _ Hit) as (? & ? & ?).
    split; [done|]. split; [|done].
    assert (it.1 <> rcvd_idx s); [|lia]. intros Heq.
    apply Hnotin. rewrite <- Heq. apply list_elem_of_fmap. by exists it.
  - intros k q Hk. destruct (iw_reorder0 _ _ Hk) as [? ?].
    split; [|done]. assert (k <> rcvd_idx s) by congruence. lia.
  - rewrite Hsh in *. by apply Hsome.
Qed.

Lemma pop_deliver s p :
  InvW ld (2 * W) s ->
  reorder_dict s !! rcvd_idx s = Some p ->
  InvW ld (2 * W - 1)
    (set_rcvd_idx (rcvd_idx s + 1)
       (set_reorder_dict (delete (rcvd_idx s) (reorder_dict s)) s))
  /\ shutdown s = false
  /\ exists indices, src !! rcvd_idx s = Some indices /\ produced ld indices p.
Proof.
  intros HI Hp.
  destruct (iw_reorder _ _ _ HI _ _ Hp) as [Hrange Hprod].
  assert (Hsh : shutdown s = false).
  { pose proof (iw_live _ _ _ HI) as Hl. destruct (shutdown s); [|done].
    destruct Hl as (_ & Hnil & _). rewrite Hnil in Hp. done. }
  split; [|done].
  assert (0 < size (reorder_dict s))%nat.
  { destruct (decide (size (reorder_dict s) = 0%nat)) as [Hz|]; [|lia].
    apply map_size_empty_iff in Hz. rewrite Hz in Hp. done. }
  destruct HI.
  constructor; unfold pend in *; simpl; try done; try lia.
  - rewrite map_size_delete_Some by eauto. lia.
  - eapply Forall_impl; [exact iw_pend0|]. simpl.
    intros it (? & ? & Hnone). split; [done|].
    assert (it.1 <> rcvd_idx s) by congruence.
    split; [lia|]. by rewrite lookup_delete_ne.
  - intros k q Hk. apply lookup_delete_Some in Hk as [Hne Hk].
    destruct (iw_reorder0 _ _ Hk) as [? ?]. split; [lia|done].
  - by rewrite Hsh in *.
Qed.

Lemma put_step j s indices rest q :
  InvW ld j s -> (j < 2 * W)%nat ->
  sample_iter s = indices :: rest ->
  index_queues s !! worker_queue_idx s = Some q ->
  InvW ld (j + 1) (dispatched ld indices rest q s).
Proof.
  intros HI Hj Hs Hq.
  pose proof (pend_push _ _ (send_idx s, indices) _ Hq) as Hperm.
  pose proof (Permutation_length Hperm) as Hlen. simpl in Hlen.
  pose proof (iw_src _ _ _ HI) as Hsrc. rewrite Hs in Hsrc. symmetry in Hsrc.
  apply drop_cons_inv in Hsrc as [Hlook Hdrop].
  pose proof (lookup_lt_Some _ _ _ Hlook) as Hlt.
  assert (Hsh : shutdown s = false).
  { pose proof (iw_live _ _ _ HI) as Hl. destruct (shutdown s); [|done].
    destruct Hl as (_ & _ & Hnil). congruence. }
  assert (Hfresh : reorder_dict s !! send_idx s = None).
  { destruct (reorder_dict s !! send_idx s) as [p|] eqn:Hp; [|done].
    destruct (iw_reorder _ _ _ HI _ _ Hp) as [? _]. lia. }
  destruct HI. unfold pend in *.
  constructor; unfold pend; simpl; try done; try lia.
  - by rewrite Nat.add_1_r.
  - by rewrite length_insert.
  - apply Nat.mod_upper_bound. lia.
  - rewrite Hperm. apply Forall_cons. split.
    + simpl. split; [done|]. split; [lia|done].
    + eapply Forall_impl; [exact iw_pend0|]. simpl.
      intros it (? & ? & ?). split; [done|]. split; [lia|done].
  - rewrite Hperm. simpl. apply NoDup_cons. split; [|done].
    intros Hin. apply list_elem_of_fmap in Hin as (it & Heq & Hit).
    rewrite Forall_forall in iw_pend0.
    destruct (iw_pend0 _ Hit) as (_ & ? & _). lia.
  - intros k p Hk. destruct (iw_reorder0 _ _ Hk) as [? ?]. split; [lia|done].
  - rewrite Hsh in *. apply Forall_insert; [done|].
    apply Forall_app. split.
    + rewrite Forall_lookup in iw_live0. by apply (iw_live0 _ _ Hq).
    + apply Forall_cons. split; [eauto|done].
Qed.

Lemma put_none j s :
  InvW ld j s -> (j < 2 * W)%nat -> sample_iter s = [] -> InvW ld (j + 1) s.
Proof.
  intros HI Hj Hs.
  pose proof (iw_src _ _ _ HI) as Hsrc. rewrite Hs in Hsrc. symmetry in Hsrc.
  apply drop_nil_inv in Hsrc.
  destruct HI. constructor; try done; lia.
Qed.

(** *** Receiving *)

Lemma try_get_blocked t st :
  env (world st) = [] -> _try_get_batch ld t st = (Blocked, st).
Proof.
  intros He. unfold _try_get_batch, try_except, data_queue_get. mstep.
  by rewrite He.
Qed.

Lemma try_get_got t st r rest c d data s1 :
  env (world st) = r :: rest -> arrival r = Got c d ->
  next_result ld c d (self st) = Some (data, s1) ->
  _try_get_batch ld t st =
    (Ret (Some data), mkState s1 (answer r rest (world st))).
Proof.
  intros He Ha Hn. unfold _try_get_batch, try_except, data_queue_get. mstep.
  by rewrite He, Ha, Hn.
Qed.

Lemma try_get_silent t st r rest :
  env (world st) = r :: rest ->
  (arrival r = Silent
   \/ exists c d, arrival r = Got c d /\ next_result ld c d (self st) = None) ->
  _try_get_batch ld t st =
    (after_failure (mkExn QueueEmpty EmptyString) (self st)
       (log (Waited t) (answer r rest (world st))),
     mkState (self st) (log (Waited t) (answer r rest (world st)))).
Proof.
  intros He Ha. unfold _try_get_batch, try_except, data_queue_get. mstep.
  rewrite He. unfold after_failure.
  destruct Ha as [Ha|(c & d & Ha & Hn)]; rewrite Ha; [|rewrite Hn]; simpl;
    destruct (forallb _ _); done.
Qed.

Lemma try_get_broken t st r rest e :
  env (world st) = r :: rest -> arrival r = Broken e ->
  _try_get_batch ld t st =
    (after_failure e (self st) (answer r rest (world st)),
     mkState (self st) (answer r rest (world st))).
Proof.
  intros He Ha. unfold _try_get_batch, try_except, data_queue_get. mstep.
  rewrite He, Ha. unfold after_failure. simpl.
  destruct (forallb _ _); simpl; [|done].
  destruct (decide _); done.
Qed.

Lemma TraceOk_logs es wd :
  TraceOk ld wd -> Forall (event_ok ld) es -> TraceOk ld (logs es wd).
Proof. intros H1 H2. unfold TraceOk, logs. simpl. by apply Forall_app. Qed.

Lemma try_get_general t st res st' :
  _try_get_batch ld t st = (res, st') ->
  (TraceOk ld (world st) -> TraceOk ld (world st'))
  /\ match res with
     | Ret (Some data) =>
         exists c d, next_result ld c d (self st) = Some (data, self st')
     | _ => self st' = self st
     end
  /\ match res with
     | Ret _ => (length (env (world st')) < length (env (world st)))%nat
     | _ => True
     end.
Proof.
  assert (Hcase : env (world st) = []
                  \/ exists r rest, env (world st) = r :: rest)
    by (destruct (env (world st)); eauto).
  destruct Hcase as [He|(r & rest & He)].
  { rewrite try_get_blocked by done. by intros [= <- <-]. }
  assert (Hfail : forall e wd, match after_failure e (self st) wd with
                               | Ret (Some _) => False | _ => True end).
  { intros e wd. unfold after_failure. destruct (negb _); [done|].
    destruct (decide _); done. }
  assert (Hsilent :
    _try_get_batch ld t st =
      (after_failure (mkExn QueueEmpty EmptyString) (self st)
         (log (Waited t) (answer r rest (world st))),
       mkState (self st) (log (Waited t) (answer r rest (world st)))) ->
    _try_get_batch ld t st = (res, st') ->
    (TraceOk ld (world st) -> TraceOk ld (world st'))
    /\ match res with
       | Ret (Some data) =>
           exists c d, next_result ld c d (self st) = Some (data, self st')
       | _ => self st' = self st
       end
    /\ match res with
       | Ret _ => (length (env (world st')) < length (env (world st)))%nat
       | _ => True
       end).
  { intros ->. intros [= <- <-]. simpl. split.
    - intros. rewrite log_logs. apply TraceOk_logs; [done|].
      by repeat constructor.
    - specialize (Hfail (mkExn QueueEmpty EmptyString)
                    (log (Waited t) (answer r rest (world st)))).
      destruct (after_failure _ _ _) as [[]| |]; try done.
      split; [done|]. rewrite ?He. simpl. lia. }
  destruct (arrival r) as [c d| |e] eqn:Ha.
  - destruct (next_result ld c d (self st)) as [[data s1]|] eqn:Hn.
    + rewrite (try_get_got _ _ _ _ _ _ _ _ He Ha Hn). intros [= <- <-].
      split; [done|]. simpl. rewrite ?He. simpl. split; [eauto|lia].
    + apply Hsilent. apply try_get_silent; eauto.
  - apply Hsilent. apply try_get_silent; eauto.
  - rewrite (try_get_broken _ _ _ _ _ He Ha). intros [= <- <-]. simpl.
    split; [done|].
    specialize (Hfail e (answer r rest (world st))).
    destruct (after_failure _ _ _) as [[]| |]; try done.
    split; [done|]. rewrite ?He. simpl. lia.
Qed.

Lemma poll_general fuel st res st' :
  poll ld fuel st = (res, st') ->
  (TraceOk ld (world st) -> TraceOk ld (world st')) /\ received ld st res st'.
Proof.
  revert st. induction fuel as [|fuel IH]; intros st; simpl.
  { by intros [= <- <-]. }
  mstep. destruct (_try_get_batch ld MP_STATUS_CHECK_INTERVAL st)
    as [[[data|]| |] st1] eqn:Ht;
    apply try_get_general in Ht as (Htr & Hs & Hlen).
  - by intros [= <- <-].
  - intros Hp. apply IH in Hp as [Htr' Hs']. split; [auto|].
    unfold received in *. rewrite Hs in Hs'.
    destruct res; [|done..]. destruct Hs'. split; [done|lia].
  - by intros [= <- <-].
  - by intros [= <- <-].
Qed.

Lemma relay_poll_general fuel st res st' :
  relay_poll ld fuel st = (res, st') ->
  (TraceOk ld (world st) -> TraceOk ld (world st')) /\ received ld st res st'.
Proof.
  revert st. induction fuel as [|fuel IH]; intros st; simpl.
  { by intros [= <- <-]. }
  mstep. destruct (relay_alive (world st)); [|by intros [= <- <-]].
  mstep. destruct (_try_get_batch ld MP_STATUS_CHECK_INTERVAL st)
    as [[[data|]| |] st1] eqn:Ht;
    apply try_get_general in Ht as (Htr & Hs & Hlen).
  - by intros [= <- <-].
  - intros Hp. apply IH in Hp as [Htr' Hs']. split; [auto|].
    unfold received in *. rewrite Hs in Hs'.
    destruct res; [|done..]. destruct Hs'. split; [done|lia].
  - by intros [= <- <-].
  - by intros [= <- <-].
Qed.

Lemma get_batch_polling st :
  ~ 0 < timeout ld ->
  _get_batch ld st =
    if self_pin_memory ld
    then relay_poll ld (S (length (env (world st)))) st
    else poll ld (S (length (env (world st)))) st.
Proof.
  intros H. unfold _get_batch. rewrite bool_decide_false by done.
  by destruct (self_pin_memory ld).
Qed.

Lemma get_batch_general st res st' :
  _get_batch ld st = (res, st') ->
  (TraceOk ld (world st) -> TraceOk ld (world st')) /\ received ld st res st'.
Proof.
  destruct (decide (0 < timeout ld)) as [Ht|Ht].
  - unfold _get_batch. rewrite bool_decide_true by done.
    mstep. destruct (_try_get_batch ld (timeout ld) st)
      as [[[data|]| |] st1] eqn:Hg;
      apply try_get_general in Hg as (Htr & Hs & Hlen); by intros [= <- <-].
  - rewrite get_batch_polling by done. destruct (self_pin_memory ld).
    + apply relay_poll_general.
    + apply poll_general.
Qed.



(** *** A cooperative environment *)

Lemma get_batch_healthy st r rest :
  env (world st) = r :: rest -> healthy r ->
  relay_alive (world st) = true ->
  pend (self st) <> [] ->
  Forall (Forall is_Some) (index_queues (self st)) ->
  length (workers (self st)) = length (index_queues (self st)) ->
  exists c d data s1,
    next_result ld c d (self st) = Some (data, s1)
    /\ _get_batch ld st = (Ret data, mkState s1 (answer r rest (world st))).
Proof.
  intros He [(c & d & Ha) Hr] Hrelay Hne Hsome Hlen.
  destruct (next_result_some c d _ Hne Hsome Hlen) as [[data s1] Hn].
  exists c, d, data, s1. split; [done|].
  pose proof (fun t => try_get_got t _ _ _ _ _ _ _ He Ha Hn) as Hget.
  destruct (decide (0 < timeout ld)) as [Ht|Ht].
  - unfold _get_batch. rewrite bool_decide_true by done. mstep.
    by rewrite Hget.
  - rewrite get_batch_polling by done.
    destruct (self_pin_memory ld); simpl; mstep.
    + rewrite Hrelay. mstep. by rewrite Hget.
    + by rewrite Hget.
Qed.

(** *** Dispatching *)

Lemma dispatch_count_app es1 es2 :
  dispatch_count (es1 ++ es2) = (dispatch_count es1 + dispatch_count es2)%nat.
Proof. induction es1 as [|e es1 IH]; simpl; [done|]. rewrite IH. lia. Qed.

Lemma outstanding_bound j s :
  InvW ld j s ->
  0 <= batches_outstanding s <= Z.of_nat j.
Proof.
  intros HI. rewrite (iw_out _ _ _ HI).
  pose proof (iw_count _ _ _ HI). pose proof (iw_send _ _ _ HI).
  pose proof (iw_rcvd _ _ _ HI). lia.
Qed.

Lemma put_indices_spec j st :
  InvW ld j (self st) -> (j < 2 * W)%nat ->
  exists s' es,
    _put_indices ld st = (Ret tt, mkState s' (logs es (world st)))
    /\ InvW ld (j + 1) s' /\ Forall (event_ok ld) es
    /\ rcvd_idx s' = rcvd_idx (self st)
    /\ reorder_dict s' = reorder_dict (self st)
    /\ (sample_iter s' <> [] -> 0 < batches_outstanding s')
    /\ (dispatch_count es <= 1)%nat.
Proof.
  intros HI Hj. pose proof (outstanding_bound _ _ HI) as Hb.
  unfold _put_indices. mstep.
  rewrite bool_decide_true by lia. simpl.
  destruct (sample_iter (self st)) as [|indices rest] eqn:Hs.
  - exists (self st), [PutIndices (batches_outstanding (self st))].
    split; [by destruct st|]. split; [by apply put_none|].
    split; [repeat constructor; simpl; lia|]. rewrite Hs. simpl.
    repeat split; try done. lia.
  - simpl. pose proof (iw_cursor _ _ _ HI) as Hc.
    rewrite <- (iw_queues _ _ _ HI) in Hc.
    apply lookup_lt_is_Some_2 in Hc as [q Hq]. rewrite Hq. simpl.
    exists (dispatched ld indices rest q (self st)),
      [PutIndices (batches_outstanding (self st));
       Dispatch (worker_queue_idx (self st)) (send_idx (self st));
       Outstanding (batches_outstanding (self st) + 1)].
    split; [by rewrite !log_logs, !logs_logs|]. split; [by apply put_step|].
    split; [repeat constructor; simpl; lia|]. simpl.
    split; [done|]. split; [done|]. split; lia.
Qed.

Lemma process_next_batch_spec p st :
  InvW ld (2 * W - 1) (set_rcvd_idx (rcvd_idx (self st) + 1) (self st)) ->
  exists s' es,
    _process_next_batch ld p st = (deliver p, mkState s' (logs es (world st)))
    /\ InvW ld (2 * W) s' /\ Forall (event_ok ld) es
    /\ rcvd_idx s' = (rcvd_idx (self st) + 1)%nat
    /\ reorder_dict s' = reorder_dict (self st)
    /\ (sample_iter s' <> [] -> 0 < batches_outstanding s').
Proof.
  intros HI. pose proof (iw_workers _ _ _ HI) as HW.
  unfold _process_next_batch. mstep.
  destruct (put_indices_spec (2 * W - 1)
              (mkState (set_rcvd_idx (rcvd_idx (self st) + 1) (self st))
                 (world st)) HI ltac:(lia))
    as (s' & es & Hput & HI' & Hes & Hr & Hre & Hout & _).
  rewrite Hput. simpl.
  replace (2 * W - 1 + 1)%nat with (2 * W)%nat in HI' by lia.
  exists s', es. split.
  - unfold deliver. destruct p as [b|w]; [done|].
    by destruct (bool_decide _ && contains_newline _).
  - done.
Qed.

(** *** One call of [next()] *)

Lemma receive_spec fuel st res st' :
  InvW ld (2 * W) (self st) -> TraceOk ld (world st) ->
  reorder_dict (self st) !! rcvd_idx (self st) = None ->
  (rcvd_idx (self st) < send_idx (self st))%nat ->
  (length (env (world st)) < fuel)%nat ->
  receive ld fuel st = (res, st') -> Post ld st res st'.
Proof.
  revert st. induction fuel as [|fuel IH]; intros st HI Htr Hnone Hlt Hfuel;
    [lia|].
  pose proof (pending_expected _ _ HI Hnone Hlt) as Hpend.
  pose proof (outstanding_bound _ _ HI) as Hb.
  pose proof (iw_out _ _ _ HI) as Hout.
  assert (0 < length (pend (self st)))%nat as Hlen
    by (destruct (pend (self st)); simpl; [done|lia]).
  assert (Hsh : shutdown (self st) = false).
  { pose proof (iw_live _ _ _ HI) as Hl. destruct (shutdown (self st)); [|done].
    by destruct Hl as (? & _). }
  assert (Hneed : (1 <= need ld (self st))%nat).
  { unfold need. pose proof (iw_count _ _ _ HI). pose proof (iw_send _ _ _ HI). lia. }
  assert (Hhealthy : Healthy (world st) ->
            (need ld (self st) <= length (env (world st)))%nat ->
            exists r rest c d data s1,
              env (world st) = r :: rest /\ Forall healthy rest
              /\ relay_after r = true
              /\ next_result ld c d (self st) = Some (data, s1)
              /\ _get_batch ld st =
                   (Ret data, mkState s1 (answer r rest (world st)))).
  { intros [Hrel Hall] Hn.
    destruct (env (world st)) as [|r rest] eqn:He; [simpl in Hn; lia|].
    apply Forall_cons in Hall as [Hr Hall].
    pose proof (iw_live _ _ _ HI) as Hl. rewrite Hsh in Hl.
    destruct (get_batch_healthy st r rest He Hr Hrel Hpend Hl)
      as (c & d & data & s1 & Hn1 & Hg).
    { by rewrite (iw_queues _ _ _ HI), (iw_procs _ _ _ HI). }
    destruct Hr as [_ Hr]. exists r, rest, c, d, data, s1. done. }
  simpl. mstep. rewrite Hsh. simpl.
  rewrite bool_decide_true by lia. simpl.
  destruct (_get_batch ld st) as [[[idx p]|e|] st1] eqn:Hg;
    pose proof (get_batch_general _ _ _ Hg) as [Htr1 Hrecv]; simpl in Hrecv.
  2,3: intros [= <- <-]; split;
    [ split; [by rewrite Hrecv|by apply Htr1|rewrite Hrecv; lia]
    | intros HH Hn; destruct (Hhealthy HH Hn)
        as (? & ? & ? & ? & ? & ? & _ & _ & _ & _ & Hg'); congruence ].
  destruct Hrecv as [(c & d & Hn1) Henv].
  destruct (arrival_facts _ _ _ _ _ _ _ HI Hn1)
    as (ind & Hsrc & Hprod & Hrange & Hfresh & Hperm & E1 & E2 & E3 & E4 & E5
        & E6 & E7 & E8 & E9 & E10 & E11 & Hcopies & Hsome).
  assert (Hev : event_ok ld (Outstanding (batches_outstanding (self st1) - 1))).
  { simpl. rewrite E3. pose proof (iw_workers _ _ _ HI). lia. }
  assert (Hworld : Healthy (world st) ->
            (need ld (self st) <= length (env (world st)))%nat ->
            Healthy (world st1)
            /\ (need ld (self st) <= S (length (env (world st1))))%nat).
  { intros HH Hn. destruct (Hhealthy HH Hn)
      as (r & rest & ? & ? & ? & ? & He & Hall & Hr & _ & Hg').
    try rewrite Hg in Hg'. injection Hg' as _ Hst. rewrite Hst. simpl.
    split; [done|].
    rewrite He in Hn. simpl in Hn. lia. }
  case_bool_decide as Hidx.
  - (* an early arrival is stored *)
    simpl. intros Hrec.
    set (st3 := mkState _ _) in Hrec.
    assert (HI3 : InvW ld (2 * W) (self st3)).
    { subst st3. simpl. rewrite E7 in Hidx.
      by apply (recv_store c d (self st)). }
    assert (Htr3 : TraceOk ld (world st3)).
    { subst st3. simpl. rewrite log_logs. apply TraceOk_logs; [auto|].
      by apply Forall_singleton. }
    assert (Hnone3 : reorder_dict (self st3) !! rcvd_idx (self st3) = None).
    { subst st3. simpl. rewrite E7, E8.
      rewrite lookup_insert_ne; [done|]. by rewrite <- E7. }
    assert (Hlt3 : (rcvd_idx (self st3) < send_idx (self st3))%nat).
    { subst st3. simpl. by rewrite E6, E7. }
    assert (Hfuel3 : (length (env (world st3)) < fuel)%nat).
    { subst st3. simpl. lia. }
    destruct (IH st3 HI3 Htr3 Hnone3 Hlt3 Hfuel3 Hrec) as [Hinv Hpost].
    split; [done|]. intros HH Hn.
    destruct (Hworld HH Hn) as [HH1 Hn1'].
    destruct Hpost as (HH' & Hn' & Hprog).
    + subst st3. simpl. done.
    + subst st3. simpl. unfold need in *. simpl. rewrite E7, E8.
      rewrite map_size_insert_None by done. lia.
    + split; [done|]. split; [done|].
      unfold progress in *. subst st3. simpl in Hprog.
      by rewrite E7 in Hprog.
  - (* the expected result is handed over *)
    subst idx. rewrite E7 in Hn1.
    destruct (recv_deliver _ _ _ _ _ HI Hn1) as (HI2 & _ & indices & Hsrc' & Hprod').
    set (st2 := mkState _ _).
    destruct (process_next_batch_spec p st2 HI2)
      as (s' & es & Hproc & HI' & Hes & Hr & Hre & Hrefill).
    rewrite Hproc. intros [= <- <-]. subst st2.
    simpl in Hr, Hre. rewrite E7 in Hr. rewrite E8 in Hre.
    split.
    + split; simpl; [done| |done].
      rewrite log_logs, logs_logs. apply TraceOk_logs; [auto|].
      apply Forall_cons. done.
    + intros HH Hn. destruct (Hworld HH Hn) as [HH1 Hn1'].
      split; [done|]. split.
      * unfold need in *. simpl. rewrite Hr, Hre. lia.
      * left. simpl. rewrite Hr. split; [done|]. eauto.
Qed.

Lemma pend_torn_down s : pend (torn_down s) = pend s.
Proof.
  unfold pend, torn_down. simpl.
  induction (index_queues s) as [|q qs IH]; [done|].
  rewrite fmap_cons. simpl. rewrite !omap_app, IH. simpl.
  by rewrite app_nil_r.
Qed.

Lemma Forall_flat_map {A B} (P : B -> Prop) (f : A -> list B) (l : list A) :
  (forall x, Forall P (f x)) -> Forall P (flat_map f l).
Proof.
  intros H. induction l as [|x l IH]; simpl; [done|]. by apply Forall_app.
Qed.

Lemma shutdown_events_ok s : Forall (event_ok ld) (shutdown_events s).
Proof.
  unfold shutdown_events. repeat apply Forall_app_2.
  - by repeat constructor.
  - destruct (has_pin_memory_thread s); by repeat constructor.
  - apply Forall_flat_map. intros w. by repeat constructor.
  - apply Forall_fmap. by apply Forall_true.
  - destruct (worker_pids_set s); by repeat constructor.
Qed.

Lemma torn_down_inv s :
  InvW ld (2 * W) s -> reorder_dict s !! rcvd_idx s = None -> pend s = [] ->
  InvW ld (2 * W) (torn_down s).
Proof.
  intros HI Hnone Hnil.
  destruct (all_delivered _ HI Hnone Hnil) as [Hr Hs].
  pose proof (iw_count _ _ _ HI) as Hc. rewrite Hnil in Hc. simpl in Hc.
  assert (reorder_dict s = ∅) by (apply map_size_empty_iff; lia).
  pose proof (iw_src _ _ _ HI) as Hsrc. rewrite Hs, drop_all in Hsrc.
  destruct HI.
  constructor; rewrite ?pend_torn_down; simpl; try done.
  by rewrite length_fmap.
Qed.

Lemma next_waiting st :
  num_workers ld <> 0%nat ->
  reorder_dict (self st) !! rcvd_idx (self st) = None ->
  batches_outstanding (self st) <> 0 ->
  __next__ ld st = receive ld (S (length (env (world st)))) st.
Proof.
  intros HW Hp Hz. unfold __next__, mbind, M_bind, bind, get_self, get_world.
  cbv beta iota. rewrite bool_decide_false by done. rewrite Hp.
  rewrite bool_decide_false by done. reflexivity.
Qed.

Lemma next_spec st res st' :
  Inv ld st -> __next__ ld st = (res, st') -> Post ld st res st'.
Proof.
  intros [HI Htr Href]. pose proof (iw_workers _ _ _ HI) as HW.
  destruct (reorder_dict (self st) !! rcvd_idx (self st)) as [p|] eqn:Hp.
  - (* the expected result was buffered *)
    unfold __next__. mstep. rewrite bool_decide_false by lia. rewrite Hp.
    mstep. destruct (pop_deliver _ _ HI Hp) as (HI2 & _ & indices & Hsrc & Hprod).
    set (st2 := mkState _ _).
    destruct (process_next_batch_spec p st2 HI2)
      as (s' & es & Hproc & HI' & Hes & Hr & Hre & Hrefill).
    rewrite Hproc. intros [= <- <-]. subst st2. simpl in Hr, Hre.
    split.
    + split; simpl; [done| |done]. by apply TraceOk_logs.
    + intros HH Hn. split; [done|]. split.
      * unfold need in *. simpl. rewrite Hr, Hre.
        rewrite map_size_delete_Some by eauto.
        assert (0 < size (reorder_dict (self st)))%nat.
        { destruct (decide (size (reorder_dict (self st)) = 0%nat)) as [Hz|];
            [|lia].
          apply map_size_empty_iff in Hz. rewrite Hz in Hp. done. }
        pose proof (lookup_lt_Some _ _ _ Hsrc). lia.
      * left. simpl. rewrite Hr. split; [done|]. eauto.
  - destruct (decide (batches_outstanding (self st) = 0)) as [Hz|Hz].
    + (* nothing outstanding: shut down and stop *)
      unfold __next__. mstep. rewrite bool_decide_false by lia. rewrite Hp.
      rewrite bool_decide_true by done.
      assert (Hnil : pend (self st) = []).
      { rewrite (iw_out _ _ _ HI) in Hz. destruct (pend (self st)); [done|].
        simpl in Hz. lia. }
      destruct (all_delivered _ HI Hp Hnil) as [Hr Hs].
      mstep.
      destruct (decide (python_exit_status (world st) = Some false
                        /\ shutdown (self st) = false)) as [[Hpy Hsh]|Hno].
      * rewrite shutdown_body by done. simpl. intros [= <- <-]. split.
        -- split; simpl.
           ++ by apply torn_down_inv.
           ++ apply TraceOk_logs; [done|]. apply shutdown_events_ok.
           ++ intros Hne. destruct Hne. pose proof (iw_src _ _ _ HI) as Hsrc.
              by rewrite Hs, drop_all in Hsrc.
        -- intros HH Hn. split; [done|]. split; [done|]. by right.
      * rewrite shutdown_guarded.
        2:{ destruct (python_exit_status (world st)) as [[]|]; try (by left).
            right. destruct (shutdown (self st)); [done|].
            destruct Hno. done. }
        simpl. intros [= <- <-]. split; [done|].
        intros HH Hn. split; [done|]. split; [done|]. by right.
    + (* wait for it *)
      rewrite next_waiting by (done || lia).
      assert (Hlt : (rcvd_idx (self st) < send_idx (self st))%nat).
      { pose proof (iw_pend _ _ _ HI) as Hpend. rewrite (iw_out _ _ _ HI) in Hz.
        destruct (pend (self st)) as [|it l]; [done|].
        apply Forall_cons in Hpend as [(_ & ? & _) _]. lia. }
      apply receive_spec; try done. lia.
Qed.

(** *** Construction *)

Lemma prime_spec n j st :
  InvW ld j (self st) -> (j + n <= 2 * W)%nat ->
  exists s' es,
    repeat_n n (_put_indices ld) st = (Ret tt, mkState s' (logs es (world st)))
    /\ InvW ld (j + n) s' /\ Forall (event_ok ld) es
    /\ rcvd_idx s' = rcvd_idx (self st)
    /\ reorder_dict s' = reorder_dict (self st)
    /\ ((0 < n)%nat -> sample_iter s' <> [] -> 0 < batches_outstanding s')
    /\ (dispatch_count es <= n)%nat.
Proof.
  revert j st. induction n as [|n IH]; intros j st HI Hj; simpl.
  - exists (self st), []. rewrite logs_nil, Nat.add_0_r.
    split; [by destruct st|]. split; [done|]. split; [done|].
    split; [done|]. split; [done|]. split; [lia|done].
  - destruct (put_indices_spec j st HI ltac:(lia))
      as (s1 & es1 & Hput & HI1 & Hes1 & Hr1 & Hre1 & Hout1 & Hd1).
    mstep. rewrite Hput.
    destruct (IH (j + 1)%nat (mkState s1 (logs es1 (world st))) HI1 ltac:(lia))
      as (s2 & es2 & Hrep & HI2 & Hes2 & Hr2 & Hre2 & Hout2 & Hd2).
    rewrite Hrep. simpl. exists s2, (es1 ++ es2).
    rewrite logs_logs. split; [done|].
    replace (j + S n)%nat with (j + 1 + n)%nat by lia. split; [done|].
    split; [by apply Forall_app|]. simpl in *.
    split; [congruence|]. split; [congruence|]. split.
    + intros _ Hne. destruct n as [|n]; [|apply Hout2; [lia|done]].
      simpl in Hrep. injection Hrep as -> _. by apply Hout1.
    + rewrite dispatch_count_app. lia.
Qed.

Lemma concat_replicate_nil {A} n : concat (replicate n (@nil A)) = [].
Proof. induction n; simpl; done. Qed.

Lemma init_spec script :
  (1 <= W)%nat ->
  exists s' es,
    __init__ ld script = (Ret tt, mkState s' (logs es (fresh_world script)))
    /\ Inv ld (mkState s' (logs es (fresh_world script)))
    /\ rcvd_idx s' = 0%nat /\ reorder_dict s' = ∅
    /\ (dispatch_count es <= 2 * W)%nat.
Proof.
  intros HW. unfold __init__, construct. mstep.
  rewrite bool_decide_true by lia. mstep.
  set (st0 := mkState _ _).
  assert (HI0 : InvW ld 0 (self st0)).
  { subst st0. constructor; unfold pend; simpl; try done; try lia.
    - by rewrite length_replicate.
    - by rewrite length_fmap, length_seq.
    - by rewrite concat_replicate_nil.
    - by rewrite concat_replicate_nil.
    - by rewrite concat_replicate_nil.
    - rewrite concat_replicate_nil. constructor.
    - apply Forall_fmap. by apply Forall_true.
    - apply Forall_replicate. constructor. }
  destruct (prime_spec (2 * W) 0 st0 HI0 ltac:(lia))
    as (s' & es & Hrep & HI' & Hes & Hr & Hre & Hout & Hd).
  replace (W + (W + 0))%nat with (2 * W)%nat by lia.
  rewrite Hrep. subst st0. simpl in *.
  exists s', ([SetWorkerPids] ++ es). rewrite <- logs_logs.
  split; [done|]. split.
  - split; simpl; [done| |apply Hout; lia].
    unfold TraceOk. simpl. by apply Forall_cons.
  - split; [done|]. split; [done|]. simpl. lia.
Qed.

(** *** Successive calls *)

Lemma calls_inv n st : Inv ld st -> Inv ld (calls ld n st).2.
Proof.
  revert st. induction n as [|n IH]; intros st HI; simpl; [done|].
  destruct (__next__ ld st) as [r st1] eqn:Hn.
  apply next_spec in Hn as [HI1 _]; [|done].
  specialize (IH st1 HI1). destruct (calls ld n st1). done.
Qed.

Lemma run_inv script n : (1 <= W)%nat -> Inv ld (run ld script n).2.
Proof.
  intros HW. destruct (init_spec script HW) as (s' & es & Hi & HI & _).
  unfold run. rewrite Hi. simpl. by apply calls_inv.
Qed.

Lemma calls_stop k st :
  Inv ld st -> Healthy (world st) ->
  (need ld (self st) <= length (env (world st)))%nat ->
  rcvd_idx (self st) = length src ->
  exists st', calls ld k st = (replicate k stop, st').
Proof.
  revert st. induction k as [|k IH]; intros st HI HH Hn Hr; simpl; [eauto|].
  destruct (__next__ ld st) as [r st1] eqn:Hnext.
  apply next_spec in Hnext as [HI1 Hpost]; [|done].
  destruct (Hpost HH Hn) as (HH1 & Hn1 & [(_ & ind & p & Hsrc & _)|(_ & Hr1 & ->)]).
  { apply lookup_lt_Some in Hsrc. lia. }
  destruct (IH st1 HI1 HH1 Hn1 ltac:(congruence)) as (st' & ->). eauto.
Qed.

Lemma calls_deliver m k st :
  Inv ld st -> Healthy (world st) ->
  (need ld (self st) <= length (env (world st)))%nat ->
  (length src - rcvd_idx (self st))%nat = m ->
  exists outs st',
    calls ld (m + k) st = (outs ++ replicate k stop, st')
    /\ Forall2 (handed_over ld) (drop (rcvd_idx (self st)) src) outs.
Proof.
  revert st. induction m as [|m IH]; intros st HI HH Hn Hm.
  - pose proof (iw_rcvd _ _ _ (inv_window _ _ HI)).
    pose proof (iw_send _ _ _ (inv_window _ _ HI)).
    destruct (calls_stop k st HI HH Hn ltac:(lia)) as (st' & Hc).
    exists [], st'. split; [done|]. rewrite drop_ge by lia. constructor.
  - simpl. destruct (__next__ ld st) as [r st1] eqn:Hnext.
    apply next_spec in Hnext as [HI1 Hpost]; [|done].
    destruct (Hpost HH Hn)
      as (HH1 & Hn1 & [(Hr1 & ind & p & Hsrc & Hprod & ->)|(Hr & _)]); [|lia].
    destruct (IH st1 HI1 HH1 Hn1 ltac:(lia)) as (outs & st' & Hc & Hall).
    rewrite Hc. exists (deliver p :: outs), st'. split; [done|].
    rewrite (drop_S _ _ _ Hsrc). constructor.
    + by exists p.
    + by rewrite Hr1, Nat.add_1_r in Hall.
Qed.

Lemma run_in_order script k :
  (1 <= W)%nat -> Forall healthy script ->
  (length src <= length script)%nat ->
  exists outs st',
    run ld script (length src + k) = (outs ++ replicate k stop, st')
    /\ Forall2 (handed_over ld) src outs.
Proof.
  intros HW Hh Hlen.
  destruct (init_spec script HW) as (s' & es & Hi & HI & Hr & Hre & _).
  unfold run. rewrite Hi. simpl.
  destruct (calls_deliver (length src) k _ HI) as (outs & st' & Hc & Hall).
  - done.
  - unfold need. simpl. rewrite Hr, Hre, map_size_empty. lia.
  - simpl. rewrite Hr. lia.
  - simpl in Hall. rewrite Hr in Hall. eauto.
Qed.


(** *** The worker loop and the hand-over *)

Lemma loop_body_eq ds r idx indices :
  loop_body ld ds r (idx, indices) =
    ((idx,
      match fetch_collate ld (select_scale ld ds r).2 indices with
      | Err e => Wrapped (wrap_exc_info ld e)
      | Ok samples => Samples (samples ++ [Z.of_nat (select_scale ld ds r).1])
      end),
     (select_scale ld ds r).2).
Proof.
  unfold loop_body, fetch_collate, select_scale.
  destruct (bool_decide _ && train ds); simpl;
    destruct (fetch_all _ _); simpl; try done;
    destruct (collate_fn ld _); done.
Qed.


Lemma contains_newline_app s1 s2 :
  contains_newline (s1 +:+ s2) = contains_newline s1 || contains_newline s2.
Proof.
  induction s1 as [|c s1 IH]; simpl; [done|].
  by destruct (decide (c = newline)).
Qed.

Lemma format_exception_newline tb e :
  contains_newline (format_exception tb e) = true.
Proof.
  unfold format_exception. rewrite contains_newline_app.
  apply orb_true_intro. right.
  change (contains_newline (String newline (tb +:+ format_exception_only e))
          = true).
  cbn [contains_newline]. by rewrite decide_True.
Qed.



Lemma deliver_wrapped e :
  deliver (Wrapped (wrap_exc_info ld e)) = Raise (reraised ld e).
Proof.
  unfold deliver, reraised, wrap_exc_info.
  cbn [exc_type exc_msg]. rewrite format_exception_newline, andb_true_r.
  by destruct (bool_decide (exn_type e = KeyError)).
Qed.


Lemma produced_det indices p :
  multi_scale ld = false -> produced ld indices p ->
  p = worker_payload ld indices.
Proof.
  intros Hms (ds & r & k & (Ht & Hg & Hs) & <-).
  specialize (Hs Hms). unfold worker_payload.
  assert (ds = dataset ld) as ->.
  { destruct ds, (dataset ld). simpl in *. by subst. }
  rewrite !loop_body_eq. unfold select_scale.
  unfold multi_scale in Hms. rewrite Hms. done.
Qed.

Lemma cooperative_healthy script :
  forallb cooperative script = true -> Forall healthy script.
Proof.
  intros H. apply Forall_forall. intros r Hr.
  rewrite forallb_forall in H. specialize (H r).
  rewrite <- list_elem_of_In in H. specialize (H Hr).
  unfold cooperative in H. unfold healthy.
  destruct (arrival r) as [c d| |e]; try done. eauto.
Qed.

Lemma all_samples (l : list (list nat)) (outs : list (Res Batch)) :
  Forall2 (handed_over ld) l outs ->
  (forall j indices p,
     l !! j = Some indices -> produced ld indices p -> exists b, p = Samples b) ->
  exists bs,
    outs = Ret <$> bs
    /\ Forall2 (fun indices b => produced ld indices (Samples b)) l bs.
Proof.
  intros Hall. induction Hall as [|indices out l outs (p & Hp & ->) _ IH];
    intros Hs.
  - by exists [].
  - destruct (Hs 0%nat indices p eq_refl Hp) as [b ->].
    destruct IH as (bs & -> & Hbs).
    { intros j. apply (Hs (S j)). }
    exists (b :: bs). split; [done|]. by constructor.
Qed.

(** *** Liveness of the workers *)


(** *** The worker-death message names the dead workers *)














(** *** The synchronous configuration *)

Lemma sync_next st :
  num_workers ld = 0%nat ->
  __next__ ld st =
    match sample_iter (self st) with
    | [] => (stop, st)
    | indices :: rest =>
        (sync_outcome ld indices,
         mkState (set_sample_iter rest (self st)) (world st))
    end.
Proof.
  intros HW. unfold __next__. mstep. rewrite bool_decide_true by done.
  destruct (sample_iter (self st)) as [|indices rest]; [done|].
  mstep. unfold sync_outcome, fetch_collate.
  destruct (fetch_all (dataset ld) indices) as [items|e]; simpl; [|done].
  destruct (collate_fn ld items) as [b|e]; simpl; [|done].
  unfold pin_memory_batch. by destruct (self_pin_memory ld).
Qed.




End Facts.



(* ================================================================== *)
(** ** The claims *)

(** C1.  With at least one worker, whatever the order in which the
    workers' results arrive (every choice of the environment, one per
    blocking receive), the successive calls of [next()] hand over the
    results of the index batches in the order of the batch sampler, one
    per index batch, and then signal the end of the sequence.  When the
    workers draw no random scale the handed-over sequence is the image
    of the batch sampler under the worker's computation. *)
Theorem next_in_source_order (ld : Loader) (script : list Response) :
  (1 <= num_workers ld)%nat ->
  forallb cooperative script = true ->
  (length (batch_sampler ld) <= length script)%nat ->
  exists outs st',
    run ld script (length (batch_sampler ld) + 1) = (outs ++ [stop], st')
    /\ Forall2 (handed_over ld) (batch_sampler ld) outs
    /\ (multi_scale ld = false ->
        outs = (fun indices => deliver (worker_payload ld indices))
                 <$> batch_sampler ld).
Proof.
  intros HW Hcoop Hlen. apply cooperative_healthy in Hcoop.
  destruct (run_in_order ld script 1 HW Hcoop Hlen) as (outs & st' & Hrun & Hall).
  exists outs, st'. split; [done|]. split; [done|].
  intros Hms. clear Hrun Hlen.
  induction Hall as [|indices out l outs' (p & Hp & ->) _ IH]; [done|].
  rewrite fmap_cons, <- IH. by rewrite (produced_det ld _ _ Hms Hp).
Qed.

(** Two workers, five index batches, the results of worker [1] first. *)
Lemma next_in_source_order_witness :
  let ld := example_loader tenfold 2 5 0 in
  let script := arrives <$> [1; 1; 0; 0; 3]%nat in
  exists outs st',
    run ld script (length (batch_sampler ld) + 1) = (outs ++ [stop], st')
    /\ Forall2 (handed_over ld) (batch_sampler ld) outs
    /\ (multi_scale ld = false ->
        outs = (fun indices => deliver (worker_payload ld indices))
                 <$> batch_sampler ld).
Proof.
  intros ld script.
  apply (next_in_source_order ld script).
  - vm_compute. lia.
  - reflexivity.
  - vm_compute. lia.
Defined.

(** C2.  With at least one worker, at every point of every run (any
    environment, any number of calls of [next()]) the counter
    [batches_outstanding] lies between [0] and [2 * num_workers]: every
    value ever assigned to it does, [_put_indices] is only ever entered
    with the counter strictly below [2 * num_workers], and priming
    dispatches at most [2 * num_workers] work items. *)
Theorem window_bound (ld : Loader) (script : list Response) (n : nat) :
  (1 <= num_workers ld)%nat ->
  let st := (run ld script n).2 in
  let window := 2 * Z.of_nat (num_workers ld) in
  0 <= batches_outstanding (self st) <= window
  /\ (forall v, Outstanding v ∈ trace (world st) -> 0 <= v <= window)
  /\ (forall v, PutIndices v ∈ trace (world st) -> 0 <= v < window)
  /\ (dispatch_count (trace (world (__init__ ld script).2))
        <= 2 * num_workers ld)%nat.
Proof.
  intros HW st window.
  destruct (run_inv ld script n HW) as [HI Htr _]. fold st in HI, Htr.
  split; [|split; [|split]].
  - pose proof (outstanding_bound ld _ _ HI). unfold window. lia.
  - intros v Hv. unfold TraceOk in Htr. rewrite Forall_forall in Htr.
    apply (Htr _ Hv).
  - intros v Hv. unfold TraceOk in Htr. rewrite Forall_forall in Htr.
    apply (Htr _ Hv).
  - destruct (init_spec ld script HW) as (s' & es & Hi & _ & _ & _ & Hd).
    rewrite Hi. simpl. done.
Qed.

(** Two workers, seven index batches, three calls of [next()]. *)
Lemma window_bound_witness :
  let ld := example_loader tenfold 2 7 0 in
  let script := arrives <$> [1; 1; 0; 0; 3]%nat in
  let st := (run ld script 3).2 in
  let window := 2 * Z.of_nat (num_workers ld) in
  0 <= batches_outstanding (self st) <= window
  /\ (forall v, Outstanding v ∈ trace (world st) -> 0 <= v <= window)
  /\ (forall v, PutIndices v ∈ trace (world st) -> 0 <= v < window)
  /\ (dispatch_count (trace (world (__init__ ld script).2))
        <= 2 * num_workers ld)%nat.
Proof.
  intros ld script.
  apply (window_bound ld script 3).
  vm_compute. lia.
Defined.


(** C3 (amended).  Shutdown is idempotent: in every pipeline state a call
    of [_shutdown_workers] returns normally, and a second call, like any
    number of further calls, raises nothing and changes nothing: no
    channel, worker or registry action is logged.  The first call logs at
    most one release of the worker pids and sets the stop signal at most
    once, also when it comes before any iteration. *)
Theorem shutdown_idempotent (st : State) (n : nat) :
  exists st1 es,
    _shutdown_workers st = (Ret tt, st1)
    /\ _shutdown_workers st1 = (Ret tt, st1)
    /\ repeat_n n _shutdown_workers st1 = (Ret tt, st1)
    /\ trace (world st1) = trace (world st) ++ es
    /\ (length (filter (fun e => e = RemoveWorkerPids) es) <= 1)%nat
    /\ (length (filter (fun e => e = DoneEventSet) es) <= 1)%nat.
Proof.
  assert (Hrep : forall st1, _shutdown_workers st1 = (Ret tt, st1) ->
            repeat_n n _shutdown_workers st1 = (Ret tt, st1)).
  { intros st1 H1. induction n as [|m IH]; simpl; [done|].
    mstep. rewrite H1. done. }
  destruct (decide (python_exit_status (world st) = Some false
                    /\ shutdown (self st) = false)) as [[Hpy Hsh]|Hno].
  - exists (mkState (torn_down (self st)) (logs (shutdown_events (self st)) (world st))),
      (shutdown_events (self st)).
    assert (H2 : _shutdown_workers
              (mkState (torn_down (self st))
                 (logs (shutdown_events (self st)) (world st))) =
            (Ret tt, mkState (torn_down (self st))
                       (logs (shutdown_events (self st)) (world st))))
      by (apply shutdown_guarded; by right).
    split; [by apply shutdown_body|]. split; [done|]. split; [by apply Hrep|].
    split; [done|].
    assert (Hflat : forall (e : Event) k,
      (forall w, e <> IndexPutNone w) -> (forall w, e <> IndexClose w) ->
      filter (fun e' => e' = e)
        (flat_map (fun w => [IndexPutNone w; IndexClose w]) k) = []).
    { intros e k H1 H3. induction k as [|w k IH]; simpl; [done|].
      rewrite !filter_cons, IH.
      destruct (decide (IndexPutNone w = e)) as [<-|]; [by destruct (H1 w)|].
      destruct (decide (IndexClose w = e)) as [<-|]; [by destruct (H3 w)|]. done. }
    assert (Hjoin : forall (e : Event) k,
      (forall w, e <> WorkerJoin w) ->
      filter (fun e' => e' = e) (WorkerJoin <$> k) = []).
    { intros e k H1. induction k as [|w k IH]; [done|].
      rewrite fmap_cons, filter_cons, IH.
      destruct (decide (WorkerJoin w = e)) as [<-|]; [by destruct (H1 w)|]. done. }
    unfold shutdown_events. rewrite !filter_app, !length_app.
    rewrite !Hflat, !Hjoin by done.
    destruct (has_pin_memory_thread (self st)), (worker_pids_set (self st));
      simpl; split; lia.
  - exists st, [].
    assert (H1 : _shutdown_workers st = (Ret tt, st)).
    { apply shutdown_guarded.
      destruct (python_exit_status (world st)) as [[]|]; try (by left).
      right. destruct (shutdown (self st)); [done|]. destruct Hno. done. }
    split; [done|]. split; [done|]. split; [by apply Hrep|].
    rewrite app_nil_r. simpl. split; [done|]. split; lia.
Qed.

(** C3, as stated, fails: called on a freshly constructed pipeline with
    one worker, before any iteration, the shutdown operation does act on
    the channels, the worker and the registry. *)
Lemma shutdown_before_iteration_acts :
  let st0 := (__init__ (example_loader tenfold 1 3 0) []).2 in
  trace (world (_shutdown_workers st0).2) =
    trace (world st0)
    ++ [DoneEventSet; IndexPutNone 0; IndexClose 0; WorkerJoin 0;
        RemoveWorkerPids]
  /\ trace (world (_shutdown_workers st0).2) <> trace (world st0).
Proof. vm_compute. split; [reflexivity|discriminate]. Qed.

(** C4 (amended).  If the workers fail on the index batch of sequence
    number [k] only, the calls of [next()] return the batches [0] to
    [k - 1] in order, the call that reaches [k] raises the wrapped error
    and hands over no batch, and the iterator stays usable: the
    following calls return the batches [k + 1] onwards in order, and the
    call after the last batch signals the end of the sequence. *)
Theorem fetch_error_in_sequence (ld : Loader) (script : list Response)
    (k : nat) (e : Exn) :
  (1 <= num_workers ld)%nat ->
  forallb cooperative script = true ->
  (length (batch_sampler ld) <= length script)%nat ->
  (k < length (batch_sampler ld))%nat ->
  (forall i indices p,
     batch_sampler ld !! i = Some indices -> produced ld indices p ->
     if decide (i = k) then p = Wrapped (wrap_exc_info ld e)
     else exists b, p = Samples b) ->
  exists before after st',
    run ld script (length (batch_sampler ld) + 1)
      = ((Ret <$> before) ++ [Raise (reraised ld e)] ++ (Ret <$> after) ++ [stop],
         st')
    /\ Forall2 (fun indices b => produced ld indices (Samples b))
         (take k (batch_sampler ld)) before
    /\ Forall2 (fun indices b => produced ld indices (Samples b))
         (drop (S k) (batch_sampler ld)) after.
Proof.
  intros HW Hcoop Hlen Hk Honly. apply cooperative_healthy in Hcoop.
  destruct (run_in_order ld script 1 HW Hcoop Hlen) as (outs & st' & Hrun & Hall).
  destruct (lookup_lt_is_Some_2 _ _ Hk) as [ind Hind].
  rewrite <- (take_drop_middle _ _ _ Hind) in Hall.
  apply Forall2_app_inv_l in Hall as (o1 & o2 & H1 & H2 & ->).
  apply Forall2_cons_inv_l in H2 as (ok & o3 & (p & Hp & ->) & H3 & ->).
  destruct (all_samples ld _ _ H1) as (before & -> & Hb).
  { intros j indices q Hj Hq. apply lookup_take_Some in Hj as [Hj Hlt].
    specialize (Honly j indices q Hj Hq). by rewrite decide_False in Honly by lia. }
  destruct (all_samples ld _ _ H3) as (after & -> & Ha).
  { intros j indices q Hj Hq. rewrite lookup_drop in Hj.
    specialize (Honly _ indices q Hj Hq). by rewrite decide_False in Honly by lia. }
  specialize (Honly k ind p Hind Hp). rewrite decide_True in Honly by done.
  subst p. rewrite deliver_wrapped in Hrun.
  exists before, after, st'. split; [|done].
  rewrite Hrun. by rewrite <- !app_assoc.
Qed.

(** Two workers, four index batches, fetching item [1] fails. *)
Lemma fetch_error_in_sequence_witness :
  let e := mkExn (UserError "DecodeError") "bad file" in
  let ld := example_loader (faulty e) 2 4 0 in
  let script := arrives <$> [1; 0; 1; 0]%nat in
  exists before after st',
    run ld script (length (batch_sampler ld) + 1)
      = ((Ret <$> before) ++ [Raise (reraised ld e)] ++ (Ret <$> after) ++ [stop],
         st')
    /\ Forall2 (fun indices b => produced ld indices (Samples b))
         (take 1 (batch_sampler ld)) before
    /\ Forall2 (fun indices b => produced ld indices (Samples b))
         (drop 2 (batch_sampler ld)) after.
Proof.
  intros e ld script.
  apply (fetch_error_in_sequence ld script 1 e).
  - vm_compute. lia.
  - reflexivity.
  - vm_compute. lia.
  - vm_compute. lia.
  - intros i indices p Hi Hp.
    apply (produced_det ld) in Hp; [|reflexivity]. subst p.
    destruct i as [|[|[|[|i]]]]; simpl in Hi; simplify_eq; vm_compute; eauto.
Defined.

(** C4, as stated, fails: after the call that raises the error of batch
    [1], the next call of [next()] does deliver a further batch. *)
Lemma batches_follow_the_error :
  let e := mkExn (UserError "DecodeError") "bad file" in
  let ld := example_loader (faulty e) 2 4 0 in
  (run ld (arrives <$> [1; 0; 1; 0]%nat) 3).1
    = [Ret [0; 0]; Raise (reraised ld e); Ret [20; 0]].
Proof. vm_compute. reflexivity. Qed.




(** C6 (amended).  With a positive hard timeout, the blocking receive
    makes one receive attempt with the configured duration.  If a result
    arrives within it, the result is returned and nothing is waited out.
    If nothing arrives and every worker is alive, the receive has blocked
    for the whole configured duration (and not for the polling interval)
    when the timeout error is raised, and the message of that error names
    the configured duration.  If nothing arrives and some worker has
    died, the worker-death error is raised instead of the timeout error.
    Unless the receive itself breaks, no error is raised before the
    receive has blocked for the configured duration. *)
Theorem hard_timeout (ld : Loader) (st : State) (r : Response)
    (rest : list Response) :
  0 < timeout ld ->
  env (world st) = r :: rest ->
  (forall c d data s1,
     arrival r = Got c d ->
     next_result ld c d (self st) = Some (data, s1) ->
     _get_batch ld st = (Ret data, mkState s1 (answer r rest (world st))))
  /\ (arrival r = Silent ->
      forallb (fun w => alive_after r (pid w)) (workers (self st)) = true ->
      _get_batch ld st =
        (Raise (mkExn RuntimeError
                  ("DataLoader timed out after " +:+ pretty (timeout ld)
                     +:+ " seconds")),
         mkState (self st)
           (log (Waited (timeout ld)) (answer r rest (world st)))))
  /\ (arrival r = Silent ->
      forallb (fun w => alive_after r (pid w)) (workers (self st)) = false ->
      _get_batch ld st =
        (Raise (mkExn RuntimeError
                  (worker_exit_msg
                     (pid <$> filter (fun w => alive_after r (pid w) = false)
                                (workers (self st))))),
         mkState (self st)
           (log (Waited (timeout ld)) (answer r rest (world st)))))
  /\ (forall e st',
      (forall e', arrival r <> Broken e') ->
      _get_batch ld st = (Raise e, st') ->
      trace (world st') = trace (world st) ++ [Waited (timeout ld)]).
Proof.
  intros Ht He. unfold _get_batch. rewrite bool_decide_true by done.
  split; [|split; [|split]].
  - intros c d data s1 Ha Hn. mstep.
    by rewrite (try_get_got ld _ _ _ _ _ _ _ _ He Ha Hn).
  - intros Ha Halive. mstep.
    rewrite (try_get_silent ld _ _ _ _ He) by eauto.
    unfold after_failure, is_alive. simpl. by rewrite Halive.
  - intros Ha Halive. mstep.
    rewrite (try_get_silent ld _ _ _ _ He) by eauto.
    unfold after_failure, is_alive. simpl. by rewrite Halive.
  - intros e st' Hnb. mstep.
    assert (Hsilent :
      (arrival r = Silent
       \/ exists c d, arrival r = Got c d /\ next_result ld c d (self st) = None)
      \/ exists c d data s1,
           arrival r = Got c d /\ next_result ld c d (self st) = Some (data, s1)).
    { destruct (arrival r) as [c d| |e'] eqn:Ha.
      - destruct (next_result ld c d (self st)) as [[data s1]|] eqn:Hn.
        + right. eauto 10.
        + left. right. eauto.
      - left. by left.
      - by destruct (Hnb e'). }
    destruct Hsilent as [Hs|(c & d & data & s1 & Ha & Hn)].
    + rewrite (try_get_silent ld _ _ _ _ He Hs).
      destruct (after_failure _ _ _) as [[?|]| |]; intros [= <- <-]; done.
    + by rewrite (try_get_got ld _ _ _ _ _ _ _ _ He Ha Hn).
Qed.

(** One worker, a hard timeout of four seconds, a receive that obtains
    nothing while the worker is alive. *)
Lemma hard_timeout_witness :
  let ld := example_loader tenfold 1 3 4 in
  let r := mkResponse Silent (fun _ => true) true in
  let st := (__init__ ld [r]).2 in
  (forall c d data s1,
     arrival r = Got c d ->
     next_result ld c d (self st) = Some (data, s1) ->
     _get_batch ld st = (Ret data, mkState s1 (answer r [] (world st))))
  /\ (arrival r = Silent ->
      forallb (fun w => alive_after r (pid w)) (workers (self st)) = true ->
      _get_batch ld st =
        (Raise (mkExn RuntimeError
                  ("DataLoader timed out after " +:+ pretty (timeout ld)
                     +:+ " seconds")),
         mkState (self st)
           (log (Waited (timeout ld)) (answer r [] (world st)))))
  /\ (arrival r = Silent ->
      forallb (fun w => alive_after r (pid w)) (workers (self st)) = false ->
      _get_batch ld st =
        (Raise (mkExn RuntimeError
                  (worker_exit_msg
                     (pid <$> filter (fun w => alive_after r (pid w) = false)
                                (workers (self st))))),
         mkState (self st)
           (log (Waited (timeout ld)) (answer r [] (world st)))))
  /\ (forall e st',
      (forall e', arrival r <> Broken e') ->
      _get_batch ld st = (Raise e, st') ->
      trace (world st') = trace (world st) ++ [Waited (timeout ld)]).
Proof.
  intros ld r st.
  apply (hard_timeout ld st r []); reflexivity.
Defined.

(** C6, as stated, fails when a worker has died: with a hard timeout of
    three seconds and a receive that obtains nothing, [next()] raises the
    worker-death error, whose message does not name the timeout. *)
Lemma dead_worker_preempts_timeout :
  let ld := example_loader tenfold 1 3 3 in
  (run ld [silence_with_dead 100] 1).1
    = [Raise (mkExn RuntimeError
                "DataLoader worker (pid(s) 100) exited unexpectedly")]
  /\ (run ld [silence_with_dead 100] 1).1
       <> [Raise (mkExn RuntimeError "DataLoader timed out after 3 seconds")].
Proof. vm_compute. split; [reflexivity|discriminate]. Qed.




(** C8.  When the body of the shutdown runs (the interpreter is not
    exiting and the guard flag is clear), its effects are, in this
    order: the stop signal is set; if there is a relay, it is sent the
    sentinel and joined, and only then the shared result channel is
    closed; every worker's index queue gets the sentinel and is closed;
    every worker is joined; last, the worker pids are unregistered, once. *)
Theorem shutdown_order (st : State) :
  python_exit_status (world st) = Some false ->
  shutdown (self st) = false ->
  worker_pids_set (self st) = true ->
  exists st',
    _shutdown_workers st = (Ret tt, st')
    /\ trace (world st') =
         trace (world st)
         ++ [DoneEventSet]
         ++ (if has_pin_memory_thread (self st)
             then [ResultCancelJoin; ResultPutNone; RelayJoin; ResultClose]
             else [])
         ++ flat_map (fun w => [IndexPutNone w; IndexClose w])
              (seq 0 (length (index_queues (self st))))
         ++ (WorkerJoin <$> seq 0 (length (workers (self st))))
         ++ [RemoveWorkerPids]
    /\ index_queues (self st') =
         (fun q => q ++ [None]) <$> index_queues (self st)
    /\ shutdown (self st') = true
    /\ worker_pids_set (self st') = false.
Proof.
  intros Hpy Hsh Hpids. eexists. split; [by apply shutdown_body|].
  simpl. unfold shutdown_events. rewrite Hpids. done.
Qed.

(** Two workers and a relay (the timeout is set), right after
    construction. *)
Lemma shutdown_order_witness :
  let st := (__init__ (example_loader tenfold 2 5 1) []).2 in
  exists st',
    _shutdown_workers st = (Ret tt, st')
    /\ trace (world st') =
         trace (world st)
         ++ [DoneEventSet]
         ++ (if has_pin_memory_thread (self st)
             then [ResultCancelJoin; ResultPutNone; RelayJoin; ResultClose]
             else [])
         ++ flat_map (fun w => [IndexPutNone w; IndexClose w])
              (seq 0 (length (index_queues (self st))))
         ++ (WorkerJoin <$> seq 0 (length (workers (self st))))
         ++ [RemoveWorkerPids]
    /\ index_queues (self st') =
         (fun q => q ++ [None]) <$> index_queues (self st)
    /\ shutdown (self st') = true
    /\ worker_pids_set (self st') = false.
Proof.
  intros st.
  apply (shutdown_order st); reflexivity.
Defined.

(** C9 (the code departs from the claim).  On the same three index
    batches the synchronous configuration hands over the collated
    batches as they are, while the pipelined configuration hands over
    each of them with the scale index appended by the worker loop. *)
Theorem sync_mode_drops_scale_index :
  (run (example_loader tenfold 0 3 0) [] 4).1
    = [Ret [0]; Ret [10]; Ret [20]; stop]
  /\ (run (example_loader tenfold 2 3 0) (arrives <$> [0; 0; 0]%nat) 4).1
       = [Ret [0; 0]; Ret [10; 0]; Ret [20; 0]; stop]
  /\ (run (example_loader tenfold 0 3 0) [] 4).1
       <> (run (example_loader tenfold 2 3 0) (arrives <$> [0; 0; 0]%nat) 4).1.
Proof. vm_compute. repeat split; discriminate. Qed.

(** C10 (amended).  With at least one worker, at the start of every call
    of [next()], in every run: if the counter [batches_outstanding] plus
    the number of results held in the reorder buffer is strictly below
    [2 * num_workers], the batch sampler is exhausted; and if the
    counter is [0], the batch sampler is exhausted, so that signalling
    the end of the sequence from the counter alone is sound: when it is
    [0] and the expected result is not buffered, every batch has been
    handed over. *)
Theorem stop_test_sound (ld : Loader) (script : list Response) (n : nat) :
  (1 <= num_workers ld)%nat ->
  let s := self (run ld script n).2 in
  (batches_outstanding s + Z.of_nat (size (reorder_dict s))
     < 2 * Z.of_nat (num_workers ld) -> sample_iter s = [])
  /\ (batches_outstanding s = 0 -> sample_iter s = [])
  /\ (batches_outstanding s = 0 ->
      reorder_dict s !! rcvd_idx s = None ->
      rcvd_idx s = length (batch_sampler ld)).
Proof.
  intros HW s. destruct (run_inv ld script n HW) as [HI _ Href]. fold s in HI, Href.
  split; [|split].
  - intros Hlt. rewrite (iw_src _ _ _ HI).
    pose proof (iw_out _ _ _ HI). pose proof (iw_count _ _ _ HI).
    pose proof (iw_send _ _ _ HI). pose proof (iw_rcvd _ _ _ HI).
    apply drop_ge. lia.
  - intros Hz. destruct (decide (sample_iter s = [])) as [|Hne]; [done|].
    specialize (Href Hne). lia.
  - intros Hz Hnone. apply (all_delivered ld s HI Hnone).
    rewrite (iw_out _ _ _ HI) in Hz. destruct (pend s); [done|]. simpl in Hz. lia.
Qed.

(** Two workers, six index batches, six calls of [next()]. *)
Lemma stop_test_sound_witness :
  let ld := example_loader tenfold 2 6 0 in
  let script := arrives <$> [1; 0; 0; 0; 0; 0]%nat in
  let s := self (run ld script 6).2 in
  (batches_outstanding s + Z.of_nat (size (reorder_dict s))
     < 2 * Z.of_nat (num_workers ld) -> sample_iter s = [])
  /\ (batches_outstanding s = 0 -> sample_iter s = [])
  /\ (batches_outstanding s = 0 ->
      reorder_dict s !! rcvd_idx s = None ->
      rcvd_idx s = length (batch_sampler ld)).
Proof.
  intros ld script.
  apply (stop_test_sound ld script 6).
  vm_compute. lia.
Defined.

(** C10, as stated, fails: with two workers and six index batches, when
    the result of batch [1] arrives before the result of batch [0], the
    counter is [3], strictly below [2 * num_workers = 4], after the
    first delivery, although the batch sampler still holds a batch. *)
Lemma counter_below_window_before_exhaustion :
  let ld := example_loader tenfold 2 6 0 in
  let s := self (run ld (arrives <$> [1; 0]%nat) 1).2 in
  batches_outstanding s = 3
  /\ batches_outstanding s < 2 * Z.of_nat (num_workers ld)
  /\ sample_iter s = [[5%nat]]
  /\ sample_iter s <> [].
Proof. vm_compute. repeat split; discriminate. Qed.


(* ================================================================== *)
(** ** Further properties of the code

    The methods of the iterator are sequences of a few moves, [step];
    what every move keeps holds in every run.  The properties X1 to X18
    follow from this, from the invariant of the pipeline, and from the
    code of the worker loop. *)

(** *** The methods as sequences of moves *)

Section Refinement.
Variable ld : Loader.
Abbreviation W := (num_workers ld).
Abbreviation src := (batch_sampler ld).

Lemma put_indices_step st res st' :
  _put_indices ld st = (res, st') -> step ld st st'.
Proof.
  unfold _put_indices. mstep.
  case_bool_decide as Hlt; simpl.
  2:{ intros [= <- <-]. apply step_idle. }
  destruct (sample_iter (self st)) as [|indices rest] eqn:Hs.
  { intros [= <- <-]. apply step_idle. }
  simpl. destruct (index_queues (self st) !! worker_queue_idx (self st))
    as [q|] eqn:Hq; simpl.
  - intros [= <- <-]. rewrite !log_logs, !logs_logs. simpl.
    by apply (step_dispatch ld st indices rest q).
  - intros [= <- <-]. by apply (step_lost ld st indices rest).
Qed.

Lemma process_unfold p st :
  _process_next_batch ld p st =
    let '(r, st') := _put_indices ld (bump st) in
    (match r with
     | Ret _ => deliver p
     | Raise e => Raise e
     | Blocked => Blocked
     end, st').
Proof.
  unfold _process_next_batch. mstep. fold (bump st).
  destruct (_put_indices ld (bump st)) as [[[]|e|] st1]; try done.
  unfold deliver. destruct p as [b|w]; [done|].
  by destruct (bool_decide _ && contains_newline _).
Qed.

Lemma try_get_cases t st res st' :
  _try_get_batch ld t st = (res, st') ->
  (res = Blocked /\ st' = st)
  \/ (exists r rest,
        env (world st) = r :: rest
        /\ ((exists c d data,
               next_result ld c d (self st) = Some (data, self st')
               /\ world st' = answer r rest (world st)
               /\ res = Ret (Some data))
            \/ ((st' = mkState (self st)
                         (log (Waited t) (answer r rest (world st)))
                 \/ st' = mkState (self st) (answer r rest (world st)))
                /\ (res = Ret None \/ exists e, res = Raise e)))).
Proof.
  assert (Hcase : env (world st) = []
                  \/ exists r rest, env (world st) = r :: rest)
    by (destruct (env (world st)); eauto).
  destruct Hcase as [He|(r & rest & He)].
  { rewrite try_get_blocked by done. intros [= <- <-]. by left. }
  assert (Hfail : forall e wd,
            after_failure e (self st) wd = Ret None
            \/ exists e', after_failure e (self st) wd = Raise e').
  { intros e wd. unfold after_failure. destruct (negb _); [eauto|].
    destruct (decide _); eauto. }
  destruct (arrival r) as [c d| |e] eqn:Ha.
  - destruct (next_result ld c d (self st)) as [[data s1]|] eqn:Hn.
    + rewrite (try_get_got ld _ _ _ _ _ _ _ _ He Ha Hn). intros [= <- <-].
      right. exists r, rest. split; [done|].
      left. exists c, d, data. done.
    + rewrite (try_get_silent ld _ _ _ _ He) by eauto. intros [= <- <-].
      right. exists r, rest. split; [done|].
      right. split; [by left|]. destruct (Hfail (mkExn QueueEmpty EmptyString)
        (log (Waited t) (answer r rest (world st)))) as [->|[e' ->]]; eauto.
  - rewrite (try_get_silent ld _ _ _ _ He) by eauto. intros [= <- <-].
    right. exists r, rest. split; [done|].
    right. split; [by left|]. destruct (Hfail (mkExn QueueEmpty EmptyString)
      (log (Waited t) (answer r rest (world st)))) as [->|[e' ->]]; eauto.
  - rewrite (try_get_broken ld _ _ _ _ _ He Ha). intros [= <- <-].
    right. exists r, rest. split; [done|].
    right. split; [by right|].
    destruct (Hfail e (answer r rest (world st))) as [->|[e' ->]]; eauto.
Qed.

Lemma try_get_landing t st res st' :
  _try_get_batch ld t st = (res, st') ->
  match res with
  | Ret (Some data) => landing ld (Ret data) st st'
  | Ret None => step ld st st'
  | _ => rtc (step ld) st st'
  end.
Proof.
  intros H. apply try_get_cases in H as [[-> ->]|(r & rest & He & H)]; [done|].
  destruct H as [(c & d & data & Hn & Hw & ->)|[Hst Hres]].
  - simpl. exists r, rest, c, d. done.
  - assert (step ld st st').
    { destruct Hst as [->| ->]; [by apply step_wait|by apply step_break]. }
    destruct Hres as [->|[e ->]]; [done|]. by apply rtc_once.
Qed.

Lemma poll_steps fuel st res st' :
  poll ld fuel st = (res, st') ->
  exists stm, rtc (step ld) st stm /\ landing ld res stm st'.
Proof.
  revert st. induction fuel as [|fuel IH]; intros st; simpl.
  { intros [= <- <-]. by exists st. }
  mstep. destruct (_try_get_batch ld MP_STATUS_CHECK_INTERVAL st)
    as [[[data|]| |] st1] eqn:Ht; apply try_get_landing in Ht.
  - intros [= <- <-]. by exists st.
  - intros Hp. apply IH in Hp as (stm & Hsteps & Hland).
    exists stm. split; [|done]. by eapply rtc_l.
  - intros [= <- <-]. by exists st1.
  - intros [= <- <-]. by exists st1.
Qed.

Lemma relay_poll_steps fuel st res st' :
  relay_poll ld fuel st = (res, st') ->
  exists stm, rtc (step ld) st stm /\ landing ld res stm st'.
Proof.
  revert st. induction fuel as [|fuel IH]; intros st; simpl.
  { intros [= <- <-]. by exists st. }
  mstep. destruct (relay_alive (world st)); [|intros [= <- <-]; by exists st].
  mstep. destruct (_try_get_batch ld MP_STATUS_CHECK_INTERVAL st)
    as [[[data|]| |] st1] eqn:Ht; apply try_get_landing in Ht.
  - intros [= <- <-]. by exists st.
  - intros Hp. apply IH in Hp as (stm & Hsteps & Hland).
    exists stm. split; [|done]. by eapply rtc_l.
  - intros [= <- <-]. by exists st1.
  - intros [= <- <-]. by exists st1.
Qed.

Lemma get_batch_steps st res st' :
  _get_batch ld st = (res, st') ->
  exists stm, rtc (step ld) st stm /\ landing ld res stm st'.
Proof.
  destruct (decide (0 < timeout ld)) as [Ht|Ht].
  - unfold _get_batch. rewrite bool_decide_true by done.
    mstep. destruct (_try_get_batch ld (timeout ld) st)
      as [[[data|]| |] st1] eqn:Hg; apply try_get_landing in Hg;
      intros [= <- <-].
    + by exists st.
    + exists st1. split; [by apply rtc_once|done].
    + by exists st1.
    + by exists st1.
  - rewrite get_batch_polling by done. destruct (self_pin_memory ld).
    + apply relay_poll_steps.
    + apply poll_steps.
Qed.

Lemma process_steps p st res st' :
  _process_next_batch ld p st = (res, st') -> step ld (bump st) st'.
Proof.
  rewrite process_unfold.
  destruct (_put_indices ld (bump st)) as [r st1] eqn:Hput.
  intros [= _ <-]. by apply put_indices_step in Hput.
Qed.

Lemma receive_steps fuel st res st' :
  receive ld fuel st = (res, st') -> rtc (step ld) st st'.
Proof.
  revert st. induction fuel as [|fuel IH]; intros st; simpl.
  { by intros [= <- <-]. }
  mstep. destruct (negb (shutdown (self st)) && _); simpl;
    [|by intros [= <- <-]].
  destruct (_get_batch ld st) as [[[idx p]|e|] st1] eqn:Hg;
    apply get_batch_steps in Hg as (stm & Hsteps & Hland); simpl in Hland.
  2,3: intros [= <- <-]; by subst.
  destruct Hland as (r & rest & c & d & He & Hn & Hw).
  destruct st1 as [s1 w1]. simpl in *. subst w1.
  case_bool_decide as Hidx.
  - simpl. intros Hrec. apply IH in Hrec.
    etrans; [exact Hsteps|]. eapply rtc_l; [|exact Hrec].
    by apply (step_early ld stm r rest c d idx p s1).
  - subst idx. intros Hproc. apply process_steps in Hproc.
    etrans; [exact Hsteps|]. eapply rtc_l; [|by apply rtc_once].
    by apply (step_expected ld stm r rest c d p s1).
Qed.

Lemma shutdown_steps st :
  sample_iter (self st) = [] ->
  exists st', _shutdown_workers st = (Ret tt, st') /\ rtc (step ld) st st'.
Proof.
  intros Hs.
  destruct (decide (python_exit_status (world st) = Some false
                    /\ shutdown (self st) = false)) as [[Hpy Hsh]|Hno].
  - rewrite shutdown_body by done. eexists. split; [done|].
    apply rtc_once. by apply step_teardown.
  - rewrite shutdown_guarded; [by exists st|].
    destruct (python_exit_status (world st)) as [[]|]; try (by left).
    right. destruct (shutdown (self st)); [done|]. by destruct Hno.
Qed.

Lemma next_steps st res st' :
  Inv ld st -> __next__ ld st = (res, st') -> rtc (step ld) st st'.
Proof.
  intros [HI Htr Href]. pose proof (iw_workers _ _ _ HI) as HW.
  destruct (reorder_dict (self st) !! rcvd_idx (self st)) as [p|] eqn:Hp.
  - unfold __next__. mstep. rewrite bool_decide_false by lia. rewrite Hp.
    mstep. intros Hproc. apply process_steps in Hproc.
    eapply rtc_l; [|by apply rtc_once]. by apply (step_pop ld st p).
  - destruct (decide (batches_outstanding (self st) = 0)) as [Hz|Hz].
    + unfold __next__. mstep. rewrite bool_decide_false by lia. rewrite Hp.
      rewrite bool_decide_true by done. mstep.
      destruct (shutdown_steps st) as (st1 & -> & Hsteps).
      { destruct (decide (sample_iter (self st) = [])) as [|Hne]; [done|].
        specialize (Href Hne). lia. }
      by intros [= <- <-].
    + rewrite next_waiting by (done || lia). apply receive_steps.
Qed.

Lemma prime_steps n st res st' :
  repeat_n n (_put_indices ld) st = (res, st') -> rtc (step ld) st st'.
Proof.
  revert st. induction n as [|n IH]; intros st; simpl.
  { by intros [= <- <-]. }
  mstep. destruct (_put_indices ld st) as [[[]|e|] st1] eqn:Hput;
    apply put_indices_step in Hput.
  - intros Hrep. apply IH in Hrep. by eapply rtc_l.
  - intros [= <- <-]. by apply rtc_once.
  - intros [= <- <-]. by apply rtc_once.
Qed.

Lemma init_steps script :
  (1 <= W)%nat -> rtc (step ld) (booted ld script) (__init__ ld script).2.
Proof.
  intros HW. unfold __init__, construct. mstep.
  rewrite bool_decide_true by lia. mstep. fold (booted ld script).
  destruct (repeat_n _ _ _) as [r st'] eqn:Hrep. simpl.
  by apply prime_steps in Hrep.
Qed.

Lemma calls_steps n st :
  Inv ld st -> rtc (step ld) st (calls ld n st).2.
Proof.
  revert st. induction n as [|n IH]; intros st HI; simpl; [done|].
  destruct (__next__ ld st) as [r st1] eqn:Hn.
  pose proof (next_steps _ _ _ HI Hn) as Hsteps.
  apply next_spec in Hn as [HI1 _]; [|done].
  specialize (IH st1 HI1). destruct (calls ld n st1). simpl in *.
  by etrans.
Qed.

Lemma run_steps script n :
  (1 <= W)%nat -> rtc (step ld) (booted ld script) (run ld script n).2.
Proof.
  intros HW. etrans; [by apply init_steps|].
  unfold run. apply calls_steps.
  destruct (init_spec ld script HW) as (s' & es & Hi & HI & _).
  by rewrite Hi.
Qed.

End Refinement.

(** *** Counting and ordering events *)

Section Events.

Lemma dispatches_app es1 es2 :
  dispatches (es1 ++ es2) = dispatches es1 ++ dispatches es2.
Proof. apply omap_app. Qed.

Lemma dispatches_shutdown s : dispatches (shutdown_events s) = [].
Proof.
  unfold shutdown_events. rewrite !dispatches_app.
  assert (H1 : forall l,
    dispatches (flat_map (fun w => [IndexPutNone w; IndexClose w]) l) = []).
  { induction l as [|w l IH]; simpl; done. }
  assert (H2 : forall l, dispatches (WorkerJoin <$> l) = []).
  { induction l as [|w l IH]; simpl; done. }
  rewrite H1, H2.
  by destruct (has_pin_memory_thread s), (worker_pids_set s).
Qed.

Lemma waiting_app q1 q2 : waiting (q1 ++ q2) = waiting q1 ++ waiting q2.
Proof. unfold waiting. by rewrite omap_app, fmap_app. Qed.

Lemma drop_snoc {A} k (l : list A) x :
  exists k', drop k l ++ [x] = drop k' (l ++ [x]).
Proof.
  destruct (decide (k <= length l)%nat).
  - exists k. by rewrite drop_app_le.
  - exists (length l). rewrite drop_app_length.
    rewrite drop_ge by lia. done.
Qed.

Lemma occurrences_app e es1 es2 :
  occurrences e (es1 ++ es2) = (occurrences e es1 + occurrences e es2)%nat.
Proof. unfold occurrences. by rewrite filter_app, length_app. Qed.

Lemma occurrences_none e es : Forall (fun e' => e' <> e) es -> occurrences e es = 0%nat.
Proof.
  unfold occurrences. induction 1 as [|e' es Hne _ IH]; [done|].
  by rewrite filter_cons, decide_False.
Qed.

Lemma occurrences_shutdown e s :
  occurrences e (shutdown_events s) =
    match e with
    | DoneEventSet => 1%nat
    | ResultCancelJoin | ResultPutNone | RelayJoin | ResultClose =>
        if has_pin_memory_thread s then 1%nat else 0%nat
    | RemoveWorkerPids => if worker_pids_set s then 1%nat else 0%nat
    | IndexPutNone w | IndexClose w =>
        if decide (w < length (index_queues s))%nat then 1%nat else 0%nat
    | WorkerJoin w => if decide (w < length (workers s))%nat then 1%nat else 0%nat
    | _ => 0%nat
    end.
Proof.
  assert (Hflat : forall k a,
    occurrences e (flat_map (fun w => [IndexPutNone w; IndexClose w]) (seq a k)) =
      match e with
      | IndexPutNone w | IndexClose w =>
          if decide (a <= w < a + k)%nat then 1%nat else 0%nat
      | _ => 0%nat
      end).
  { induction k as [|k IH]; intros a; simpl.
    - destruct e; try done; by rewrite decide_False by lia.
    - change (occurrences e (IndexPutNone a :: IndexClose a :: ?l))
        with (occurrences e ([IndexPutNone a; IndexClose a] ++ l)).
      rewrite occurrences_app, IH. unfold occurrences.
      rewrite !filter_cons, filter_nil.
      destruct e as [v|v|w' k'|t| | | | | | |w|w|w|]; simpl; try done;
        repeat case_decide; simplify_eq; simpl; try done; try lia;
        assert (a <> w) by congruence; lia. }
  assert (Hjoin : forall k a,
    occurrences e (WorkerJoin <$> seq a k) =
      match e with
      | WorkerJoin w => if decide (a <= w < a + k)%nat then 1%nat else 0%nat
      | _ => 0%nat
      end).
  { induction k as [|k IH]; intros a; simpl.
    - destruct e; try done; by rewrite decide_False by lia.
    - change (occurrences e (WorkerJoin a :: ?l))
        with (occurrences e ([WorkerJoin a] ++ l)).
      rewrite occurrences_app. fold (fmap WorkerJoin (seq (S a) k)).
      rewrite IH. unfold occurrences.
      rewrite !filter_cons, filter_nil.
      destruct e as [v|v|w' k'|t| | | | | | |w|w|w|]; simpl; try done;
        repeat case_decide; simplify_eq; simpl; try done; try lia;
        assert (a <> w) by congruence; lia. }
  unfold shutdown_events. rewrite !occurrences_app, Hflat, Hjoin.
  unfold occurrences.
  destruct e as [v|v|w' k'|t| | | | | | |w|w|w|];
    destruct (has_pin_memory_thread s), (worker_pids_set s); simpl;
    try done; repeat case_decide; try lia.
Qed.

Lemma orderly_neutral es es' :
  orderly es ->
  (forall w k, Dispatch w k ∉ es') -> (forall v, IndexClose v ∉ es') ->
  orderly (es ++ es').
Proof.
  intros Ho Hd Hc i j w k v Hi Hj.
  apply lookup_app_Some in Hi as [Hi|[_ Hi]].
  2:{ apply list_elem_of_lookup_2 in Hi. by destruct (Hd w k). }
  apply lookup_app_Some in Hj as [Hj|[_ Hj]].
  2:{ apply list_elem_of_lookup_2 in Hj. by destruct (Hc v). }
  by eapply Ho.
Qed.

Lemma orderly_open es es' :
  (forall v, IndexClose v ∉ es) -> orderly es' -> orderly (es ++ es').
Proof.
  intros Hc Ho i j w k v Hi Hj.
  apply lookup_app_Some in Hj as [Hj|[Hlen Hj]].
  { apply list_elem_of_lookup_2 in Hj. by destruct (Hc v). }
  apply lookup_app_Some in Hi as [Hi|[Hlen' Hi]].
  { apply lookup_lt_Some in Hi. lia. }
  pose proof (Ho _ _ _ _ _ Hi Hj). lia.
Qed.

Lemma orderly_no_dispatch es :
  (forall w k, Dispatch w k ∉ es) -> orderly es.
Proof.
  intros Hd i j w k v Hi _. apply list_elem_of_lookup_2 in Hi.
  by destruct (Hd w k).
Qed.

Lemma orderly_no_close es :
  (forall v, IndexClose v ∉ es) -> orderly es.
Proof.
  intros Hc i j w k v _ Hj. apply list_elem_of_lookup_2 in Hj.
  by destruct (Hc v).
Qed.

Lemma shutdown_events_no_dispatch s w k : Dispatch w k ∉ shutdown_events s.
Proof.
  intros Hin.
  assert (Hd : (w, k) ∈ dispatches (shutdown_events s)).
  { unfold dispatches. apply list_elem_of_omap. by exists (Dispatch w k). }
  rewrite dispatches_shutdown in Hd. by apply elem_of_nil in Hd.
Qed.

Lemma shape_pop (b : bool) (item : WorkItem) q (items : list WorkItem) :
  Some item :: q = (Some <$> items) ++ (if b then [None] else []) ->
  exists items', q = (Some <$> items') ++ (if b then [None] else []).
Proof.
  destruct items as [|it items']; simpl.
  - by destruct b.
  - intros [= _ ->]. by exists items'.
Qed.

End Events.

(** *** What every move keeps *)

Section Invariants.
Variable ld : Loader.
Abbreviation W := (num_workers ld).
Abbreviation src := (batch_sampler ld).

Lemma arrival_shape c d s idx p s1 :
  next_result ld c d s = Some ((idx, p), s1) ->
  exists w item q,
    index_queues s !! w = Some (Some item :: q) /\ item.1 = idx
    /\ index_queues s1 = <[w:=q]> (index_queues s)
    /\ pid <$> workers s1 = pid <$> workers s
    /\ sample_iter s1 = sample_iter s
    /\ worker_queue_idx s1 = worker_queue_idx s
    /\ batches_outstanding s1 = batches_outstanding s
    /\ worker_pids_set s1 = worker_pids_set s
    /\ shutdown s1 = shutdown s
    /\ send_idx s1 = send_idx s /\ rcvd_idx s1 = rcvd_idx s
    /\ reorder_dict s1 = reorder_dict s
    /\ has_pin_memory_thread s1 = has_pin_memory_thread s.
Proof.
  intros Hn.
  apply next_result_inv in Hn as (w & item & q & wk & Hq & Hwk & Hdata & ->).
  exists w, item, q. split; [done|]. split.
  { pose proof (loop_body_tag ld (wdataset wk) d item) as Ht.
    by rewrite <- Hdata in Ht. }
  simpl. split; [done|]. split; [|done].
  rewrite list_fmap_insert. simpl. apply list_insert_id.
  by rewrite list_lookup_fmap, Hwk.
Qed.

Lemma share_S w n :
  share ld w (S n) =
    share ld w n ++ if decide ((n `mod` W)%nat = w) then [n] else [].
Proof.
  unfold share. rewrite seq_S, filter_app. simpl.
  rewrite filter_cons, filter_nil. done.
Qed.

Lemma Rota_booted script : Rota ld (booted ld script).
Proof.
  constructor; simpl.
  - by rewrite Nat.Div0.mod_0_l.
  - done.
  - intros w q Hq. apply lookup_replicate in Hq as [-> _]. by exists 0%nat.
Qed.

Lemma Rota_step st st' : Rota ld st -> step ld st st' -> Rota ld st'.
Proof.
  intros [Hc Ht Hq] Hstep.
  destruct Hstep as [st r rest t He|st r rest He
    |st r rest c d idx p s1 He Hn Hidx|st r rest c d p s1 He Hn
    |st p Hp|st|st indices rest Hs Hnone|st indices rest q Hs Hsome Hlt
    |st Hpy Hsh Hs].
  - constructor; simpl; try done.
    by rewrite dispatches_app, app_nil_r.
  - constructor; simpl; done.
  - apply arrival_shape in Hn
      as (w & item & q & Hw & _ & E0 & _ & E1 & E2 & E3 & E4 & E5 & E6 & E7 & E8 & E9).
    constructor; simpl; rewrite ?E2, ?E6; try done.
    + by rewrite dispatches_app, app_nil_r.
    + rewrite E0. intros w' q' Hq'.
      destruct (decide (w' = w)) as [->|Hne].
      * rewrite list_lookup_insert_eq in Hq' by (by eapply lookup_lt_Some).
        injection Hq' as <-. destruct (Hq _ _ Hw) as [k Hk].
        exists (S k). unfold waiting in *. simpl in Hk. symmetry in Hk.
        apply drop_cons_inv in Hk as [_ Hk]. done.
      * rewrite list_lookup_insert_ne in Hq' by done. by apply Hq.
  - apply arrival_shape in Hn
      as (w & item & q & Hw & _ & E0 & _ & E1 & E2 & E3 & E4 & E5 & E6 & E7 & E8 & E9).
    constructor; simpl; rewrite ?E2, ?E6; try done.
    + by rewrite dispatches_app, app_nil_r.
    + rewrite E0. intros w' q' Hq'.
      destruct (decide (w' = w)) as [->|Hne].
      * rewrite list_lookup_insert_eq in Hq' by (by eapply lookup_lt_Some).
        injection Hq' as <-. destruct (Hq _ _ Hw) as [k Hk].
        exists (S k). unfold waiting in *. simpl in Hk. symmetry in Hk.
        apply drop_cons_inv in Hk as [_ Hk]. done.
      * rewrite list_lookup_insert_ne in Hq' by done. by apply Hq.
  - constructor; simpl; done.
  - constructor; simpl; try done.
    by rewrite dispatches_app, app_nil_r.
  - constructor; simpl; try done.
    by rewrite dispatches_app, app_nil_r.
  - constructor; simpl.
    + rewrite Hc. rewrite Nat.Div0.add_mod_idemp_l. done.
    + rewrite dispatches_app, Ht. simpl.
      rewrite Nat.add_1_r, seq_S, fmap_app. simpl. by rewrite Hc.
    + intros w q' Hq'. rewrite Nat.add_1_r, share_S.
      destruct (decide (w = worker_queue_idx (self st))) as [->|Hne].
      * rewrite list_lookup_insert_eq in Hq' by (by eapply lookup_lt_Some).
        injection Hq' as <-. destruct (Hq _ _ Hsome) as [k Hk].
        rewrite decide_True by done.
        rewrite waiting_app, Hk. unfold waiting at 1. simpl.
        apply drop_snoc.
      * rewrite list_lookup_insert_ne in Hq' by done.
        rewrite decide_False by congruence. rewrite app_nil_r. by apply Hq.
  - constructor; simpl; try done.
    + by rewrite dispatches_app, dispatches_shutdown, app_nil_r.
    + intros w q Hq'. rewrite list_lookup_fmap in Hq'.
      destruct (index_queues (self st) !! w) as [q0|] eqn:Hq0; [|done].
      injection Hq' as <-. rewrite waiting_app.
      unfold waiting at 2. simpl. rewrite app_nil_r. by apply Hq.
Qed.

Lemma Rota_steps st st' : Rota ld st -> rtc (step ld) st st' -> Rota ld st'.
Proof. intros H Hs. induction Hs; eauto using Rota_step. Qed.


Lemma Life_booted script : Life ld (booted ld script).
Proof.
  constructor; simpl; try done.
  - by rewrite length_replicate.
  - rewrite <- list_fmap_compose. done.
  - apply Forall_replicate. by exists [].
  - intros _ v Hin. apply list_elem_of_singleton in Hin. done.
  - apply orderly_no_close. intros v Hin.
    apply list_elem_of_singleton in Hin. done.
Qed.

Lemma Life_passive st s' es :
  Life ld st ->
  worker_pids_set s' = worker_pids_set (self st) ->
  shutdown s' = shutdown (self st) ->
  has_pin_memory_thread s' = has_pin_memory_thread (self st) ->
  length (index_queues s') = length (index_queues (self st)) ->
  pid <$> workers s' = pid <$> workers (self st) ->
  Forall (fun q => exists items : list WorkItem,
            q = (Some <$> items) ++ if shutdown s' then [None] else [])
         (index_queues s') ->
  (shutdown s' = true -> sample_iter s' = []) ->
  Forall (fun e => match e with
                   | Waited _ | Outstanding _ | PutIndices _ => True
                   | Dispatch _ _ => shutdown s' = false
                   | _ => False
                   end) es ->
  forall wd,
    python_exit_status wd = python_exit_status (world st) ->
    trace wd = trace (world st) ++ es ->
    Life ld (mkState s' wd).
Proof.
  intros [L1 L2 L3 L4 L5 L6 L7 L8 L9 L10 L11 L12] E1 E2 E3 E4 E5 Hshape Hsrc Hes
    wd Hpy Htr.
  assert (Hocc : forall e,
    (forall t, e <> Waited t) -> (forall v, e <> Outstanding v) ->
    (forall v, e <> PutIndices v) -> (forall w k, e <> Dispatch w k) ->
    occurrences e es = 0%nat).
  { intros e H1 H2 H3 H4. apply occurrences_none.
    eapply Forall_impl; [exact Hes|]. intros [] He; simpl in He; try done;
      congruence. }
  assert (Hnc : forall v, IndexClose v ∉ es).
  { intros v Hin. rewrite Forall_forall in Hes. by apply Hes in Hin. }
  constructor; simpl; rewrite ?Htr, ?occurrences_app, ?E1, ?E2, ?E3, ?E4, ?E5;
    try done.
  - congruence.
  - by rewrite Hocc, L3.
  - by rewrite Hocc, L4.
  - by rewrite Hocc, L5.
  - by rewrite <- E2.
  - by rewrite <- E2.
  - intros Hsh v Hin. apply elem_of_app in Hin as [Hin|Hin].
    + by apply (L11 Hsh v).
    + by apply (Hnc v).
  - destruct (shutdown (self st)) eqn:Hsh.
    + apply orderly_neutral; [done| |done].
      intros w k Hin. rewrite Forall_forall in Hes. apply Hes in Hin.
      simpl in Hin. congruence.
    + apply orderly_open; [by apply L11|]. by apply orderly_no_close.
Qed.

Lemma Life_step st st' : Life ld st -> step ld st st' -> Life ld st'.
Proof.
  intros HL Hstep. pose proof HL as [L1 L2 L3 L4 L5 L6 L7 L8 L9 L10 L11 L12].
  destruct Hstep as [st r rest t He|st r rest He
    |st r rest c d idx p s1 He Hn Hidx|st r rest c d p s1 He Hn
    |st p Hp|st|st indices rest Hs Hnone|st indices rest q Hs Hsome Hlt
    |st Hpy Hsh Hs].
  - apply (Life_passive st (self st) [Waited t]); try done.
    by repeat constructor.
  - apply (Life_passive st (self st) []); try done. simpl.
    by rewrite app_nil_r.
  - apply arrival_shape in Hn
      as (w & item & q & Hw & _ & E0 & Ep & E1 & E2 & E3 & E4 & E5 & E6 & E7 & E8 & E9).
    apply (Life_passive st _ [Outstanding (batches_outstanding s1 - 1)]);
      simpl; rewrite ?E0, ?E4, ?E5, ?E9, ?E1, ?length_insert; try done.
    + apply Forall_insert; [done|].
      rewrite Forall_lookup in L9. destruct (L9 _ _ Hw) as [items Hitems].
      by apply shape_pop in Hitems.
    + by repeat constructor.
  - apply arrival_shape in Hn
      as (w & item & q & Hw & _ & E0 & Ep & E1 & E2 & E3 & E4 & E5 & E6 & E7 & E8 & E9).
    apply (Life_passive st _ [Outstanding (batches_outstanding s1 - 1)]);
      simpl; rewrite ?E0, ?E4, ?E5, ?E9, ?E1, ?length_insert; try done.
    + apply Forall_insert; [done|].
      rewrite Forall_lookup in L9. destruct (L9 _ _ Hw) as [items Hitems].
      by apply shape_pop in Hitems.
    + by repeat constructor.
  - apply (Life_passive st _ []); simpl; try done. by rewrite app_nil_r.
  - apply (Life_passive st (self st) [PutIndices (batches_outstanding (self st))]);
      try done. by repeat constructor.
  - assert (Hsh : shutdown (self st) = false).
    { destruct (shutdown (self st)); [|done]. rewrite L10 in Hs; done. }
    apply (Life_passive st _ [PutIndices (batches_outstanding (self st))]);
      simpl; try done.
    + by rewrite Hsh.
    + by repeat constructor.
  - assert (Hsh : shutdown (self st) = false).
    { destruct (shutdown (self st)); [|done]. rewrite L10 in Hs; done. }
    apply (Life_passive st _
             [PutIndices (batches_outstanding (self st));
              Dispatch (worker_queue_idx (self st)) (send_idx (self st));
              Outstanding (batches_outstanding (self st) + 1)]);
      simpl; rewrite ?length_insert, ?Hsh; try done.
    + rewrite Hsh in L9. apply Forall_insert; [done|].
      rewrite Forall_lookup in L9. destruct (L9 _ _ Hsome) as [items Hitems].
      rewrite app_nil_r in Hitems. subst q.
      exists (items ++ [(send_idx (self st), indices)]).
      by rewrite fmap_app, app_nil_r.
    + by repeat constructor.
  - constructor; simpl; rewrite ?occurrences_app, ?occurrences_shutdown; try done.
    + by rewrite L3.
    + rewrite L4, L2, Hsh. done.
    + rewrite L5, Hsh. done.
    + by rewrite length_fmap.
    + apply Forall_fmap. eapply Forall_impl; [exact L9|]. simpl.
      intros q [items ->]. rewrite Hsh, app_nil_r. by exists items.
    + apply orderly_open; [by apply L11|].
      apply orderly_no_dispatch. apply shutdown_events_no_dispatch.
Qed.

Lemma Life_steps st st' : Life ld st -> rtc (step ld) st st' -> Life ld st'.
Proof. intros H Hs. induction Hs; eauto using Life_step. Qed.

End Invariants.

(** *** A single worker *)

Section SingleWorker.
Variable ld : Loader.
Abbreviation W := (num_workers ld).

Lemma Single_booted script : W = 1%nat -> Single (booted ld script).
Proof.
  intros H1. constructor; simpl; try done. rewrite H1. by exists [].
Qed.

Lemma Single_arrival st c d idx p s1 :
  Single st -> next_result ld c d (self st) = Some ((idx, p), s1) ->
  idx = rcvd_idx s1
  /\ (rcvd_idx s1 < send_idx s1)%nat
  /\ reorder_dict s1 = ∅
  /\ exists q, index_queues s1 = [q]
       /\ waiting q = seq (S (rcvd_idx s1)) (send_idx s1 - S (rcvd_idx s1)).
Proof.
  intros [Hre Hle (q0 & Hq0 & Hwait)] Hn.
  apply arrival_shape in Hn
    as (w & item & q & Hw & Hitem & E0 & _ & E1 & E2 & E3 & E4 & E5 & E6 & E7 & E8 & E9).
  rewrite Hq0 in Hw, E0. destruct w as [|w]; [|done]. simpl in Hw, E0.
  injection Hw as ->. unfold waiting in Hwait. simpl in Hwait.
  rewrite E6, E7, E8.
  destruct (send_idx (self st) - rcvd_idx (self st))%nat as [|m] eqn:Hm;
    [done|].
  simpl in Hwait. injection Hwait as Hhd Htl.
  split; [congruence|]. split; [lia|]. split; [done|].
  exists q. split; [done|]. etrans; [exact Htl|]. f_equal. lia.
Qed.

Lemma Single_step st st' : Single st -> step ld st st' -> Single st'.
Proof.
  intros HS Hstep. pose proof HS as [Hre Hle (q0 & Hq0 & Hwait)].
  destruct Hstep as [st r rest t He|st r rest He
    |st r rest c d idx p s1 He Hn Hidx|st r rest c d p s1 He Hn
    |st p Hp|st|st indices rest Hs Hnone|st indices rest q Hs Hsome Hlt
    |st Hpy Hsh Hs].
  - constructor; simpl; eauto.
  - constructor; simpl; eauto.
  - by destruct (Single_arrival _ _ _ _ _ _ HS Hn) as [? _].
  - destruct (Single_arrival _ _ _ _ _ _ HS Hn) as (_ & Hlt & Hre1 & q & Hq & Hw).
    constructor; simpl; [done|lia|]. exists q. split; [done|].
    rewrite Hw. f_equal; lia.
  - rewrite Hre in Hp. done.
  - constructor; simpl; eauto.
  - constructor; simpl; eauto.
  - rewrite Hq0 in Hsome.
    destruct (worker_queue_idx (self st)) as [|w] eqn:Hc; [|done].
    simpl in Hsome. injection Hsome as <-.
    constructor; simpl; [done|lia|]. rewrite Hq0, Hc. simpl.
    eexists. split; [done|]. rewrite waiting_app, Hwait.
    unfold waiting at 1. simpl.
    replace (send_idx (self st) + 1 - rcvd_idx (self st))%nat
      with (S (send_idx (self st) - rcvd_idx (self st))) by lia.
    rewrite seq_S. do 2 f_equal. lia.
  - constructor; simpl; [done|done|]. rewrite Hq0. simpl.
    eexists. split; [done|]. rewrite waiting_app, Hwait.
    unfold waiting at 1. simpl. by rewrite app_nil_r.
Qed.

Lemma Single_steps st st' : Single st -> rtc (step ld) st st' -> Single st'.
Proof. intros H Hs. induction Hs; eauto using Single_step. Qed.

End SingleWorker.

(** *** One call of [next()] in any environment *)

Section Safety.
Variable ld : Loader.
Abbreviation W := (num_workers ld).
Abbreviation src := (batch_sampler ld).

Lemma receive_safe fuel st res st' :
  InvW ld (2 * W) (self st) ->
  reorder_dict (self st) !! rcvd_idx (self st) = None ->
  (rcvd_idx (self st) < send_idx (self st))%nat ->
  receive ld fuel st = (res, st') -> safe ld st res st'.
Proof.
  revert st. induction fuel as [|fuel IH]; intros st HI Hnone Hlt.
  { simpl. intros [= <- <-]. by right. }
  pose proof (pending_expected _ _ _ HI Hnone Hlt) as Hpend.
  pose proof (outstanding_bound _ _ _ HI) as Hb.
  pose proof (iw_out _ _ _ HI) as Hout.
  assert (0 < length (pend (self st)))%nat as Hlen
    by (destruct (pend (self st)); simpl; [done|lia]).
  assert (Hsh : shutdown (self st) = false).
  { pose proof (iw_live _ _ _ HI) as Hl. destruct (shutdown (self st)); [|done].
    by destruct Hl as (? & _). }
  simpl. mstep. rewrite Hsh. simpl.
  rewrite bool_decide_true by lia. simpl.
  destruct (_get_batch ld st) as [[[idx p]|e|] st1] eqn:Hg;
    pose proof (get_batch_general _ _ _ _ Hg) as [_ Hrecv]; simpl in Hrecv.
  2,3: intros [= <- <-]; right; by rewrite Hrecv.
  destruct Hrecv as [(c & d & Hn1) Henv].
  destruct (arrival_facts _ _ _ _ _ _ _ _ HI Hn1)
    as (ind & Hsrc & Hprod & Hrange & Hfresh & Hperm & E1 & E2 & E3 & E4 & E5
        & E6 & E7 & E8 & E9 & E10 & E11 & Hcopies & Hsome).
  case_bool_decide as Hidx.
  - simpl. intros Hrec.
    set (st3 := mkState _ _) in Hrec.
    assert (HI3 : InvW ld (2 * W) (self st3)).
    { subst st3. simpl. rewrite E7 in Hidx.
      by apply (recv_store ld c d (self st)). }
    assert (Hnone3 : reorder_dict (self st3) !! rcvd_idx (self st3) = None).
    { subst st3. simpl. rewrite E7, E8.
      rewrite lookup_insert_ne; [done|]. by rewrite <- E7. }
    assert (Hlt3 : (rcvd_idx (self st3) < send_idx (self st3))%nat).
    { subst st3. simpl. by rewrite E6, E7. }
    specialize (IH st3 HI3 Hnone3 Hlt3 Hrec).
    unfold safe in *. subst st3. simpl in IH. by rewrite E7 in IH.
  - subst idx. rewrite E7 in Hn1.
    destruct (recv_deliver _ _ _ _ _ _ HI Hn1) as (HI2 & _ & indices & Hsrc' & Hprod').
    set (st2 := mkState _ _).
    destruct (process_next_batch_spec ld p st2 HI2)
      as (s' & es & Hproc & HI' & Hes & Hr & Hre & Hrefill).
    rewrite Hproc. intros [= <- <-]. subst st2.
    simpl in Hr. rewrite E7 in Hr.
    left. simpl. split; [done|]. exists indices. split; [done|]. by exists p.
Qed.

Lemma next_safe st res st' :
  Inv ld st -> __next__ ld st = (res, st') -> safe ld st res st'.
Proof.
  intros [HI Htr Href]. pose proof (iw_workers _ _ _ HI) as HW.
  destruct (reorder_dict (self st) !! rcvd_idx (self st)) as [p|] eqn:Hp.
  - unfold __next__. mstep. rewrite bool_decide_false by lia. rewrite Hp.
    mstep. destruct (pop_deliver _ _ _ HI Hp) as (HI2 & _ & indices & Hsrc & Hprod).
    set (st2 := mkState _ _).
    destruct (process_next_batch_spec ld p st2 HI2)
      as (s' & es & Hproc & HI' & Hes & Hr & Hre & Hrefill).
    rewrite Hproc. intros [= <- <-]. subst st2. simpl in Hr.
    left. simpl. split; [done|]. exists indices. split; [done|]. by exists p.
  - destruct (decide (batches_outstanding (self st) = 0)) as [Hz|Hz].
    + unfold __next__. mstep. rewrite bool_decide_false by lia. rewrite Hp.
      rewrite bool_decide_true by done. mstep.
      destruct (decide (python_exit_status (world st) = Some false
                        /\ shutdown (self st) = false)) as [[Hpy Hsh]|Hno].
      * rewrite shutdown_body by done. simpl. intros [= <- <-]. by right.
      * rewrite shutdown_guarded.
        2:{ destruct (python_exit_status (world st)) as [[]|]; try (by left).
            right. destruct (shutdown (self st)); [done|].
            destruct Hno. done. }
        simpl. intros [= <- <-]. by right.
    + rewrite next_waiting by (done || lia).
      assert (Hlt : (rcvd_idx (self st) < send_idx (self st))%nat).
      { pose proof (iw_pend _ _ _ HI) as Hpend. rewrite (iw_out _ _ _ HI) in Hz.
        destruct (pend (self st)) as [|it l]; [done|].
        apply Forall_cons in Hpend as [(_ & ? & _) _]. lia. }
      by apply receive_safe.
Qed.

Lemma calls_sublist n st :
  Inv ld st ->
  exists l,
    l `sublist_of` drop (rcvd_idx (self st)) src
    /\ Forall2 (fun indices b => produced ld indices (Samples b))
         l (returned (calls ld n st).1).
Proof.
  revert st. induction n as [|n IH]; intros st HI; simpl.
  { exists []. split; [apply sublist_nil_l|constructor]. }
  destruct (__next__ ld st) as [r st1] eqn:Hn.
  pose proof (next_safe _ _ _ HI Hn) as Hsafe.
  apply next_spec in Hn as [HI1 _]; [|done].
  destruct (IH st1 HI1) as (l & Hsub & Hall).
  destruct (calls ld n st1) as [rs st2]. simpl in *.
  destruct Hsafe as [(Hr & indices & Hsrc & p & Hprod & ->)|[Hr Hnot]].
  - rewrite Hr, Nat.add_1_r in Hsub. rewrite (drop_S _ _ _ Hsrc).
    destruct p as [b|w]; simpl.
    + exists (indices :: l). split; [by apply sublist_skip|].
      by constructor.
    + exists l. split; [by apply sublist_cons|].
      unfold returned in *. simpl.
      by destruct (bool_decide _ && contains_newline _).
  - rewrite Hr in Hsub. exists l. split; [done|].
    unfold returned in *. simpl. destruct r as [b| |]; [|done..].
    by destruct (Hnot b).
Qed.

Lemma calls_app n k st :
  calls ld (n + k) st =
    let '(rs1, st1) := calls ld n st in
    let '(rs2, st2) := calls ld k st1 in
    (rs1 ++ rs2, st2).
Proof.
  revert st. induction n as [|n IH]; intros st; simpl.
  { by destruct (calls ld k st). }
  destruct (__next__ ld st) as [r st1]. rewrite IH.
  destruct (calls ld n st1) as [rs1 st2]. by destruct (calls ld k st2).
Qed.

End Safety.

(** *** The worker loop *)

Section WorkerLoop.
Variable ld : Loader.

Lemma loop_body_again ds r0 item0 r item :
  loop_body ld (loop_body ld ds r0 item0).2 r item = loop_body ld ds r item.
Proof.
  destruct item0 as [idx0 ind0], item as [idx ind].
  rewrite (loop_body_eq ld ds r0). simpl.
  rewrite !loop_body_eq. unfold select_scale.
  destruct (bool_decide (1 < length (scale ld))%nat && train ds) eqn:Hg; simpl.
  - rewrite Hg. done.
  - rewrite Hg. done.
Qed.

Lemma ms_loop_imap ds draws (items : list WorkItem) rest :
  _ms_loop ld ds draws ((Some <$> items) ++ None :: rest) =
    imap (fun i item => (loop_body ld ds (nth i draws 0%nat) item).1) items.
Proof.
  revert ds draws. induction items as [|item items IH]; intros ds draws; [done|].
  rewrite fmap_cons. simpl.
  destruct (loop_body ld ds (hd 0%nat draws) item) as [out ds'] eqn:Hb.
  rewrite IH. f_equal.
  - destruct draws; simpl in *; by rewrite Hb.
  - apply imap_ext. intros i it _. simpl.
    replace ds' with (loop_body ld ds (hd 0%nat draws) item).2 by (by rewrite Hb).
    rewrite loop_body_again. destruct draws as [|d draws]; simpl; [|done].
    by destruct i.
Qed.

Lemma ms_loop_open ds draws (items : list WorkItem) :
  _ms_loop ld ds draws (Some <$> items) =
    _ms_loop ld ds draws ((Some <$> items) ++ [None]).
Proof.
  revert ds draws. induction items as [|item items IH]; intros ds draws; [done|].
  rewrite fmap_cons. simpl.
  destruct (loop_body ld ds (hd 0%nat draws) item) as [out ds'].
  by rewrite IH.
Qed.
End WorkerLoop.

(** *** Priming the prefetch loop *)

Section Priming.
Variable ld : Loader.
Abbreviation W := (num_workers ld).
Abbreviation src := (batch_sampler ld).
Lemma booted_primed script :
  booted ld script = mkState (primed ld 0) (log SetWorkerPids (fresh_world script)).
Proof.
  unfold booted, primed. rewrite Nat.Div0.mod_0_l. do 2 f_equal.
  unfold dealt, share. simpl. clear.
  generalize 0%nat. induction W as [|n IH]; intros a; simpl; [done|].
  by rewrite (IH (S a)).
Qed.

Lemma dealt_S m indices :
  (1 <= W)%nat -> src !! m = Some indices ->
  <[(m `mod` W)%nat := dealt ld (m `mod` W)%nat m ++ [Some (m, indices)]]>
    ((fun w => dealt ld w m) <$> seq 0 W)
  = (fun w => dealt ld w (S m)) <$> seq 0 W.
Proof.
  intros HW Hm. apply list_eq. intros w.
  pose proof (Nat.mod_upper_bound m W ltac:(lia)) as Hlt.
  destruct (decide (w = m `mod` W)%nat) as [->|Hne].
  - rewrite list_lookup_insert_eq by (by rewrite length_fmap, length_seq).
    rewrite list_lookup_fmap, lookup_seq_lt by done. simpl.
    unfold dealt. rewrite (share_S ld), decide_True by done.
    rewrite fmap_app. simpl. by rewrite Hm.
  - rewrite list_lookup_insert_ne by done.
    rewrite !list_lookup_fmap. destruct (seq 0 W !! w) as [w'|] eqn:Hw; [|done].
    apply lookup_seq in Hw as [-> _]. simpl.
    unfold dealt. rewrite (share_S ld), decide_False by done.
    by rewrite app_nil_r.
Qed.

Lemma put_primed m wd :
  (1 <= W)%nat -> (m < 2 * W)%nat ->
  _put_indices ld (mkState (primed ld m) wd) =
    if decide (m < length src)%nat
    then (Ret tt,
          mkState (primed ld (S m))
            (logs [PutIndices (Z.of_nat m); Dispatch (m `mod` W)%nat m;
                   Outstanding (Z.of_nat (S m))] wd))
    else (Ret tt, mkState (primed ld m) (log (PutIndices (Z.of_nat m)) wd)).
Proof.
  intros HW Hm. unfold _put_indices. mstep.
  rewrite bool_decide_true by lia. simpl.
  pose proof (Nat.mod_upper_bound m W ltac:(lia)) as Hlt.
  case_decide as Hlen.
  - destruct (lookup_lt_is_Some_2 src m Hlen) as [indices Hind].
    rewrite (drop_S _ _ _ Hind). simpl.
    rewrite list_lookup_fmap, lookup_seq_lt by done. simpl.
    rewrite !log_logs, !logs_logs. simpl.
    rewrite (dealt_S _ _ HW Hind).
    replace (Z.of_nat m + 1) with (Z.of_nat (S m)) by lia.
    rewrite Nat.Div0.add_mod_idemp_l.
    unfold primed. by rewrite !Nat.add_1_r.
  - rewrite drop_ge by lia. done.
Qed.

Lemma prime_primed n m wd :
  (1 <= W)%nat -> (m <= length src)%nat -> (m + n <= 2 * W)%nat ->
  exists es,
    repeat_n n (_put_indices ld) (mkState (primed ld m) wd) =
      (Ret tt, mkState (primed ld (length src `min` (m + n))) (logs es wd)).
Proof.
  intros HW. revert m wd. induction n as [|n IH]; intros m wd Hm Hn; simpl.
  { exists []. rewrite logs_nil. do 3 f_equal. lia. }
  mstep. rewrite put_primed by lia. case_decide as Hlen.
  - destruct (IH (S m) (logs [PutIndices (Z.of_nat m); Dispatch (m `mod` W)%nat m;
                               Outstanding (Z.of_nat (S m))] wd))
      as [es Hes]; [lia..|].
    rewrite Hes. eexists. rewrite logs_logs. do 3 f_equal. lia.
  - destruct (IH m (log (PutIndices (Z.of_nat m)) wd)) as [es Hes]; [lia..|].
    rewrite Hes. eexists. rewrite log_logs, logs_logs.
    do 3 f_equal. lia.
Qed.

Lemma init_primed script :
  (1 <= W)%nat ->
  exists es,
    __init__ ld script =
      (Ret tt,
       mkState (primed ld (length src `min` (2 * W)))
         (logs (SetWorkerPids :: es) (fresh_world script))).
Proof.
  intros HW. unfold __init__, construct. mstep.
  rewrite bool_decide_true by lia. mstep.
  change (mkState (set_worker_pids_set true _) _) with (booted ld script).
  rewrite booted_primed.
  destruct (prime_primed (2 * W) 0 (log SetWorkerPids (fresh_world script)) HW)
    as [es Hes]; [lia..|].
  change (W + (W + 0))%nat with (2 * W)%nat.
  rewrite Hes. exists es. by rewrite log_logs, logs_logs.
Qed.
End Priming.

(** *** Whole runs *)

Section Runs.
Variable ld : Loader.
Abbreviation W := (num_workers ld).
Abbreviation src := (batch_sampler ld).
Lemma run_rota script n : (1 <= W)%nat -> Rota ld (run ld script n).2.
Proof.
  intros HW.
  eapply Rota_steps; [apply Rota_booted|by apply run_steps].
Qed.

Lemma run_life script n : (1 <= W)%nat -> Life ld (run ld script n).2.
Proof.
  intros HW.
  eapply Life_steps; [apply Life_booted|by apply run_steps].
Qed.

Lemma run_returned script n :
  (1 <= W)%nat ->
  exists l,
    l `sublist_of` src
    /\ Forall2 (fun indices b => produced ld indices (Samples b))
         l (returned (run ld script n).1).
Proof.
  intros HW.
  destruct (init_spec ld script HW) as (s' & es & Hi & HI & Hr & _).
  unfold run. rewrite Hi. simpl.
  destruct (calls_sublist ld n _ HI) as (l & Hsub & Hall).
  simpl in Hsub. rewrite Hr in Hsub. eauto.
Qed.

Lemma exhausted_state st :
  Inv ld st -> rcvd_idx (self st) = length src ->
  reorder_dict (self st) = ∅ /\ batches_outstanding (self st) = 0
  /\ pend (self st) = [] /\ sample_iter (self st) = []
  /\ send_idx (self st) = length src.
Proof.
  intros [HI _ _] Hr.
  pose proof (iw_send _ _ _ HI). pose proof (iw_count _ _ _ HI) as Hc.
  pose proof (iw_out _ _ _ HI) as Ho. pose proof (iw_src _ _ _ HI) as Hs.
  assert (Hsend : send_idx (self st) = length src) by lia.
  rewrite Hsend, Hr, Nat.sub_diag in Hc.
  assert (Hp : pend (self st) = []) by (destruct (pend (self st)); [done|simpl in Hc; lia]).
  rewrite Hp in Hc, Ho. simpl in *.
  split; [apply map_size_empty_iff; lia|]. split; [done|]. split; [done|].
  split; [|done]. rewrite Hs, Hsend. apply drop_all.
Qed.

Lemma stop_fixed st :
  num_workers ld <> 0%nat ->
  reorder_dict (self st) !! rcvd_idx (self st) = None ->
  batches_outstanding (self st) = 0 ->
  _shutdown_workers st = (Ret tt, st) ->
  forall k, calls ld k st = (replicate k stop, st).
Proof.
  intros HW' Hp Hz Hsh. induction k as [|k IH]; simpl; [done|].
  unfold __next__. mstep. rewrite bool_decide_false by done. rewrite Hp.
  rewrite bool_decide_true by done. mstep. rewrite Hsh. simpl.
  by rewrite IH.
Qed.

End Runs.

(** *** The end of a run *)

Section RunFacts.
Variable ld : Loader.
Abbreviation W := (num_workers ld).
Abbreviation src := (batch_sampler ld).

Lemma Forall_queue {A} (P : A -> Prop) (qs : list (list (option A))) w q :
  Forall P (omap id (concat qs)) -> qs !! w = Some q -> Forall P (omap id q).
Proof.
  intros Hall Hq. rewrite <- (take_drop_middle qs w q Hq) in Hall.
  rewrite concat_app, omap_app in Hall. simpl in Hall.
  rewrite omap_app in Hall.
  apply Forall_app in Hall as [_ Hall]. by apply Forall_app in Hall as [? _].
Qed.

Lemma idle_queue (s : Iter) (b : bool) q (items : list WorkItem) :
  pend s = [] -> q ∈ index_queues s ->
  q = (Some <$> items) ++ (if b then [None] else []) -> items = [].
Proof.
  intros Hp Hin ->. apply list_elem_of_lookup in Hin as [w Hw].
  assert (Hall : Forall (fun _ => False) (omap id (concat (index_queues s)))).
  { unfold pend in Hp. by rewrite Hp. }
  pose proof (Forall_queue _ _ _ _ Hall Hw) as Hq.
  destruct items as [|it items]; [done|].
  rewrite fmap_cons in Hq. simpl in Hq. by apply Forall_cons in Hq as [[] _].
Qed.

Lemma del_run st :
  (1 <= W)%nat -> Life ld st ->
  exists st',
    __del__ ld st = (Ret tt, st') /\ __del__ ld st' = (Ret tt, st')
    /\ shutdown (self st') = true /\ worker_pids_set (self st') = false
    /\ occurrences SetWorkerPids (trace (world st')) = 1%nat
    /\ occurrences RemoveWorkerPids (trace (world st')) = 1%nat
    /\ occurrences DoneEventSet (trace (world st')) = 1%nat
    /\ Forall (fun q => exists items : list WorkItem, q = (Some <$> items) ++ [None])
         (index_queues (self st'))
    /\ orderly (trace (world st')).
Proof.
  intros HW [L1 L2 L3 L4 L5 L6 L7 L8 L9 L10 L11 L12].
  unfold __del__. rewrite bool_decide_true by lia.
  destruct (shutdown (self st)) eqn:Hsh.
  - exists st. rewrite shutdown_guarded by (by right).
    simpl in L2. done.
  - eexists. rewrite shutdown_body by done. split; [done|].
    rewrite shutdown_guarded by (by right). split; [done|]. simpl.
    rewrite !occurrences_app, !occurrences_shutdown, L2, L3, L4, L5. simpl.
    do 5 (split; [done|]). split.
    + apply Forall_fmap. eapply Forall_impl; [exact L9|]. simpl.
      intros q [items ->]. rewrite app_nil_r. by exists items.
    + apply orderly_open; [by apply L11|].
      apply orderly_no_dispatch. apply shutdown_events_no_dispatch.
Qed.

Lemma sync_calls_state l k st :
  num_workers ld = 0%nat -> sample_iter (self st) = l ->
  calls ld (length l + k) st =
    ((sync_outcome ld <$> l) ++ replicate k stop,
     mkState (set_sample_iter [] (self st)) (world st)).
Proof.
  intros HW. revert st. induction l as [|indices l IH]; intros st Hs.
  - assert (Hst : mkState (set_sample_iter [] (self st)) (world st) = st).
    { destruct st as [[] ?]. simpl in *. by subst. }
    rewrite Hst. simpl. clear Hst.
    induction k as [|k IHk]; simpl; [done|].
    rewrite sync_next, Hs by done. by rewrite IHk.
  - simpl. rewrite sync_next, Hs by done.
    rewrite (IH (mkState (set_sample_iter l (self st)) (world st)) eq_refl).
    done.
Qed.

Lemma next_waits st :
  num_workers ld <> 0%nat ->
  reorder_dict (self st) !! rcvd_idx (self st) = None ->
  0 < batches_outstanding (self st) -> shutdown (self st) = false ->
  forall res st',
    _get_batch ld st = (res, st') -> (forall data, res <> Ret data) ->
    exists e, __next__ ld st = (e, st')
      /\ match res with
         | Raise x => e = Raise x
         | _ => e = Blocked
         end.
Proof.
  intros HW Hp Hz Hsh res st' Hg Hres.
  rewrite next_waiting by (done || lia). simpl. mstep.
  rewrite Hsh. simpl. rewrite bool_decide_true by done. simpl.
  rewrite Hg. destruct res as [data|x|]; [by destruct (Hres data)|eauto..].
Qed.
End RunFacts.

(** *** A patient environment *)

Section Patience.
Variable ld : Loader.
Abbreviation W := (num_workers ld).
Abbreviation src := (batch_sampler ld).

Lemma put_indices_frame st res st' :
  _put_indices ld st = (res, st') ->
  workers (self st') = workers (self st)
  /\ env (world st') = env (world st)
  /\ relay_alive (world st') = relay_alive (world st).
Proof.
  unfold _put_indices. mstep.
  case_bool_decide as Hlt; simpl; [|by intros [= <- <-]].
  destruct (sample_iter (self st)) as [|indices rest]; [by intros [= <- <-]|].
  simpl. destruct (index_queues (self st) !! worker_queue_idx (self st));
    simpl; by intros [= <- <-].
Qed.

Lemma all_alive (r : Response) (ws : list Worker) :
  forallb (fun i => alive_after r (pid_of ld i)) (seq 0 W) = true ->
  pid <$> ws = pid_of ld <$> seq 0 W ->
  forallb (fun w => alive_after r (pid w)) ws = true.
Proof.
  intros Hall Hp. apply forallb_forall. intros w Hw.
  apply list_elem_of_In in Hw.
  assert (Hin : pid w ∈ pid <$> ws) by (by apply list_elem_of_fmap_2).
  rewrite Hp in Hin. apply list_elem_of_fmap in Hin as (i & -> & Hi).
  rewrite forallb_forall in Hall. apply Hall. by apply list_elem_of_In.
Qed.

(** The polling loops under a patient script: the empty polls are sat
    out, and the next arrival is returned. *)
Lemma poll_patient (pinned : bool) envl : forall fuel st res st',
  env (world st) = envl ->
  (length envl < fuel)%nat ->
  Patient ld st -> (1 <= arrivals envl)%nat ->
  pend (self st) <> [] ->
  Forall (Forall is_Some) (index_queues (self st)) ->
  length (workers (self st)) = length (index_queues (self st)) ->
  (if pinned then relay_poll ld fuel st else poll ld fuel st) = (res, st') ->
  (exists data, res = Ret data)
  /\ relay_alive (world st') = true
  /\ forallb (patient ld) (env (world st')) = true
  /\ (arrivals (env (world st')) + 1 = arrivals envl)%nat.
Proof.
  induction envl as [|r rest IH];
    intros fuel st res st' He Hfuel (Hrel & Hpat & Hpids) Harr Hne Hsome Hlen.
  { simpl in Harr. lia. }
  destruct fuel as [|fuel]; [simpl in Hfuel; lia|].
  rewrite He in Hpat. simpl in Hpat, Harr, Hfuel.
  apply andb_prop in Hpat as [Hr Hpat].
  assert (Hstep :
    (if pinned then relay_poll ld (S fuel) st else poll ld (S fuel) st) =
      bind (_try_get_batch ld MP_STATUS_CHECK_INTERVAL)
        (fun r => match r with
                  | Some data => ret data
                  | None =>
                      fun st => if pinned then relay_poll ld fuel st
                                else poll ld fuel st
                  end) st).
  { destruct pinned; simpl; mstep; rewrite ?Hrel; mstep;
      destruct (_try_get_batch ld MP_STATUS_CHECK_INTERVAL st) as [[[|]| |] ?];
      done. }
  rewrite Hstep. clear Hstep. unfold bind.
  unfold patient in Hr. destruct (arrival r) as [c d| |e] eqn:Ha; [| |done].
  - destruct (next_result_some ld c d _ Hne Hsome Hlen) as [[data s1] Hn].
    rewrite (try_get_got ld _ _ _ _ _ _ _ _ He Ha Hn). simpl.
    intros [= <- <-]. simpl. rewrite Ha.
    split; [eauto|]. split; [done|]. split; [done|lia].
  - apply andb_prop in Hr as [Hr Halive].
    rewrite (try_get_silent ld _ _ _ _ He) by eauto.
    unfold after_failure, is_alive. simpl.
    rewrite (all_alive r _ Halive Hpids). simpl.
    intros Hrec.
    eapply (IH fuel) in Hrec; simpl; try done; try lia.
    destruct Hrec as (H1 & H2 & H3 & H4). simpl. rewrite Ha.
    split; [done|]. split; [done|]. split; [done|lia].
Qed.

Lemma get_batch_patient st res st' :
  ~ 0 < timeout ld ->
  Patient ld st -> (1 <= arrivals (env (world st)))%nat ->
  pend (self st) <> [] ->
  Forall (Forall is_Some) (index_queues (self st)) ->
  length (workers (self st)) = length (index_queues (self st)) ->
  _get_batch ld st = (res, st') ->
  (exists data, res = Ret data)
  /\ relay_alive (world st') = true
  /\ forallb (patient ld) (env (world st')) = true
  /\ (arrivals (env (world st')) + 1 = arrivals (env (world st)))%nat.
Proof.
  intros Ht HP Harr Hne Hsome Hlen. rewrite get_batch_polling by done.
  apply (poll_patient (self_pin_memory ld) (env (world st))); try done. lia.
Qed.

Lemma receive_patient fuel st res st' :
  ~ 0 < timeout ld ->
  InvW ld (2 * W) (self st) ->
  reorder_dict (self st) !! rcvd_idx (self st) = None ->
  (rcvd_idx (self st) < send_idx (self st))%nat ->
  Patient ld st ->
  (need ld (self st) <= arrivals (env (world st)))%nat ->
  (length (env (world st)) < fuel)%nat ->
  receive ld fuel st = (res, st') ->
  Patient ld st'
  /\ (need ld (self st') <= arrivals (env (world st')))%nat
  /\ progress ld st res st'.
Proof.
  intros Ht. revert st.
  induction fuel as [|fuel IH]; intros st HI Hnone Hlt HP Hn Hfuel; [lia|].
  pose proof (pending_expected _ _ _ HI Hnone Hlt) as Hpend.
  pose proof (outstanding_bound _ _ _ HI) as Hb.
  pose proof (iw_out _ _ _ HI) as Hout.
  assert (0 < length (pend (self st)))%nat as Hlen
    by (destruct (pend (self st)); simpl; [done|lia]).
  assert (Hsh : shutdown (self st) = false).
  { pose proof (iw_live _ _ _ HI) as Hl. destruct (shutdown (self st)); [|done].
    by destruct Hl as (? & _). }
  assert (Hneed : (1 <= need ld (self st))%nat).
  { unfold need. pose proof (iw_count _ _ _ HI). pose proof (iw_send _ _ _ HI). lia. }
  simpl. mstep. rewrite Hsh. simpl.
  rewrite bool_decide_true by lia. simpl.
  destruct (_get_batch ld st) as [r st1] eqn:Hg.
  pose proof (iw_live _ _ _ HI) as Hl. rewrite Hsh in Hl.
  destruct (get_batch_patient st r st1 Ht HP ltac:(lia) Hpend Hl)
    as ((data & Hdata) & Hrel1 & Hpat1 & Harr1); [|done|].
  { by rewrite (iw_queues _ _ _ HI), (iw_procs _ _ _ HI). }
  subst r. destruct data as [idx p].
  pose proof (get_batch_general _ _ _ _ Hg) as [_ Hrecv]. simpl in Hrecv.
  destruct Hrecv as [(c & d & Hn1) Henv].
  destruct (arrival_facts _ _ _ _ _ _ _ _ HI Hn1)
    as (ind & Hsrc & Hprod & Hrange & Hfresh & Hperm & E1 & E2 & E3 & E4 & E5
        & E6 & E7 & E8 & E9 & E10 & E11 & Hcopies & Hsome).
  assert (Hpids1 : pid <$> workers (self st1) = pid_of ld <$> seq 0 W).
  { apply arrival_shape in Hn1 as (_ & _ & _ & _ & _ & _ & Hp & _).
    destruct HP as (_ & _ & HP). by rewrite Hp. }
  case_bool_decide as Hidx.
  - simpl. intros Hrec.
    set (st3 := mkState _ _) in Hrec.
    assert (HI3 : InvW ld (2 * W) (self st3)).
    { subst st3. simpl. rewrite E7 in Hidx.
      by apply (recv_store ld c d (self st)). }
    assert (Hnone3 : reorder_dict (self st3) !! rcvd_idx (self st3) = None).
    { subst st3. simpl. rewrite E7, E8.
      rewrite lookup_insert_ne; [done|]. by rewrite <- E7. }
    assert (Hlt3 : (rcvd_idx (self st3) < send_idx (self st3))%nat).
    { subst st3. simpl. by rewrite E6, E7. }
    assert (HP3 : Patient ld st3) by (subst st3; done).
    assert (Hn3 : (need ld (self st3) <= arrivals (env (world st3)))%nat).
    { subst st3. simpl. unfold need in *. simpl. rewrite E7, E8.
      rewrite map_size_insert_None by done. lia. }
    assert (Hfuel3 : (length (env (world st3)) < fuel)%nat).
    { subst st3. simpl. lia. }
    destruct (IH st3 HI3 Hnone3 Hlt3 HP3 Hn3 Hfuel3 Hrec) as (HP' & Hn' & Hprog).
    split; [done|]. split; [done|].
    unfold progress in *. subst st3. simpl in Hprog.
    by rewrite E7 in Hprog.
  - subst idx. rewrite E7 in Hn1.
    destruct (recv_deliver _ _ _ _ _ _ HI Hn1) as (HI2 & _ & indices & Hsrc' & Hprod').
    set (st2 := mkState _ _).
    destruct (process_next_batch_spec ld p st2 HI2)
      as (s' & es & Hproc & HI' & Hes & Hr & Hre & Hrefill).
    pose proof Hproc as Hproc'. rewrite process_unfold in Hproc'.
    destruct (_put_indices ld (bump st2)) as [r2 st4] eqn:Hput.
    apply put_indices_frame in Hput as (Hw4 & He4 & Hr4).
    injection Hproc' as _ Hst4. subst st4. simpl in Hw4, He4, Hr4.
    rewrite Hproc. intros [= <- <-]. subst st2.
    simpl in Hr, Hre. rewrite E7 in Hr. rewrite E8 in Hre.
    split; [|split].
    + split; [done|]. split; [done|]. simpl. by rewrite Hw4.
    + unfold need in *. simpl. rewrite Hr, Hre. lia.
    + left. simpl. rewrite Hr. split; [done|]. eauto.
Qed.

Lemma next_patient st res st' :
  ~ 0 < timeout ld ->
  Inv ld st -> Patient ld st ->
  (need ld (self st) <= arrivals (env (world st)))%nat ->
  __next__ ld st = (res, st') ->
  Patient ld st'
  /\ (need ld (self st') <= arrivals (env (world st')))%nat
  /\ progress ld st res st'.
Proof.
  intros Ht [HI Htr Href] HP Hn. pose proof (iw_workers _ _ _ HI) as HW.
  destruct (reorder_dict (self st) !! rcvd_idx (self st)) as [p|] eqn:Hp.
  - unfold __next__. mstep. rewrite bool_decide_false by lia. rewrite Hp.
    mstep. destruct (pop_deliver _ _ _ HI Hp) as (HI2 & _ & indices & Hsrc & Hprod).
    set (st2 := mkState _ _).
    destruct (process_next_batch_spec ld p st2 HI2)
      as (s' & es & Hproc & HI' & Hes & Hr & Hre & Hrefill).
    pose proof Hproc as Hproc'. rewrite process_unfold in Hproc'.
    destruct (_put_indices ld (bump st2)) as [r2 st4] eqn:Hput.
    apply put_indices_frame in Hput as (Hw4 & He4 & Hr4).
    injection Hproc' as _ Hst4. subst st4. simpl in Hw4, He4, Hr4.
    rewrite Hproc. intros [= <- <-]. subst st2. simpl in Hr, Hre.
    destruct HP as (HP1 & HP2 & HP3).
    split; [|split].
    + split; [done|]. split; [done|]. simpl. by rewrite Hw4.
    + unfold need in *. simpl. rewrite Hr, Hre.
      rewrite map_size_delete_Some by eauto.
      assert (0 < size (reorder_dict (self st)))%nat.
      { destruct (decide (size (reorder_dict (self st)) = 0%nat)) as [Hz|];
          [|lia].
        apply map_size_empty_iff in Hz. rewrite Hz in Hp. done. }
      pose proof (lookup_lt_Some _ _ _ Hsrc). lia.
    + left. simpl. rewrite Hr. split; [done|]. eauto.
  - destruct (decide (batches_outstanding (self st) = 0)) as [Hz|Hz].
    + unfold __next__. mstep. rewrite bool_decide_false by lia. rewrite Hp.
      rewrite bool_decide_true by done.
      assert (Hnil : pend (self st) = []).
      { rewrite (iw_out _ _ _ HI) in Hz. destruct (pend (self st)); [done|].
        simpl in Hz. lia. }
      destruct (all_delivered _ _ HI Hp Hnil) as [Hr Hs].
      mstep.
      destruct (decide (python_exit_status (world st) = Some false
                        /\ shutdown (self st) = false)) as [[Hpy Hsh]|Hno].
      * rewrite shutdown_body by done. simpl. intros [= <- <-].
        split; [done|]. split; [done|]. by right.
      * rewrite shutdown_guarded.
        2:{ destruct (python_exit_status (world st)) as [[]|]; try (by left).
            right. destruct (shutdown (self st)); [done|].
            destruct Hno. done. }
        simpl. intros [= <- <-]. split; [done|]. split; [done|]. by right.
    + rewrite next_waiting by (done || lia).
      assert (Hlt : (rcvd_idx (self st) < send_idx (self st))%nat).
      { pose proof (iw_pend _ _ _ HI) as Hpend. rewrite (iw_out _ _ _ HI) in Hz.
        destruct (pend (self st)) as [|it l]; [done|].
        apply Forall_cons in Hpend as [(_ & ? & _) _]. lia. }
      apply receive_patient; try done. lia.
Qed.

Lemma calls_patient m k st :
  ~ 0 < timeout ld ->
  Inv ld st -> Patient ld st ->
  (need ld (self st) <= arrivals (env (world st)))%nat ->
  (length src - rcvd_idx (self st))%nat = m ->
  exists outs st',
    calls ld (m + k) st = (outs ++ replicate k stop, st')
    /\ Forall2 (handed_over ld) (drop (rcvd_idx (self st)) src) outs.
Proof.
  intros Ht. revert st. induction m as [|m IH]; intros st HI HP Hn Hm.
  - pose proof (iw_rcvd _ _ _ (inv_window _ _ HI)).
    pose proof (iw_send _ _ _ (inv_window _ _ HI)).
    assert (Hr : rcvd_idx (self st) = length src) by lia.
    exists []. simpl. rewrite drop_ge by lia.
    clear Hm H H0. revert st HI HP Hn Hr.
    induction k as [|k IHk]; intros st HI HP Hn Hr; simpl.
    { exists st. split; [done|constructor]. }
    destruct (__next__ ld st) as [r st1] eqn:Hnext.
    pose proof (next_patient _ _ _ Ht HI HP Hn Hnext) as (HP1 & Hn1 & Hprog).
    apply next_spec in Hnext as [HI1 _]; [|done].
    destruct Hprog as [(_ & ind & p & Hsrc & _)|(_ & Hr1 & ->)].
    { apply lookup_lt_Some in Hsrc. lia. }
    destruct (IHk st1 HI1 HP1 Hn1 ltac:(congruence)) as (st' & Hc & _).
    rewrite Hc. exists st'. split; [done|constructor].
  - simpl. destruct (__next__ ld st) as [r st1] eqn:Hnext.
    pose proof (next_patient _ _ _ Ht HI HP Hn Hnext) as (HP1 & Hn1 & Hprog).
    apply next_spec in Hnext as [HI1 _]; [|done].
    destruct Hprog as [(Hr1 & ind & p & Hsrc & Hprod & ->)|(Hr & _)]; [|lia].
    destruct (IH st1 HI1 HP1 Hn1 ltac:(lia)) as (outs & st' & Hc & Hall).
    rewrite Hc. exists (deliver p :: outs), st'. split; [done|].
    rewrite (drop_S _ _ _ Hsrc). constructor.
    + by exists p.
    + by rewrite Hr1, Nat.add_1_r in Hall.
Qed.

Lemma run_patient script k :
  (1 <= W)%nat -> ~ 0 < timeout ld ->
  forallb (patient ld) script = true ->
  (length src <= arrivals script)%nat ->
  exists outs st',
    run ld script (length src + k) = (outs ++ replicate k stop, st')
    /\ Forall2 (handed_over ld) src outs.
Proof.
  intros HW Ht Hpat Hlen.
  destruct (init_spec ld script HW) as (s' & es & Hi & HI & Hr & Hre & _).
  assert (HL : Life ld (__init__ ld script).2).
  { eapply Life_steps; [apply Life_booted|by apply init_steps]. }
  unfold run. rewrite Hi in *. simpl in *.
  destruct (calls_patient (length src) k _ Ht HI) as (outs & st' & Hc & Hall).
  - split; [done|]. split; [done|]. apply (life_workers _ _ HL).
  - unfold need. simpl. rewrite Hr, Hre, map_size_empty. lia.
  - simpl. rewrite Hr. lia.
  - simpl in Hall. rewrite Hr in Hall. eauto.
Qed.

End Patience.

(** *** Counting sequence numbers *)

Section Counting.

Lemma residue_slack (n r a : nat) (D : gset nat) :
  (1 <= n)%nat -> (a < n)%nat ->
  (forall k, k ∈ D -> (r <= k < r + 2 * n)%nat /\ (k `mod` n)%nat <> a) ->
  (size D <= 2 * (n - 1))%nat.
Proof.
  intros Hn Ha HD.
  set (x := (r + (a + n - r `mod` n) `mod` n)%nat).
  assert (Hx : (x `mod` n)%nat = a).
  { unfold x. rewrite Nat.Div0.add_mod_idemp_r.
    pose proof (Nat.mod_upper_bound r n ltac:(lia)).
    rewrite (Nat.div_mod_eq r n) at 1.
    replace (n * (r `div` n) + r `mod` n + (a + n - r `mod` n))%nat
      with (a + (r `div` n + 1) * n)%nat by lia.
    rewrite Nat.Div0.mod_add. by apply Nat.mod_small. }
  assert (Hx' : ((x + n) `mod` n)%nat = a).
  { replace (x + n)%nat with (x + 1 * n)%nat by lia.
    by rewrite Nat.Div0.mod_add. }
  assert (Hrange : (r <= x < r + n)%nat).
  { unfold x. pose proof (Nat.mod_upper_bound (a + n - r `mod` n) n ltac:(lia)).
    lia. }
  assert (Hsub : D ⊆ set_seq r (2 * n) ∖ {[x; (x + n)%nat]}).
  { intros k Hk. destruct (HD k Hk) as [Hr Hm].
    apply elem_of_difference. split; [apply elem_of_set_seq; lia|].
    intros Hin. apply elem_of_union in Hin as [Hin|Hin];
      apply elem_of_singleton in Hin; congruence. }
  apply subseteq_size in Hsub. rewrite size_difference in Hsub.
  - rewrite size_set_seq in Hsub. rewrite size_union in Hsub.
    + rewrite !size_singleton in Hsub. lia.
    + apply disjoint_singleton_l. intros Hin.
      apply elem_of_singleton in Hin. lia.
  - intros k Hin. apply elem_of_set_seq.
    apply elem_of_union in Hin as [Hin|Hin]; apply elem_of_singleton in Hin; lia.
Qed.

Lemma filter_seq_increasing (P : nat -> Prop) `{!forall i, Decision (P i)} n :
  forall i j x y,
    filter P (seq 0 n) !! i = Some x -> filter P (seq 0 n) !! j = Some y ->
    (i < j)%nat -> (x < y)%nat.
Proof.
  induction n as [|n IH]; intros i j x y Hi Hj Hij; [done|].
  rewrite seq_S, filter_app in Hi, Hj. simpl in Hi, Hj.
  assert (Hbound : forall i x, filter P (seq 0 n) !! i = Some x -> (x < n)%nat).
  { intros i' x' Hlk. apply list_elem_of_lookup_2, list_elem_of_filter in Hlk as [_ Hlk].
    apply elem_of_seq in Hlk. lia. }
  apply lookup_app_Some in Hj as [Hj|[Hlen Hj]].
  - apply lookup_app_Some in Hi as [Hi|[Hlen' Hi]].
    + by apply (IH i j).
    + apply lookup_lt_Some in Hj. lia.
  - apply lookup_app_Some in Hi as [Hi|[Hlen' Hi]].
    + apply Hbound in Hi.
      apply list_elem_of_lookup_2, list_elem_of_filter in Hj as [_ Hj].
      apply list_elem_of_singleton in Hj. lia.
    + apply lookup_lt_Some in Hi, Hj.
      rewrite filter_cons, filter_nil in Hi, Hj.
      destruct (decide (P n)); simpl in *; lia.
Qed.

Lemma pend_elem (qs : list (list (option WorkItem))) (it : WorkItem) :
  it ∈ omap id (concat qs) <-> exists w q, qs !! w = Some q /\ it ∈ omap id q.
Proof.
  rewrite list_elem_of_omap. split.
  - intros (o & Ho & Hid). apply list_elem_of_In, in_concat in Ho as (q & Hq & Hoq).
    apply list_elem_of_In, list_elem_of_lookup in Hq as [w Hw]. exists w, q.
    split; [done|]. apply list_elem_of_omap. exists o.
    split; [by apply list_elem_of_In|done].
  - intros (w & q & Hw & Hit). apply list_elem_of_omap in Hit as (o & Ho & Hid).
    exists o. split; [|done]. apply list_elem_of_In, in_concat. exists q.
    split; apply list_elem_of_In; [by eapply list_elem_of_lookup_2|done].
Qed.

End Counting.

(** *** The size of the reorder buffer *)

Section Buffer.
Variable ld : Loader.
Abbreviation W := (num_workers ld).
Abbreviation src := (batch_sampler ld).

Lemma expected_pending s :
  InvW ld (2 * W) s ->
  reorder_dict s !! rcvd_idx s = None ->
  (rcvd_idx s < send_idx s)%nat ->
  rcvd_idx s ∈ (pend s).*1.
Proof.
  intros HI Hnone Hlt.
  set (P := list_to_set (pend s).*1 : gset nat).
  set (D := dom (reorder_dict s) : gset nat).
  assert (Hdisj : P ## D).
  { intros k HP HD. apply elem_of_list_to_set, list_elem_of_fmap in HP
      as (it & -> & Hit).
    pose proof (iw_pend _ _ _ HI) as Hp.
    rewrite Forall_forall in Hp. destruct (Hp it Hit) as (_ & _ & Hn).
    apply elem_of_dom in HD as [? HD]. congruence. }
  assert (Hsub : P ∪ D ⊆ set_seq (rcvd_idx s) (send_idx s - rcvd_idx s)).
  { intros k Hk. apply elem_of_set_seq. apply elem_of_union in Hk as [HP|HD].
    - apply elem_of_list_to_set, list_elem_of_fmap in HP as (it & -> & Hit).
      pose proof (iw_pend _ _ _ HI) as Hp.
      rewrite Forall_forall in Hp. destruct (Hp it Hit) as (_ & ? & _). lia.
    - apply elem_of_dom in HD as [p HD].
      destruct (iw_reorder _ _ _ HI _ _ HD) as [? _]. lia. }
  assert (Hsize : size (P ∪ D) = (send_idx s - rcvd_idx s)%nat).
  { rewrite size_union by done. unfold P, D.
    rewrite size_list_to_set by apply (iw_nodup _ _ _ HI).
    rewrite length_fmap, size_dom. apply (iw_count _ _ _ HI). }
  assert (Heq : P ∪ D ≡ set_seq (rcvd_idx s) (send_idx s - rcvd_idx s)).
  { apply set_subseteq_size_equiv; [done|]. rewrite size_set_seq. lia. }
  assert (Hin : rcvd_idx s ∈ P ∪ D).
  { apply Heq, elem_of_set_seq. lia. }
  apply elem_of_union in Hin as [HP|HD].
  - by apply elem_of_list_to_set in HP.
  - apply elem_of_dom in HD as [? HD]. congruence.
Qed.

Lemma waiting_pend s w q k :
  index_queues s !! w = Some q -> k ∈ waiting q -> k ∈ (pend s).*1.
Proof.
  intros Hq Hk. unfold waiting in Hk.
  apply list_elem_of_fmap in Hk as (it & -> & Hit).
  apply list_elem_of_fmap. exists it. split; [done|].
  apply pend_elem. by exists w, q.
Qed.

(** While the expected result is outstanding, its worker has no result
    in the reorder buffer: it answers its queue in order. *)
Lemma expected_worker_slack s :
  InvW ld (2 * W) s -> Dealt ld s ->
  reorder_dict s !! rcvd_idx s = None ->
  (rcvd_idx s < send_idx s)%nat ->
  forall k, is_Some (reorder_dict s !! k) ->
    (k `mod` W)%nat <> (rcvd_idx s `mod` W)%nat.
Proof.
  intros HI HD Hnone Hlt k [p Hk] Hmod.
  destruct (iw_reorder _ _ _ HI _ _ Hk) as [Hrange _].
  assert (Hne : k <> rcvd_idx s) by congruence.
  pose proof (expected_pending s HI Hnone Hlt) as Hpend.
  apply list_elem_of_fmap in Hpend as (it & Hit1 & Hit).
  apply pend_elem in Hit as (w & q & Hq & Hit).
  destruct (HD w q Hq) as [j Hj].
  assert (Hrw : rcvd_idx s ∈ waiting q).
  { unfold waiting. apply list_elem_of_fmap. by exists it. }
  rewrite Hj in Hrw. apply list_elem_of_lookup in Hrw as [i1 Hi1].
  rewrite lookup_drop in Hi1.
  assert (Hw : (rcvd_idx s `mod` W)%nat = w).
  { apply list_elem_of_lookup_2 in Hi1.
    by apply list_elem_of_filter in Hi1 as [? _]. }
  assert (Hks : k ∈ share ld w (send_idx s)).
  { apply list_elem_of_filter. split; [congruence|]. apply elem_of_seq. lia. }
  apply list_elem_of_lookup in Hks as [i2 Hi2].
  assert (Hlate : (j + i1 < i2)%nat).
  { destruct (decide (j + i1 < i2)%nat) as [|Hge]; [done|].
    destruct (decide (i2 = j + i1)%nat) as [->|Hneq]; [congruence|].
    pose proof (filter_seq_increasing _ _ _ _ _ _ Hi2 Hi1 ltac:(lia)). lia. }
  assert (Hkw : k ∈ waiting q).
  { rewrite Hj. apply list_elem_of_lookup. exists (i2 - j)%nat.
    rewrite lookup_drop. by replace (j + (i2 - j))%nat with i2 by lia. }
  pose proof (waiting_pend s w q k Hq Hkw) as Hkp.
  apply list_elem_of_fmap in Hkp as (it' & -> & Hit').
  pose proof (iw_pend _ _ _ HI) as Hp. rewrite Forall_forall in Hp.
  destruct (Hp it' Hit') as (_ & _ & Hn). congruence.
Qed.

Lemma dealt_arrival c d s idx p s1 :
  Dealt ld s -> next_result ld c d s = Some ((idx, p), s1) -> Dealt ld s1.
Proof.
  intros HD Hn.
  destruct (arrival_shape _ _ _ _ _ _ _ Hn)
    as (w & item & q & Hq & _ & Hqs & _ & _ & _ & _ & _ & _ & Hsend & _).
  intros w' q' Hq'. rewrite Hqs in Hq'. rewrite Hsend.
  destruct (decide (w' = w)) as [->|Hne].
  - rewrite list_lookup_insert_eq in Hq' by (by eapply lookup_lt_Some).
    injection Hq' as <-. destruct (HD w _ Hq) as [k Hk].
    exists (S k). unfold waiting in *. simpl in Hk.
    rewrite (drop_S _ item.1 k) in Hk.
    + by injection Hk.
    + destruct (share ld w (send_idx s) !! k) as [x|] eqn:Hx.
      * apply drop_S in Hx. rewrite Hx in Hk. by injection Hk as ->.
      * apply lookup_ge_None in Hx. by rewrite drop_ge in Hk.
  - rewrite list_lookup_insert_ne in Hq' by done. by apply HD.
Qed.

Lemma receive_slack fuel st res st' :
  InvW ld (2 * W) (self st) -> Dealt ld (self st) ->
  reorder_dict (self st) !! rcvd_idx (self st) = None ->
  (rcvd_idx (self st) < send_idx (self st))%nat ->
  receive ld fuel st = (res, st') -> Slack ld (self st').
Proof.
  revert st. induction fuel as [|fuel IH]; intros st HI HD Hnone Hlt.
  all: assert (Hhere : Slack ld (self st)) by
    (exists (rcvd_idx (self st) `mod` W)%nat; split;
     [apply Nat.mod_upper_bound; pose proof (iw_workers _ _ _ HI); lia
     |by apply expected_worker_slack]).
  { simpl. by intros [= <- <-]. }
  pose proof (pending_expected _ _ _ HI Hnone Hlt) as Hpend.
  pose proof (outstanding_bound _ _ _ HI) as Hb.
  pose proof (iw_out _ _ _ HI) as Hout.
  assert (0 < length (pend (self st)))%nat as Hlen
    by (destruct (pend (self st)); simpl; [done|lia]).
  assert (Hsh : shutdown (self st) = false).
  { pose proof (iw_live _ _ _ HI) as Hl. destruct (shutdown (self st)); [|done].
    by destruct Hl as (? & _). }
  simpl. mstep. rewrite Hsh. simpl.
  rewrite bool_decide_true by lia. simpl.
  destruct (_get_batch ld st) as [[[idx p]|e|] st1] eqn:Hg;
    pose proof (get_batch_general _ _ _ _ Hg) as [_ Hrecv]; simpl in Hrecv.
  2,3: intros [= <- <-]; by rewrite Hrecv.
  destruct Hrecv as [(c & d & Hn1) Henv].
  destruct (arrival_facts _ _ _ _ _ _ _ _ HI Hn1)
    as (ind & Hsrc & Hprod & Hrange & Hfresh & Hperm & E1 & E2 & E3 & E4 & E5
        & E6 & E7 & E8 & E9 & E10 & E11 & Hcopies & Hsome).
  pose proof (dealt_arrival _ _ _ _ _ _ HD Hn1) as HD1.
  case_bool_decide as Hidx.
  - simpl. intros Hrec.
    set (st3 := mkState _ _) in Hrec.
    assert (HI3 : InvW ld (2 * W) (self st3)).
    { subst st3. simpl. rewrite E7 in Hidx.
      by apply (recv_store ld c d (self st)). }
    assert (Hnone3 : reorder_dict (self st3) !! rcvd_idx (self st3) = None).
    { subst st3. simpl. rewrite E7, E8.
      rewrite lookup_insert_ne; [done|]. by rewrite <- E7. }
    assert (Hlt3 : (rcvd_idx (self st3) < send_idx (self st3))%nat).
    { subst st3. simpl. by rewrite E6, E7. }
    apply (IH st3 HI3); [|done|done|done].
    subst st3. intros w q Hq. by apply HD1.
  - subst idx. rewrite E7 in Hn1.
    destruct (recv_deliver _ _ _ _ _ _ HI Hn1) as (HI2 & _ & indices & Hsrc' & Hprod').
    set (st2 := mkState _ _).
    destruct (process_next_batch_spec ld p st2 HI2)
      as (s' & es & Hproc & HI' & Hes & Hr & Hre & Hrefill).
    rewrite Hproc. intros [= <- <-]. subst st2.
    simpl in Hre. rewrite E8 in Hre.
    unfold Slack. simpl. by rewrite Hre.
Qed.

Lemma next_slack st res st' :
  Inv ld st -> Dealt ld (self st) -> Slack ld (self st) ->
  __next__ ld st = (res, st') -> Slack ld (self st').
Proof.
  intros [HI Htr Href] HD HS. pose proof (iw_workers _ _ _ HI) as HW.
  destruct (reorder_dict (self st) !! rcvd_idx (self st)) as [p|] eqn:Hp.
  - unfold __next__. mstep. rewrite bool_decide_false by lia. rewrite Hp.
    mstep. destruct (pop_deliver _ _ _ HI Hp) as (HI2 & _ & indices & Hsrc & Hprod).
    set (st2 := mkState _ _).
    destruct (process_next_batch_spec ld p st2 HI2)
      as (s' & es & Hproc & HI' & Hes & Hr & Hre & Hrefill).
    rewrite Hproc. intros [= <- <-]. subst st2. simpl in Hre.
    destruct HS as (a & Ha & Hfree). exists a. split; [done|].
    intros k Hk. apply Hfree. simpl in Hk. rewrite Hre in Hk.
    destruct Hk as [x Hx]. apply lookup_delete_Some in Hx as [_ Hx]. by exists x.
  - destruct (decide (batches_outstanding (self st) = 0)) as [Hz|Hz].
    + unfold __next__. mstep. rewrite bool_decide_false by lia. rewrite Hp.
      rewrite bool_decide_true by done. mstep.
      destruct (decide (python_exit_status (world st) = Some false
                        /\ shutdown (self st) = false)) as [[Hpy Hsh]|Hno].
      * rewrite shutdown_body by done. simpl. by intros [= <- <-].
      * rewrite shutdown_guarded.
        2:{ destruct (python_exit_status (world st)) as [[]|]; try (by left).
            right. destruct (shutdown (self st)); [done|].
            destruct Hno. done. }
        simpl. by intros [= <- <-].
    + rewrite next_waiting by (done || lia).
      assert (Hlt : (rcvd_idx (self st) < send_idx (self st))%nat).
      { pose proof (iw_pend _ _ _ HI) as Hpend. rewrite (iw_out _ _ _ HI) in Hz.
        destruct (pend (self st)) as [|it l]; [done|].
        apply Forall_cons in Hpend as [(_ & ? & _) _]. lia. }
      by apply receive_slack.
Qed.

Lemma run_S script n :
  run ld script (S n) =
    let '(rs, st) := run ld script n in
    let '(r, st') := __next__ ld st in (rs ++ [r], st').
Proof.
  unfold run. replace (S n) with (n + 1)%nat by lia. rewrite calls_app.
  destruct (calls ld n _) as [rs st]. simpl.
  by destruct (__next__ ld st).
Qed.

Lemma run_slack script n :
  (1 <= W)%nat -> Slack ld (self (run ld script n).2).
Proof.
  intros HW. induction n as [|n IH].
  - destruct (init_primed ld script HW) as [es Hp].
    exists 0%nat. split; [lia|]. intros k [x Hx]. exfalso. revert Hx.
    unfold run. simpl. rewrite Hp. simpl. by rewrite lookup_empty.
  - pose proof (run_inv ld script n HW) as HI.
    pose proof (rota_queues _ _ (run_rota ld script n HW)) as HD.
    rewrite run_S. destruct (run ld script n) as [rs st]. simpl in *.
    destruct (__next__ ld st) as [r st'] eqn:Hn. simpl.
    by apply (next_slack st r st').
Qed.

Lemma slack_bound s :
  InvW ld (2 * W) s -> Slack ld s -> (size (reorder_dict s) <= 2 * (W - 1))%nat.
Proof.
  intros HI (a & Ha & Hfree). pose proof (iw_workers _ _ _ HI) as HW.
  rewrite <- size_dom.
  apply (residue_slack W (rcvd_idx s) a); [done..|].
  intros k Hk. apply elem_of_dom in Hk. split; [|by apply Hfree].
  destruct Hk as [p Hk]. destruct (iw_reorder _ _ _ HI _ _ Hk) as [? _].
  pose proof (iw_send _ _ _ HI). lia.
Qed.

End Buffer.

(* ================================================================== *)
(** ** The properties X1 to X18 *)

(** X1.  The worker loop answers exactly the work items that come before
    the first sentinel of its index queue, one result per work item and
    in the order of the queue; what follows the sentinel is never
    touched, and a queue without sentinel gives the same results (the
    loop then waits for more).  The result for a work item is what the
    body of the loop makes of the worker's initial dataset, this work
    item and this work item's random draw: it does not depend on the
    work items answered before it, whether they failed or not. *)
Theorem worker_loop_results (ld : Loader) (ds : Dataset) (draws : list nat)
    (items : list WorkItem) (rest : list (option WorkItem)) :
  _ms_loop ld ds draws ((Some <$> items) ++ None :: rest)
    = imap (fun i item => (loop_body ld ds (nth i draws 0%nat) item).1) items
  /\ _ms_loop ld ds draws (Some <$> items)
       = _ms_loop ld ds draws ((Some <$> items) ++ None :: rest).
Proof.
  split; [apply ms_loop_imap|].
  by rewrite ms_loop_open, !ms_loop_imap.
Qed.

(** X2.  A successful result of the body of the worker loop is the
    collated batch with the scale index appended as its last element,
    and the batch is collated from the items fetched from the worker's
    dataset as the body leaves it.  With more than one scale and a
    dataset in training mode the index is the worker's draw, which lies
    below the number of scales, and it is selected on the dataset
    before the items are fetched; otherwise the index is [0] and the
    dataset is left as it is.  The training flag and the item lookup of
    the dataset never change. *)
Theorem scale_index_appended (ld : Loader) (ds : Dataset) (r idx : nat)
    (indices : list nat) (b : Batch) :
  (loop_body ld ds r (idx, indices)).1.2 = Samples b ->
  let ds' := (loop_body ld ds r (idx, indices)).2 in
  exists samples items k,
    b = samples ++ [Z.of_nat k]
    /\ fetch_all ds' indices = Ok items
    /\ collate_fn ld items = Ok samples
    /\ train ds' = train ds /\ getitem ds' = getitem ds
    /\ if bool_decide (1 < length (scale ld))%nat && train ds
       then k = (r `mod` length (scale ld))%nat
            /\ (k < length (scale ld))%nat /\ idx_scale ds' = k
       else k = 0%nat /\ ds' = ds.
Proof.
  rewrite loop_body_eq. unfold fetch_collate, select_scale. simpl.
  destruct (bool_decide (1 < length (scale ld))%nat && train ds) eqn:Hg; simpl.
  - destruct (fetch_all _ indices) as [items|e] eqn:Hf; [|done].
    destruct (collate_fn ld items) as [samples|e] eqn:Hc; [|done].
    intros [= <-]. exists samples, items, (randrange (length (scale ld)) r).
    repeat split; try done.
    apply andb_prop in Hg as [Hlen _]. apply bool_decide_eq_true in Hlen.
    unfold randrange. apply Nat.mod_upper_bound. lia.
  - destruct (fetch_all _ indices) as [items|e] eqn:Hf; [|done].
    destruct (collate_fn ld items) as [samples|e] eqn:Hc; [|done].
    intros [= <-]. exists samples, items, 0%nat. done.
Qed.

(** Three scales, training mode, the draw [7]: scale index [1]. *)
Lemma scale_index_appended_witness :
  let ld := scaled_loader 2 4 in
  let ds' := (loop_body ld scaled 7 (3, [3; 5])%nat).2 in
  exists samples items k,
    [31; 51; 1] = samples ++ [Z.of_nat k]
    /\ fetch_all ds' [3; 5]%nat = Ok items
    /\ collate_fn ld items = Ok samples
    /\ train ds' = train scaled /\ getitem ds' = getitem scaled
    /\ if bool_decide (1 < length (scale ld))%nat && train scaled
       then k = (7 `mod` length (scale ld))%nat
            /\ (k < length (scale ld))%nat /\ idx_scale ds' = k
       else k = 0%nat /\ ds' = scaled.
Proof.
  intros ld.
  apply (scale_index_appended ld scaled 7 3 [3; 5]%nat [31; 51; 1]).
  reflexivity.
Defined.

(** X3.  With at least one worker, [_MSDataLoaderIter.__init__] returns
    normally and leaves the iterator as follows, where [m] is the
    smaller of the number of index batches and [2 * num_workers]: one
    worker per index with its pid and the loader's dataset; the first
    [m] index batches dispatched, sequence number [i] on the queue of
    worker [i mod num_workers], in increasing order; the sampler
    advanced by [m]; [send_idx] and [batches_outstanding] equal to [m];
    nothing received or buffered; the pids registered and the iterator
    not shut down; a relay thread exactly when memory is pinned (and
    cuda is available) or a timeout is set; nothing taken from the
    result channel. *)
Theorem init_state (ld : Loader) (script : list Response) :
  (1 <= num_workers ld)%nat ->
  let n := num_workers ld in
  let m := (length (batch_sampler ld) `min` (2 * n))%nat in
  exists st,
    __init__ ld script = (Ret tt, st)
    /\ workers (self st) =
         (fun i => mkWorker (pid_of ld i) (dataset ld)) <$> seq 0 n
    /\ index_queues (self st) =
         (fun w =>
            (fun i => Some (i, default [] (batch_sampler ld !! i)))
              <$> filter (fun i => (i `mod` n)%nat = w) (seq 0 m))
           <$> seq 0 n
    /\ sample_iter (self st) = drop m (batch_sampler ld)
    /\ send_idx (self st) = m /\ batches_outstanding (self st) = Z.of_nat m
    /\ worker_queue_idx (self st) = (m `mod` n)%nat
    /\ rcvd_idx (self st) = 0%nat /\ reorder_dict (self st) = ∅
    /\ shutdown (self st) = false /\ worker_pids_set (self st) = true
    /\ has_pin_memory_thread (self st) =
         (pin_memory ld && cuda_is_available ld) || bool_decide (0 < timeout ld)
    /\ env (world st) = script.
Proof.
  intros HW n m. destruct (init_primed ld script HW) as [es Hi].
  eexists. split; [exact Hi|]. simpl. done.
Qed.

(** Two workers, three index batches, a timeout of five seconds. *)
Lemma init_state_witness :
  let ld := example_loader tenfold 2 3 5 in
  let n := num_workers ld in
  let m := (length (batch_sampler ld) `min` (2 * n))%nat in
  exists st,
    __init__ ld [] = (Ret tt, st)
    /\ workers (self st) =
         (fun i => mkWorker (pid_of ld i) (dataset ld)) <$> seq 0 n
    /\ index_queues (self st) =
         (fun w =>
            (fun i => Some (i, default [] (batch_sampler ld !! i)))
              <$> filter (fun i => (i `mod` n)%nat = w) (seq 0 m))
           <$> seq 0 n
    /\ sample_iter (self st) = drop m (batch_sampler ld)
    /\ send_idx (self st) = m /\ batches_outstanding (self st) = Z.of_nat m
    /\ worker_queue_idx (self st) = (m `mod` n)%nat
    /\ rcvd_idx (self st) = 0%nat /\ reorder_dict (self st) = ∅
    /\ shutdown (self st) = false /\ worker_pids_set (self st) = true
    /\ has_pin_memory_thread (self st) =
         (pin_memory ld && cuda_is_available ld) || bool_decide (0 < timeout ld)
    /\ env (world st) = [].
Proof.
  intros ld. apply (init_state ld []). vm_compute. lia.
Defined.

(** X4.  With at least one worker, in every run and whatever the
    environment does, the work items are dealt out in turn: the puts on
    the index queues so far are those of the sequence numbers [0], [1],
    ... up to [send_idx], in this order, sequence number [i] on the
    queue of worker [i mod num_workers]; the cursor is the worker whose
    turn is next; and every index queue holds, in increasing order, a
    tail of the sequence numbers dealt to its worker, each with its own
    index batch of the sampler. *)
Theorem work_dealt_in_turn (ld : Loader) (script : list Response) (n : nat) :
  (1 <= num_workers ld)%nat ->
  let st := (run ld script n).2 in
  let turn := fun i => (i `mod` num_workers ld)%nat in
  dispatches (trace (world st))
    = (fun i => (turn i, i)) <$> seq 0 (send_idx (self st))
  /\ worker_queue_idx (self st) = turn (send_idx (self st))
  /\ forall w q,
       index_queues (self st) !! w = Some q ->
       (exists k,
          (omap id q).*1 =
            drop k (filter (fun i => turn i = w) (seq 0 (send_idx (self st)))))
       /\ Forall (fun it : WorkItem => batch_sampler ld !! it.1 = Some it.2)
            (omap id q).
Proof.
  intros HW st turn. destruct (run_rota ld script n HW) as [Hc Ht Hq].
  fold st in Hc, Ht, Hq.
  split; [done|]. split; [done|]. intros w q Hw. split; [by apply Hq|].
  destruct (run_inv ld script n HW) as [HI _ _]. fold st in HI.
  pose proof (iw_pend _ _ _ HI) as Hp. unfold pend in Hp.
  eapply Forall_impl; [by eapply Forall_queue|]. simpl. tauto.
Qed.

(** Three workers, nine index batches, two calls of [next()]. *)
Lemma work_dealt_in_turn_witness :
  let ld := example_loader tenfold 3 9 0 in
  let script := arrives <$> [2; 0; 1; 1]%nat in
  let st := (run ld script 2).2 in
  let turn := fun i => (i `mod` num_workers ld)%nat in
  dispatches (trace (world st))
    = (fun i => (turn i, i)) <$> seq 0 (send_idx (self st))
  /\ worker_queue_idx (self st) = turn (send_idx (self st))
  /\ forall w q,
       index_queues (self st) !! w = Some q ->
       (exists k,
          (omap id q).*1 =
            drop k (filter (fun i => turn i = w) (seq 0 (send_idx (self st)))))
       /\ Forall (fun it : WorkItem => batch_sampler ld !! it.1 = Some it.2)
            (omap id q).
Proof.
  intros ld script. apply (work_dealt_in_turn ld script 2). vm_compute. lia.
Defined.

(** X5.  With at least one worker, after construction and after every
    call of [next()], whatever the environment does: the index batches
    dispatched and not yet handed over are exactly the next
    [2 * num_workers] ones, or all that is left of the sampler;
    the sampler has been consumed exactly up to [send_idx];
    [batches_outstanding] is the number of work items on the index
    queues; together with the buffered results it accounts for every
    sequence number from [rcvd_idx] up to [send_idx]; and the reorder
    buffer holds sequence numbers of this range only. *)
Theorem prefetch_depth (ld : Loader) (script : list Response) (n : nat) :
  (1 <= num_workers ld)%nat ->
  let s := self (run ld script n).2 in
  send_idx s
    = (length (batch_sampler ld) `min` (rcvd_idx s + 2 * num_workers ld))%nat
  /\ sample_iter s = drop (send_idx s) (batch_sampler ld)
  /\ batches_outstanding s
       = Z.of_nat (length (omap id (concat (index_queues s))))
  /\ batches_outstanding s + Z.of_nat (size (reorder_dict s))
       = Z.of_nat (send_idx s - rcvd_idx s)
  /\ (forall k, is_Some (reorder_dict s !! k) ->
        (rcvd_idx s <= k < send_idx s)%nat)
  /\ (rcvd_idx s <= send_idx s)%nat.
Proof.
  intros HW s. destruct (run_inv ld script n HW) as [HI _ _]. fold s in HI.
  split; [apply (iw_send _ _ _ HI)|]. split; [apply (iw_src _ _ _ HI)|].
  split; [apply (iw_out _ _ _ HI)|]. split.
  { rewrite (iw_out _ _ _ HI). pose proof (iw_count _ _ _ HI). lia. }
  split; [|apply (iw_rcvd _ _ _ HI)].
  intros k [p Hp]. by destruct (iw_reorder _ _ _ HI _ _ Hp).
Qed.

(** Two workers, seven index batches, an early arrival in the buffer. *)
Lemma prefetch_depth_witness :
  let ld := example_loader tenfold 2 7 0 in
  let s := self (run ld (arrives <$> [1; 1; 0]%nat) 2).2 in
  send_idx s
    = (length (batch_sampler ld) `min` (rcvd_idx s + 2 * num_workers ld))%nat
  /\ sample_iter s = drop (send_idx s) (batch_sampler ld)
  /\ batches_outstanding s
       = Z.of_nat (length (omap id (concat (index_queues s))))
  /\ batches_outstanding s + Z.of_nat (size (reorder_dict s))
       = Z.of_nat (send_idx s - rcvd_idx s)
  /\ (forall k, is_Some (reorder_dict s !! k) ->
        (rcvd_idx s <= k < send_idx s)%nat)
  /\ (rcvd_idx s <= send_idx s)%nat.
Proof.
  intros ld.
  apply (prefetch_depth ld (arrives <$> [1; 1; 0]%nat) 2). vm_compute. lia.
Defined.

(** X6.  With at least one worker, whatever the environment does (empty
    polls, broken receives, dead workers, a script that runs out) and
    however often [next()] is called, the batches that the calls return
    are, in the order of the calls, results of index batches that
    follow one another in the batch sampler: nothing is returned twice
    or out of order.  In particular no more than [__len__] batches are
    ever returned. *)
Theorem returned_follow_sampler (ld : Loader) (script : list Response)
    (n : nat) :
  (1 <= num_workers ld)%nat ->
  let outs := (run ld script n).1 in
  exists l,
    l `sublist_of` batch_sampler ld
    /\ Forall2 (fun indices b => produced ld indices (Samples b))
         l (returned outs)
    /\ (length (returned outs) <= __len__ ld)%nat.
Proof.
  intros HW outs. destruct (run_returned ld script n HW) as (l & Hsub & Hall).
  exists l. split; [done|]. split; [done|].
  apply Forall2_length in Hall. apply sublist_length in Hsub.
  unfold __len__. fold outs in Hall. lia.
Qed.

(** A failing item, an empty poll, and a worker that dies. *)
Lemma returned_follow_sampler_witness :
  let ld := example_loader (faulty (mkExn KeyError "1")) 2 5 0 in
  let script :=
    [arrives 1; mkResponse Silent (fun _ => true) true; arrives 0; arrives 0;
     silence_with_dead 101] in
  let outs := (run ld script 5).1 in
  exists l,
    l `sublist_of` batch_sampler ld
    /\ Forall2 (fun indices b => produced ld indices (Samples b))
         l (returned outs)
    /\ (length (returned outs) <= __len__ ld)%nat.
Proof.
  intros ld script. apply (returned_follow_sampler ld script 5).
  vm_compute. lia.
Defined.

(** X7.  With at least one worker, every call of [next()] in every run
    does one of two things.  Either it moves on by one: then its
    outcome is what the hand-over makes of the result for the index
    batch at position [rcvd_idx], a batch or the error raised for it in
    the worker.  Or it stays where it is and returns no batch: the end
    of the sequence, an error of the receive, or a wait beyond the
    script.  The position never passes the end of the sampler. *)
Theorem next_hands_over_or_stays (ld : Loader) (script : list Response)
    (n : nat) :
  (1 <= num_workers ld)%nat ->
  let st := (run ld script n).2 in
  let res := (__next__ ld st).1 in
  let st' := (__next__ ld st).2 in
  (rcvd_idx (self st) <= length (batch_sampler ld))%nat
  /\ (((rcvd_idx (self st') = rcvd_idx (self st) + 1)%nat
       /\ exists indices,
           batch_sampler ld !! rcvd_idx (self st) = Some indices
           /\ handed_over ld indices res)
      \/ (rcvd_idx (self st') = rcvd_idx (self st)
          /\ forall b, res <> Ret b)).
Proof.
  intros HW st res st'. pose proof (run_inv ld script n HW) as HI.
  fold st in HI. split.
  - destruct HI as [HI _ _]. pose proof (iw_send _ _ _ HI).
    pose proof (iw_rcvd _ _ _ HI). lia.
  - apply (next_safe ld st res st' HI). subst res st'.
    by destruct (__next__ ld st).
Qed.

(** The second call meets a dead worker and stays at position [1]. *)
Lemma next_hands_over_or_stays_witness :
  let ld := example_loader tenfold 2 5 0 in
  let script := [arrives 1; silence_with_dead 100] in
  let st := (run ld script 1).2 in
  let res := (__next__ ld st).1 in
  let st' := (__next__ ld st).2 in
  (rcvd_idx (self st) <= length (batch_sampler ld))%nat
  /\ (((rcvd_idx (self st') = rcvd_idx (self st) + 1)%nat
       /\ exists indices,
           batch_sampler ld !! rcvd_idx (self st) = Some indices
           /\ handed_over ld indices res)
      \/ (rcvd_idx (self st') = rcvd_idx (self st)
          /\ forall b, res <> Ret b)).
Proof.
  intros ld script. apply (next_hands_over_or_stays ld script 1).
  vm_compute. lia.
Defined.

(** X8.  With a single worker nothing is ever buffered: after every call
    of [next()], whatever the environment does, the reorder buffer is
    empty, and the one index queue holds the sequence numbers from
    [rcvd_idx] up to [send_idx] in order. *)
Theorem single_worker_never_buffers (ld : Loader) (script : list Response)
    (n : nat) :
  num_workers ld = 1%nat ->
  let s := self (run ld script n).2 in
  reorder_dict s = ∅
  /\ exists q,
       index_queues s = [q]
       /\ (omap id q).*1 = seq (rcvd_idx s) (send_idx s - rcvd_idx s).
Proof.
  intros H1 s.
  assert (HS : Single (run ld script n).2).
  { eapply (Single_steps ld); [by apply Single_booted|].
    apply run_steps. lia. }
  destruct HS as [Hre _ Hq]. done.
Qed.

(** One worker, five index batches, three calls of [next()]. *)
Lemma single_worker_never_buffers_witness :
  let ld := example_loader tenfold 1 5 0 in
  let s := self (run ld (arrives <$> [0; 3; 7]%nat) 3).2 in
  reorder_dict s = ∅
  /\ exists q,
       index_queues s = [q]
       /\ (omap id q).*1 = seq (rcvd_idx s) (send_idx s - rcvd_idx s).
Proof.
  intros ld.
  apply (single_worker_never_buffers ld (arrives <$> [0; 3; 7]%nat) 3).
  reflexivity.
Defined.

(** X9.  With at least one worker, after construction and after every
    call of [next()], whatever the environment does, there is a worker
    none of whose results is in the reorder buffer, and so the buffer
    holds at most [2 * (num_workers - 1)] results: a worker answers its
    index queue in order, so while the expected result is outstanding
    nothing of its worker can have been buffered. *)
Theorem reorder_buffer_bound (ld : Loader) (script : list Response) (n : nat) :
  (1 <= num_workers ld)%nat ->
  let s := self (run ld script n).2 in
  (size (reorder_dict s) <= 2 * (num_workers ld - 1))%nat
  /\ exists a,
       (a < num_workers ld)%nat
       /\ forall k, is_Some (reorder_dict s !! k) ->
            (k `mod` num_workers ld)%nat <> a.
Proof.
  intros HW s. pose proof (run_slack ld script n HW) as HS. fold s in HS.
  destruct (run_inv ld script n HW) as [HI _ _]. fold s in HI.
  split; [by apply slack_bound|done].
Qed.

(** Two workers: both results of the second worker arrive first. *)
Lemma reorder_buffer_bound_witness :
  let ld := example_loader tenfold 2 7 0 in
  let s := self (run ld (arrives <$> [1; 1; 0]%nat) 1).2 in
  (size (reorder_dict s) <= 2 * (num_workers ld - 1))%nat
  /\ exists a,
       (a < num_workers ld)%nat
       /\ forall k, is_Some (reorder_dict s !! k) ->
            (k `mod` num_workers ld)%nat <> a.
Proof.
  intros ld.
  apply (reorder_buffer_bound ld (arrives <$> [1; 1; 0]%nat) 1). vm_compute. lia.
Defined.

(** X10.  With at least one worker, once every index batch has been
    handed over, every further call of [next()] signals the end of the
    sequence, whatever the environment does.  The first such call shuts
    the workers down if that has not happened yet; from then on the
    iterator does not change any more: it is shut down, the pids have
    been released, exactly once, and every index queue holds the
    sentinel and nothing else. *)
Theorem end_is_final (ld : Loader) (script : list Response) (n : nat) :
  (1 <= num_workers ld)%nat ->
  rcvd_idx (self (run ld script n).2) = length (batch_sampler ld) ->
  exists st1,
    (forall k,
       calls ld (S k) (run ld script n).2 = (replicate (S k) stop, st1))
    /\ (forall k, calls ld k st1 = (replicate k stop, st1))
    /\ shutdown (self st1) = true
    /\ worker_pids_set (self st1) = false
    /\ occurrences RemoveWorkerPids (trace (world st1)) = 1%nat
    /\ Forall (fun q => q = [None]) (index_queues (self st1)).
Proof.
  intros HW Hr. set (st := (run ld script n).2) in *.
  pose proof (run_inv ld script n HW) as HI. fold st in HI.
  pose proof (run_life ld script n HW) as HL. fold st in HL.
  destruct (exhausted_state ld st HI Hr) as (Hre & Hz & Hp & Hs & _).
  assert (Hnone : reorder_dict (self st) !! rcvd_idx (self st) = None)
    by (by rewrite Hre).
  assert (Hfinal : forall st1,
    Life ld st1 -> shutdown (self st1) = true ->
    reorder_dict (self st1) !! rcvd_idx (self st1) = None ->
    batches_outstanding (self st1) = 0 -> pend (self st1) = [] ->
    (forall k, calls ld k st1 = (replicate k stop, st1))
    /\ shutdown (self st1) = true
    /\ worker_pids_set (self st1) = false
    /\ occurrences RemoveWorkerPids (trace (world st1)) = 1%nat
    /\ Forall (fun q => q = [None]) (index_queues (self st1))).
  { intros st1 HL1 Hsh1 Hn1 Hz1 Hp1. split.
    { apply stop_fixed; [lia|done|done|]. apply shutdown_guarded. by right. }
    split; [done|].
    destruct HL1 as [L1 L2 L3 L4 L5 L6 L7 L8 L9 L10 L11 L12].
    rewrite Hsh1 in L2, L4, L9. split; [done|]. split; [done|].
    apply Forall_forall. intros q Hq.
    rewrite Forall_forall in L9. destruct (L9 q Hq) as [items Hitems].
    by rewrite (idle_queue _ true q items Hp1 Hq Hitems) in Hitems. }
  destruct (shutdown (self st)) eqn:Hsh.
  - exists st. destruct (Hfinal st HL Hsh Hnone Hz Hp) as (Hc & H).
    split; [by intros k; apply Hc|]. split; [done|]. done.
  - pose proof (life_python _ _ HL) as Hpy.
    set (st1 := mkState (torn_down (self st))
                  (logs (shutdown_events (self st)) (world st))).
    assert (HL1 : Life ld st1).
    { eapply Life_step; [exact HL|]. by apply step_teardown. }
    destruct (Hfinal st1 HL1 eq_refl) as (Hc & H); try done.
    { unfold st1. simpl. by rewrite pend_torn_down. }
    exists st1. split; [|split; [done|done]].
    intros k. simpl. unfold __next__. mstep.
    rewrite bool_decide_false by lia. rewrite Hnone.
    rewrite bool_decide_true by done. mstep.
    rewrite shutdown_body by done. simpl. fold st1. by rewrite Hc.
Qed.

(** Two workers, three index batches, all of them handed over. *)
Lemma end_is_final_witness :
  let ld := example_loader tenfold 2 3 0 in
  let script := arrives <$> [1; 0; 0]%nat in
  exists st1,
    (forall k,
       calls ld (S k) (run ld script 3).2 = (replicate (S k) stop, st1))
    /\ (forall k, calls ld k st1 = (replicate k stop, st1))
    /\ shutdown (self st1) = true
    /\ worker_pids_set (self st1) = false
    /\ occurrences RemoveWorkerPids (trace (world st1)) = 1%nat
    /\ Forall (fun q => q = [None]) (index_queues (self st1)).
Proof.
  intros ld script. apply (end_is_final ld script 3).
  - vm_compute. lia.
  - reflexivity.
Defined.

(** X11.  With no worker, a pass hands over, in the order of the batch
    sampler, what the collate function makes of the items of each index
    batch, and then signals the end of the sequence at every further
    call.  An error of the item lookup or of the collate function
    propagates to the caller as it is; its index batch is used up, and
    the next call goes on with the next one.  The pass takes nothing
    from the environment and has no effect on queues, workers or the
    pid registry, and [__del__] does nothing. *)
Theorem sync_pass (ld : Loader) (script : list Response) (k : nat) :
  num_workers ld = 0%nat ->
  let st' :=
    mkState (mkIter [] 0 0 false false 0 0 ∅ [] [] false) (fresh_world script) in
  run ld script (length (batch_sampler ld) + k)
    = (((fun indices =>
           match fetch_all (dataset ld) indices with
           | Err e => Raise e
           | Ok items =>
               match collate_fn ld items with
               | Err e => Raise e
               | Ok batch => Ret batch
               end
           end) <$> batch_sampler ld)
         ++ replicate k stop, st')
  /\ __del__ ld st' = (Ret tt, st').
Proof.
  intros HW st'. split.
  - unfold run, __init__, construct. rewrite bool_decide_false by lia.
    rewrite (sync_calls_state ld (batch_sampler ld) k) by done.
    f_equal. f_equal. apply list_fmap_ext. intros i indices _.
    unfold sync_outcome, fetch_collate.
    destruct (fetch_all (dataset ld) indices) as [items|e]; [|done].
    by destruct (collate_fn ld items).
  - unfold __del__. by rewrite bool_decide_false by lia.
Qed.

(** Three index batches, the second one fails with a two-line [KeyError]. *)
Lemma sync_pass_witness :
  let ld := example_loader (faulty two_line_key_error) 0 3 0 in
  let st' :=
    mkState (mkIter [] 0 0 false false 0 0 ∅ [] [] false) (fresh_world []) in
  run ld [] (length (batch_sampler ld) + 2)
    = (((fun indices =>
           match fetch_all (dataset ld) indices with
           | Err e => Raise e
           | Ok items =>
               match collate_fn ld items with
               | Err e => Raise e
               | Ok batch => Ret batch
               end
           end) <$> batch_sampler ld)
         ++ replicate 2 stop, st')
  /\ __del__ ld st' = (Ret tt, st').
Proof.
  intros ld. apply (sync_pass ld [] 2). reflexivity.
Defined.

(** X12.  With pinned memory and no hard timeout, the blocking receive
    asks before every poll whether the relay thread is alive.  If it is
    dead at the start, the receive raises the error of the dead relay
    without polling, and [next()], when it has to wait for a result,
    raises it and leaves the iterator as it was.  If the relay dies
    during a poll that comes back empty while every worker is alive,
    the receive raises the error after this one poll. *)
Theorem relay_death (ld : Loader) (st : State) :
  ~ 0 < timeout ld ->
  self_pin_memory ld = true ->
  (relay_alive (world st) = false ->
   _get_batch ld st = (Raise relay_gone, st))
  /\ (forall r rest,
        relay_alive (world st) = true ->
        env (world st) = r :: rest -> arrival r = Silent ->
        forallb (fun w => alive_after r (pid w)) (workers (self st)) = true ->
        relay_after r = false ->
        _get_batch ld st =
          (Raise relay_gone,
           mkState (self st)
             (log (Waited MP_STATUS_CHECK_INTERVAL) (answer r rest (world st)))))
  /\ (relay_alive (world st) = false ->
      num_workers ld <> 0%nat ->
      reorder_dict (self st) !! rcvd_idx (self st) = None ->
      0 < batches_outstanding (self st) -> shutdown (self st) = false ->
      __next__ ld st = (Raise relay_gone, st)).
Proof.
  intros Ht Hpin.
  assert (Hdead : relay_alive (world st) = false ->
            _get_batch ld st = (Raise relay_gone, st)).
  { intros Hr. rewrite get_batch_polling by done. rewrite Hpin.
    simpl. mstep. by rewrite Hr. }
  split; [done|]. split.
  - intros r rest Hr He Ha Halive Hafter.
    rewrite get_batch_polling by done. rewrite Hpin, He.
    simpl. mstep. rewrite Hr. mstep.
    rewrite (try_get_silent ld _ _ _ _ He) by eauto.
    unfold after_failure, is_alive. simpl. rewrite Halive. simpl.
    mstep. by rewrite Hafter.
  - intros Hr HW Hp Hz Hsh.
    destruct (next_waits ld st HW Hp Hz Hsh _ st (Hdead Hr))
      as (e & Hn & He); [done|].
    simpl in He. by subst e.
Qed.

(** Two workers, pinned memory, a poll during which the relay dies. *)
Lemma relay_death_witness :
  let ld := pinned_loader 2 5 in
  let st := (__init__ ld [silence_with_dead_relay; arrives 0]).2 in
  (relay_alive (world st) = false ->
   _get_batch ld st = (Raise relay_gone, st))
  /\ (forall r rest,
        relay_alive (world st) = true ->
        env (world st) = r :: rest -> arrival r = Silent ->
        forallb (fun w => alive_after r (pid w)) (workers (self st)) = true ->
        relay_after r = false ->
        _get_batch ld st =
          (Raise relay_gone,
           mkState (self st)
             (log (Waited MP_STATUS_CHECK_INTERVAL) (answer r rest (world st)))))
  /\ (relay_alive (world st) = false ->
      num_workers ld <> 0%nat ->
      reorder_dict (self st) !! rcvd_idx (self st) = None ->
      0 < batches_outstanding (self st) -> shutdown (self st) = false ->
      __next__ ld st = (Raise relay_gone, st)).
Proof.
  intros ld st. apply (relay_death ld st).
  - vm_compute. discriminate.
  - reflexivity.
Defined.

(** X13.  When [next()] has to wait for a result and the receive raises an
    error other than the empty-queue signal while every worker is
    alive, [next()] raises this very error, in every configuration of
    timeout and pinned memory, and changes nothing in the iterator: no
    counter moves, nothing is buffered or dispatched, so the call can
    be made again. *)
Theorem receive_error_passes_through (ld : Loader) (st : State)
    (r : Response) (rest : list Response) (e : Exn) :
  num_workers ld <> 0%nat ->
  reorder_dict (self st) !! rcvd_idx (self st) = None ->
  0 < batches_outstanding (self st) ->
  shutdown (self st) = false ->
  (self_pin_memory ld = true -> relay_alive (world st) = true) ->
  env (world st) = r :: rest ->
  arrival r = Broken e ->
  exn_type e <> QueueEmpty ->
  forallb (fun w => alive_after r (pid w)) (workers (self st)) = true ->
  __next__ ld st = (Raise e, mkState (self st) (answer r rest (world st))).
Proof.
  intros HW Hp Hz Hsh Hrelay He Ha Hty Halive.
  assert (Htry : forall t,
    _try_get_batch ld t st =
      (Raise e, mkState (self st) (answer r rest (world st)))).
  { intros t. rewrite (try_get_broken ld _ _ _ _ _ He Ha).
    unfold after_failure, is_alive. simpl. rewrite Halive. simpl.
    by rewrite decide_False. }
  assert (Hg : _get_batch ld st =
                 (Raise e, mkState (self st) (answer r rest (world st)))).
  { destruct (decide (0 < timeout ld)) as [Ht|Ht].
    - unfold _get_batch. rewrite bool_decide_true by done. mstep.
      by rewrite Htry.
    - rewrite get_batch_polling by done. rewrite He.
      destruct (self_pin_memory ld); simpl; mstep.
      + rewrite Hrelay by done. mstep. by rewrite Htry.
      + by rewrite Htry. }
  destruct (next_waits ld st HW Hp Hz Hsh _ _ Hg) as (x & Hn & Hx); [done|].
  simpl in Hx. by subst x.
Qed.

(** Two workers, a receive that breaks with an [OSError]. *)
Lemma receive_error_passes_through_witness :
  let ld := example_loader tenfold 2 5 0 in
  let e := mkExn (UserError "OSError") "broken pipe" in
  let st := (__init__ ld [broken_receive e; arrives 0]).2 in
  __next__ ld st
    = (Raise e,
       mkState (self st) (answer (broken_receive e) [arrives 0] (world st))).
Proof.
  intros ld e st.
  apply (receive_error_passes_through ld st (broken_receive e) [arrives 0] e);
    try reflexivity; try discriminate.
Defined.

(** X14.  With at least one worker, [__del__] after any number of calls of
    [next()] in any environment returns normally and leaves the
    iterator shut down: the pids were registered once and are released
    once, the stop signal was set once, the workers are the ones that
    were started, and a second [__del__] does nothing.  Every index
    queue ends with the sentinel, which comes after the work items
    still waiting there, so that the worker loop run on it answers
    exactly these work items and then returns. *)
Theorem teardown_after_any_run (ld : Loader) (script : list Response)
    (n : nat) :
  (1 <= num_workers ld)%nat ->
  exists st',
    __del__ ld (run ld script n).2 = (Ret tt, st')
    /\ __del__ ld st' = (Ret tt, st')
    /\ shutdown (self st') = true
    /\ worker_pids_set (self st') = false
    /\ occurrences SetWorkerPids (trace (world st')) = 1%nat
    /\ occurrences RemoveWorkerPids (trace (world st')) = 1%nat
    /\ occurrences DoneEventSet (trace (world st')) = 1%nat
    /\ pid <$> workers (self st') = pid_of ld <$> seq 0 (num_workers ld)
    /\ forall w q,
         index_queues (self st') !! w = Some q ->
         exists items : list WorkItem,
           q = (Some <$> items) ++ [None]
           /\ forall ds draws,
                _ms_loop ld ds draws q =
                  imap (fun i item =>
                          (loop_body ld ds (nth i draws 0%nat) item).1) items.
Proof.
  intros HW. pose proof (run_life ld script n HW) as HL.
  destruct (del_run ld _ HW HL)
    as (st' & Hd & Hd' & Hsh & Hp & Hs & Hr & Hdone & Hq & _).
  exists st'. do 7 (split; [done|]). split.
  - pose proof (life_workers _ _ HL) as Hw.
    unfold __del__ in Hd. rewrite bool_decide_true in Hd by lia.
    destruct (shutdown (self (run ld script n).2)) eqn:Hsh0.
    + rewrite shutdown_guarded in Hd by (by right). by injection Hd as <-.
    + rewrite shutdown_body in Hd by (done || apply (life_python _ _ HL)).
      by injection Hd as <-.
  - intros w q Hw. rewrite Forall_lookup in Hq.
    destruct (Hq _ _ Hw) as [items ->]. exists items. split; [done|].
    intros ds draws. apply ms_loop_imap.
Qed.

(** Two workers, six index batches, [__del__] after the first call. *)
Lemma teardown_after_any_run_witness :
  let ld := example_loader tenfold 2 6 0 in
  let script := arrives <$> [1; 0]%nat in
  exists st',
    __del__ ld (run ld script 1).2 = (Ret tt, st')
    /\ __del__ ld st' = (Ret tt, st')
    /\ shutdown (self st') = true
    /\ worker_pids_set (self st') = false
    /\ occurrences SetWorkerPids (trace (world st')) = 1%nat
    /\ occurrences RemoveWorkerPids (trace (world st')) = 1%nat
    /\ occurrences DoneEventSet (trace (world st')) = 1%nat
    /\ pid <$> workers (self st') = pid_of ld <$> seq 0 (num_workers ld)
    /\ forall w q,
         index_queues (self st') !! w = Some q ->
         exists items : list WorkItem,
           q = (Some <$> items) ++ [None]
           /\ forall ds draws,
                _ms_loop ld ds draws q =
                  imap (fun i item =>
                          (loop_body ld ds (nth i draws 0%nat) item).1) items.
Proof.
  intros ld script. apply (teardown_after_any_run ld script 1).
  vm_compute. lia.
Defined.

(** X15.  With at least one worker, over the whole life of the iterator,
    construction, any number of calls of [next()] in any environment
    and [__del__], every put of a work item on an index queue comes
    before every close of an index queue. *)
Theorem no_put_after_close (ld : Loader) (script : list Response) (n : nat) :
  (1 <= num_workers ld)%nat ->
  let es := trace (world (__del__ ld (run ld script n).2).2) in
  forall i j w k v,
    es !! i = Some (Dispatch w k) -> es !! j = Some (IndexClose v) ->
    (i < j)%nat.
Proof.
  intros HW es. pose proof (run_life ld script n HW) as HL.
  destruct (del_run ld _ HW HL) as (st' & Hd & _ & _ & _ & _ & _ & _ & _ & Ho).
  subst es. rewrite Hd. exact Ho.
Qed.

(** Two workers, six index batches, [__del__] after the first call. *)
Lemma no_put_after_close_witness :
  let ld := example_loader tenfold 2 6 0 in
  (1 <= num_workers ld)%nat
  /\ (let es :=
        trace (world (__del__ ld (run ld (arrives <$> [1; 0]%nat) 1).2).2) in
      forall i j w k v,
        es !! i = Some (Dispatch w k) -> es !! j = Some (IndexClose v) ->
        (i < j)%nat).
Proof.
  intros ld. split; [vm_compute; lia|].
  apply (no_put_after_close ld (arrives <$> [1; 0]%nat) 1).
  vm_compute. lia.
Defined.

(** X16.  With at least one worker and no hard timeout, polls that come
    back empty are sat out: if every response of the environment is an
    arrival or an empty poll that leaves the workers and the relay
    alive, and enough results arrive, the calls of [next()] hand over
    the results of all index batches in the order of the batch sampler
    and then signal the end of the sequence, wherever the empty polls
    fall. *)
Theorem delays_are_harmless (ld : Loader) (script : list Response) :
  (1 <= num_workers ld)%nat ->
  ~ 0 < timeout ld ->
  forallb (patient ld) script = true ->
  (length (batch_sampler ld) <= arrivals script)%nat ->
  exists outs st',
    run ld script (length (batch_sampler ld) + 1) = (outs ++ [stop], st')
    /\ Forall2 (handed_over ld) (batch_sampler ld) outs
    /\ (multi_scale ld = false ->
        outs = (fun indices => deliver (worker_payload ld indices))
                 <$> batch_sampler ld).
Proof.
  intros HW Ht Hpat Hlen.
  destruct (run_patient ld script 1 HW Ht Hpat Hlen) as (outs & st' & Hrun & Hall).
  exists outs, st'. split; [done|]. split; [done|].
  intros Hms. clear Hrun Hlen.
  induction Hall as [|indices out l outs' (p & Hp & ->) _ IH]; [done|].
  rewrite fmap_cons, <- IH. by rewrite (produced_det ld _ _ Hms Hp).
Qed.

(** Two workers, three index batches, an empty poll before every arrival. *)
Lemma delays_are_harmless_witness :
  let ld := example_loader tenfold 2 3 0 in
  let script := late 1 ++ late 0 ++ late 0 in
  exists outs st',
    run ld script (length (batch_sampler ld) + 1) = (outs ++ [stop], st')
    /\ Forall2 (handed_over ld) (batch_sampler ld) outs
    /\ (multi_scale ld = false ->
        outs = (fun indices => deliver (worker_payload ld indices))
                 <$> batch_sampler ld).
Proof.
  intros ld script. apply (delays_are_harmless ld script).
  - vm_compute. lia.
  - vm_compute. discriminate.
  - reflexivity.
  - vm_compute. lia.
Defined.

(** X17.  While the interpreter is exiting (its exit status is set or
    gone), the shutdown does nothing, also when it runs for the first
    time: [__del__] leaves the iterator as it is, and a call of
    [next()] that finds nothing outstanding signals the end of the
    sequence, again and again, without joining a worker or releasing
    the pids. *)
Theorem interpreter_exit_skips_shutdown (ld : Loader) (st : State) :
  python_exit_status (world st) <> Some false ->
  _shutdown_workers st = (Ret tt, st)
  /\ __del__ ld st = (Ret tt, st)
  /\ (num_workers ld <> 0%nat ->
      reorder_dict (self st) !! rcvd_idx (self st) = None ->
      batches_outstanding (self st) = 0 ->
      forall k, calls ld k st = (replicate k stop, st)).
Proof.
  intros Hpy.
  assert (Hsh : _shutdown_workers st = (Ret tt, st))
    by (apply shutdown_guarded; by left).
  split; [done|]. split.
  - unfold __del__. by destruct (bool_decide _).
  - intros HW Hp Hz. by apply stop_fixed.
Qed.

(** An exhausted iterator at the exit of the interpreter. *)
Lemma interpreter_exit_skips_shutdown_witness :
  let ld := example_loader tenfold 2 2 0 in
  let st := at_exit (run ld (arrives <$> [0; 0]%nat) 2).2 in
  _shutdown_workers st = (Ret tt, st)
  /\ __del__ ld st = (Ret tt, st)
  /\ (num_workers ld <> 0%nat ->
      reorder_dict (self st) !! rcvd_idx (self st) = None ->
      batches_outstanding (self st) = 0 ->
      forall k, calls ld k st = (replicate k stop, st)).
Proof.
  intros ld st. apply (interpreter_exit_skips_shutdown ld st). discriminate.
Defined.


